(** * FastCAM saliency maps: a shallow embedding of [maps.py] and [misc.py]

    Conventions of the embedding.

    - A tensor entry is an [fl]: [Some r] is the finite real [r], [None] is
      a non-finite float (an infinity or a NaN).  Arithmetic on finite
      entries is exact real arithmetic; every operation is strict in
      [None], and an operation that leaves the reals (division by zero,
      logarithm of a non-positive number, square root of a negative
      number) yields [None].  Rounding, overflow and underflow are not
      modelled: [Some r] stands for the float nearest to [r], so an
      equation between finite values reads up to rounding, and what
      rounding can break (the sign or the finiteness of a difference of
      nearly equal floats, an exact bound, an exact invariance under
      rescaling) is not stated as a property of the code.  Python numbers
      are modelled in the same way.
    - A tensor is its [size] and an indexing function [data]; only the
      indices within [size] are meaningful.
    - Python exceptions are the [Raise] results of the [result] monad.
    - A float literal that the source annotates with the closed form it
      rounds (for instance [1.4142135623730951  # math.sqrt(2.0)]) denotes
      that closed form. *)

From Stdlib Require Import String.
From Stdlib Require Import Reals Lra Lia ZArith Bool Arith List.
Import ListNotations.
Open Scope R_scope.

(* ================================================================= *)
(** ** Exceptions *)

Inductive exn : Type :=
| AssertionError
| TypeError
| IndexError
| RuntimeError
| ValueError
| NotImplementedError.

Inductive result (A : Type) : Type :=
| Ok (a : A)
| Raise (e : exn).

Arguments Ok {A} a.
Arguments Raise {A} e.

Definition bind {A B : Type} (m : result A) (k : A -> result B) : result B :=
  match m with
  | Ok a => k a
  | Raise e => Raise e
  end.

Notation "x <- m ;; k" := (bind m (fun x => k))
  (at level 61, m at next level, right associativity).
Notation "' p <- m ;; k" := (bind m (fun p => k))
  (at level 61, p pattern, m at next level, right associativity).

(** [assert(b)] *)
Definition assert (b : bool) : result unit :=
  if b then Ok tt else Raise AssertionError.

(* ================================================================= *)
(** ** Float values *)

Definition fl : Type := option R.

Definition flift1 (f : R -> R) (a : fl) : fl := option_map f a.

Definition flift2 (f : R -> R -> R) (a b : fl) : fl :=
  match a, b with
  | Some x, Some y => Some (f x y)
  | _, _ => None
  end.

Definition fadd : fl -> fl -> fl := flift2 Rplus.
Definition fsub : fl -> fl -> fl := flift2 Rminus.
Definition fmul : fl -> fl -> fl := flift2 Rmult.

Definition fdiv (a b : fl) : fl :=
  match a, b with
  | Some x, Some y => if Req_dec_T y 0 then None else Some (x / y)
  | _, _ => None
  end.

Definition flog (a : fl) : fl :=
  match a with
  | Some x => if Rlt_dec 0 x then Some (ln x) else None
  | None => None
  end.

Definition flog2 (a : fl) : fl :=
  match a with
  | Some x => if Rlt_dec 0 x then Some (ln x / ln 2) else None
  | None => None
  end.

Definition fsqrt (a : fl) : fl :=
  match a with
  | Some x => if Rle_dec 0 x then Some (sqrt x) else None
  | None => None
  end.

Definition fexp : fl -> fl := flift1 exp.

(** [v.pow(2.0)] *)
Definition fpow2 (a : fl) : fl := fmul a a.

Definition frelu : fl -> fl := flift1 (Rmax 0).

Definition fsum (l : list fl) : fl := fold_right fadd (Some 0) l.

(** [mean] of the values along one axis: the sum over the count. *)
Definition fmean (l : list fl) : fl :=
  fdiv (fsum l) (Some (INR (length l))).

(** [std] along one axis, with Bessel's correction (torch's default). *)
Definition fstd (l : list fl) : fl :=
  fsqrt (fdiv (fsum (map (fun v => fpow2 (fsub v (fmean l))) l))
              (Some (INR (length l - 1)))).

(** The error function, [2/sqrt(pi)] times the integral of [exp(-t^2)]
    from [0] to [x]. *)
Definition gauss (t : R) : R := exp (- (t * t)).

Lemma gauss_continuity : continuity gauss.
Proof.
  unfold gauss.
  apply (continuity_comp (fun t => - (t * t)) exp).
  - reg.
  - apply derivable_continuous, derivable_exp.
Qed.

Definition gauss_integrable (a b : R) : Riemann_integrable gauss a b :=
  match Rle_dec a b with
  | left Hab =>
      continuity_implies_RiemannInt Hab (fun x _ => gauss_continuity x)
  | right Hab =>
      RiemannInt_P1
        (continuity_implies_RiemannInt
           (Rlt_le _ _ (Rnot_le_lt _ _ Hab))
           (fun x _ => gauss_continuity x))
  end.

Definition erf (x : R) : R :=
  2 / sqrt PI * RiemannInt (gauss_integrable 0 x).

Definition ferf : fl -> fl := flift1 erf.

(* ================================================================= *)
(** ** Tensors *)

Record tensor : Type := mkT { size : list nat; data : list nat -> fl }.

(** [idx] addresses an entry of a tensor of size [sz]. *)
Definition in_range (idx sz : list nat) : Prop :=
  Forall2 (fun i d => (i < d)%nat) idx sz.

(** Two tensors with the same size and the same entries. *)
Definition teq (a b : tensor) : Prop :=
  size a = size b /\
  forall idx, in_range idx (size a) -> data a idx = data b idx.

Definition tmap (f : fl -> fl) (t : tensor) : tensor :=
  mkT (size t) (fun idx => f (data t idx)).

(** [len(x.size())] *)
Definition rank (t : tensor) : nat := length (size t).

(** Broadcasting of two sizes, aligned on the trailing axis; the
    arguments of [bshape_rev] and [bidx_rev] are reversed sizes. *)
Fixpoint bshape_rev (a b : list nat) : option (list nat) :=
  match a, b with
  | [], _ => Some b
  | _, [] => Some a
  | x :: a', y :: b' =>
      match bshape_rev a' b' with
      | None => None
      | Some r =>
          if (x =? y)%nat then Some (x :: r)
          else if (x =? 1)%nat then Some (y :: r)
          else if (y =? 1)%nat then Some (x :: r)
          else None
      end
  end.

Definition broadcast_shapes (a b : list nat) : option (list nat) :=
  option_map (@rev nat) (bshape_rev (rev a) (rev b)).

Fixpoint bidx_rev (sz idx : list nat) : list nat :=
  match sz, idx with
  | d :: sz', i :: idx' => (if (d =? 1)%nat then O else i) :: bidx_rev sz' idx'
  | _, _ => []
  end.

(** The index into an operand of size [sz] for the entry [idx] of the
    broadcast result. *)
Definition bidx (sz idx : list nat) : list nat :=
  rev (bidx_rev (rev sz) (rev idx)).

(** An elementwise binary operation of two tensors. *)
Definition tbin (op : fl -> fl -> fl) (a b : tensor) : result tensor :=
  match broadcast_shapes (size a) (size b) with
  | Some s =>
      Ok (mkT s (fun idx =>
                   op (data a (bidx (size a) idx)) (data b (bidx (size b) idx))))
  | None => Raise RuntimeError
  end.

(** A reduction [stat] along [dim=1]. *)
Definition reduce_dim1 (stat : list fl -> fl) (t : tensor) : result tensor :=
  match size t with
  | s0 :: s1 :: rest =>
      Ok (mkT (s0 :: rest)
              (fun idx =>
                 match idx with
                 | b :: r => stat (map (fun c => data t (b :: c :: r)) (seq 0 s1))
                 | [] => None
                 end))
  | _ => Raise IndexError
  end.

Definition mean_dim1 : tensor -> result tensor := reduce_dim1 fmean.
Definition std_dim1 : tensor -> result tensor := reduce_dim1 fstd.

(** Row-major position of an index, and the index at a position. *)
Definition prod (sz : list nat) : nat := fold_right Nat.mul 1%nat sz.

Fixpoint ravel (sz idx : list nat) (acc : nat) : nat :=
  match sz, idx with
  | d :: sz', i :: idx' => ravel sz' idx' (acc * d + i)
  | _, _ => acc
  end.

Fixpoint unravel (sz : list nat) (k : nat) : list nat :=
  match sz with
  | [] => []
  | _ :: sz' => (k / prod sz')%nat :: unravel sz' (k mod prod sz')
  end.

(** [x.reshape(s)]: the same entries in row-major order under a new size. *)
Definition reshape (t : tensor) (s : list nat) : result tensor :=
  if (prod s =? prod (size t))%nat
  then Ok (mkT s (fun idx => data t (unravel (size t) (ravel s idx 0))))
  else Raise RuntimeError.

(** [torch.zeros(sz)] *)
Definition zeros (sz : list nat) : tensor := mkT sz (fun _ => Some 0).

Definition size_eqb (a b : list nat) : bool :=
  if list_eq_dec Nat.eq_dec a b then true else false.

(** An in-place binary operation [a op= b]: the broadcast result must have
    the size of [a]. *)
Definition tbin_ (op : fl -> fl -> fl) (a b : tensor) : result tensor :=
  r <- tbin op a b ;;
  if size_eqb (size r) (size a) then Ok r else Raise RuntimeError.

(** [torch.stack(ts, dim=1)] *)
Definition stack_dim1 (ts : list tensor) : result tensor :=
  match ts with
  | [] => Raise RuntimeError
  | t0 :: _ =>
      if forallb (fun t => size_eqb (size t) (size t0)) ts then
        match size t0 with
        | s0 :: rest =>
            Ok (mkT (s0 :: length ts :: rest)
                    (fun idx =>
                       match idx with
                       | b :: l :: r =>
                           match nth_error ts l with
                           | Some t => data t (b :: r)
                           | None => None
                           end
                       | _ => None
                       end))
        | [] => Raise IndexError
        end
      else Raise RuntimeError
  end.

(** Source position of output index [i] when an axis of [insz] entries is
    resampled to [outsz] entries without corner alignment: the real
    [insz/outsz * (i + 0.5) - 0.5], clamped at 0, as its integer part, the
    neighbour to blend with, and its fractional part. *)
Definition src_index (insz outsz i : nat) : nat * nat * R :=
  let num := Z.max 0 (Z.of_nat insz * (2 * Z.of_nat i + 1) - Z.of_nat outsz) in
  let den := (2 * Z.of_nat outsz)%Z in
  let i0 := Z.to_nat (num / den) in
  let i1 := if (i0 <? insz - 1)%nat then S i0 else i0 in
  (i0, i1, IZR (num mod den) / IZR den).

(** [nn.functional.interpolate(x, size=[H, W], mode='bilinear',
    align_corners=False)] on a 4D tensor. *)
Definition bilinear (x : tensor) (H W : nat) : result tensor :=
  match size x with
  | [n; c; hin; win] =>
      if ((0 <? hin) && (0 <? win) && (0 <? H) && (0 <? W))%nat then
        Ok (mkT [n; c; H; W]
                (fun idx =>
                   match idx with
                   | [b; ch; i; j] =>
                       let '(h0, h1, hl) := src_index hin H i in
                       let '(w0, w1, wl) := src_index win W j in
                       fadd
                         (fmul (Some (1 - hl))
                               (fadd (fmul (Some (1 - wl)) (data x [b; ch; h0; w0]))
                                     (fmul (Some wl) (data x [b; ch; h0; w1]))))
                         (fmul (Some hl)
                               (fadd (fmul (Some (1 - wl)) (data x [b; ch; h1; w0]))
                                     (fmul (Some wl) (data x [b; ch; h1; w1]))))
                   | _ => None
                   end))
      else Raise RuntimeError
  | _ => Raise NotImplementedError
  end.

(** The cubic convolution kernel of torch's bicubic resampling, with the
    constant [A = -0.75]: the weights of the four neighbours of a source
    position whose fractional part is [t]. *)
Definition cubic_convolution1 (x A : R) : R :=
  ((A + 2) * x - (A + 3)) * x * x + 1.

Definition cubic_convolution2 (x A : R) : R :=
  ((A * x - 5 * A) * x + 8 * A) * x - 4 * A.

Definition cubic_coefficients (t : R) : list R :=
  let A := - 0.75 in
  [cubic_convolution2 (t + 1) A; cubic_convolution1 t A;
   cubic_convolution1 (1 - t) A; cubic_convolution2 (2 - t) A].

(** Source position of output index [i] for the cubic kernel: the real
    [insz/outsz * (i + 0.5) - 0.5], not clamped, as its floor and its
    fractional part. *)
Definition cubic_index (insz outsz i : nat) : Z * R :=
  let num := (Z.of_nat insz * (2 * Z.of_nat i + 1) - Z.of_nat outsz)%Z in
  let den := (2 * Z.of_nat outsz)%Z in
  ((num / den)%Z, IZR (num mod den) / IZR den).

(** An index brought back into an axis of [insz] entries. *)
Definition clamp_index (insz : nat) (k : Z) : nat :=
  Z.to_nat (Z.max 0 (Z.min k (Z.of_nat insz - 1))).

(** [nn.functional.interpolate(x, size=[H, W], mode='bicubic',
    align_corners=False)] on a 4D tensor: every output entry blends the
    four by four neighbours of its source position. *)
Definition bicubic (x : tensor) (H W : nat) : result tensor :=
  match size x with
  | [n; c; hin; win] =>
      if ((0 <? hin) && (0 <? win) && (0 <? H) && (0 <? W))%nat then
        Ok (mkT [n; c; H; W]
                (fun idx =>
                   match idx with
                   | [b; ch; i; j] =>
                       let '(h0, ht) := cubic_index hin H i in
                       let '(w0, wt) := cubic_index win W j in
                       fsum
                         (map (fun k =>
                                 fmul (Some (nth k (cubic_coefficients ht) 0))
                                      (fsum
                                         (map (fun l =>
                                                 fmul (Some (nth l (cubic_coefficients wt) 0))
                                                      (data x [b; ch;
                                                               clamp_index hin (h0 - 1 + Z.of_nat k);
                                                               clamp_index win (w0 - 1 + Z.of_nat l)]))
                                              (seq 0 4))))
                              (seq 0 4))
                   | _ => None
                   end))
      else Raise RuntimeError
  | _ => Raise NotImplementedError
  end.

(** [nn.functional.interpolate(x, size=sz, mode=mode, align_corners=False)]
    on a 4D tensor.  ['bilinear'] is the default of [CombineSaliencyMaps]
    and the mode [SmoothGrad] asks for.  The modes ['nearest'], ['area']
    and ['nearest-exact'] do not accept [align_corners] ([ValueError]);
    ['linear'] and ['trilinear'] do not accept a 4D tensor, and any other
    name is not a mode ([NotImplementedError]). *)
Definition interpolate (x : tensor) (sz : list Z) (mode : string) : result tensor :=
  if String.eqb mode "bilinear" then
    match sz with
    | [H; W] => bilinear x (Z.to_nat H) (Z.to_nat W)
    | _ => Raise ValueError
    end
  else if (String.eqb mode "nearest" || String.eqb mode "area" ||
           String.eqb mode "nearest-exact")%bool then Raise ValueError
  else
    match sz with
    | [H; W] =>
        if String.eqb mode "bicubic" then bicubic x (Z.to_nat H) (Z.to_nat W)
        else Raise NotImplementedError
    | _ => Raise ValueError
    end.

(** Python values that are not tensors: [None], a number, a list of
    numbers. *)
Inductive pyval : Type :=
| PyNone
| PyNum (r : R)
| PyList (l : list R).

(** [len(v)] *)
Definition py_len (v : pyval) : result nat :=
  match v with
  | PyList l => Ok (length l)
  | _ => Raise TypeError
  end.

(** [v > 0] (Python 3: a list is not ordered against a number). *)
Definition py_gt0 (v : pyval) : result bool :=
  match v with
  | PyNum r => Ok (if Rlt_dec 0 r then true else false)
  | _ => Raise TypeError
  end.

(** [a + b] *)
Definition py_add (a b : pyval) : result pyval :=
  match a, b with
  | PyNum x, PyNum y => Ok (PyNum (x + y))
  | PyList l1, PyList l2 => Ok (PyList (l1 ++ l2))
  | _, _ => Raise TypeError
  end.

(** The items a [for] loop over [v] visits. *)
Definition py_iter (v : pyval) : result (list pyval) :=
  match v with
  | PyList l => Ok (map PyNum l)
  | _ => Raise TypeError
  end.

(** [t * v] and [t / v] for a tensor [t] and a Python value [v]. *)
Definition tmul_py (t : tensor) (v : pyval) : result tensor :=
  match v with
  | PyNum r => Ok (tmap (fun x => fmul x (Some r)) t)
  | _ => Raise TypeError
  end.

Definition tdiv_py (t : tensor) (v : pyval) : result tensor :=
  match v with
  | PyNum r => Ok (tmap (fun x => fdiv x (Some r)) t)
  | _ => Raise TypeError
  end.

(** [l[i]] *)
Definition getitem {A : Type} (l : list A) (i : nat) : result A :=
  match nth_error l i with
  | Some a => Ok a
  | None => Raise IndexError
  end.

(** All the indices of a tensor of size [sz], in row-major order. *)
Fixpoint all_idx (sz : list nat) : list (list nat) :=
  match sz with
  | [] => [[]]
  | d :: sz' => flat_map (fun i => map (cons i) (all_idx sz')) (seq 0 d)
  end.

Definition fmax : fl -> fl -> fl := flift2 Rmax.
Definition fmin : fl -> fl -> fl := flift2 Rmin.

(** [torch.max(t)] and [torch.min(t)] over all the entries. *)
Definition tmax (t : tensor) : result fl :=
  match map (data t) (all_idx (size t)) with
  | [] => Raise RuntimeError
  | v :: vs => Ok (fold_left fmax vs v)
  end.

Definition tmin (t : tensor) : result fl :=
  match map (data t) (all_idx (size t)) with
  | [] => Raise RuntimeError
  | v :: vs => Ok (fold_left fmin vs v)
  end.

Fixpoint mapM {A B : Type} (f : A -> result B) (l : list A) : result (list B) :=
  match l with
  | [] => Ok []
  | a :: l' => b <- f a ;; bs <- mapM f l' ;; Ok (b :: bs)
  end.

(** A Python value that may or may not be a tensor. *)
Inductive pyobj : Type :=
| ONone
| OTensor (t : tensor)
| OList (l : list tensor).

(** [assert(torch.is_tensor(x))] *)
Definition is_tensor (x : pyobj) : result tensor :=
  match x with
  | OTensor t => Ok t
  | _ => Raise AssertionError
  end.

(* ================================================================= *)
(** ** maps.py *)

(** The literal [0.0000001]. *)
Definition eps : R := 0.0000001.

Module SMOEScaleMap.

  (** [relu] is [true] when [self.relu is not None]. *)
Record t : Type := mk { relu : bool }.

Definition init (run_relu : bool) : t := mk run_relu.

Definition forward (self : t) (x : pyobj) : result tensor :=
    x <- is_tensor x ;;
    _ <- assert (2 <? rank x)%nat ;;
    let x := if relu self then tmap frelu x else x in
    let x := tmap (fun v => fadd v (Some eps)) x in
    m <- mean_dim1 x ;;
    g <- mean_dim1 (tmap flog2 x) ;;
    k <- tbin fsub (tmap flog2 m) g ;;
    th <- tbin fmul k m ;;
    Ok th.

End SMOEScaleMap.


Module StdMap.

Definition forward (x : pyobj) : result tensor :=
    x <- is_tensor x ;;
    _ <- assert (2 <? rank x)%nat ;;
    x <- std_dim1 x ;;
    Ok x.

End StdMap.

Module TruncNormalEntMap.

Record t : Type := mk { c1 : R; c2 : R; c3 : R }.

  (** The three constants are float literals, each annotated in the source
      with the closed form it rounds:
      [0.3989422804014327  # 1.0/math.sqrt(2.0*math.pi)],
      [1.4142135623730951  # math.sqrt(2.0)],
      [4.1327313541224930  # math.sqrt(2.0*math.pi*math.exp(1))]. *)
Definition init : t :=
    mk (1 / sqrt (2 * PI)) (sqrt 2) (sqrt (2 * PI * exp 1)).

Definition _compute_alpha (mean std : tensor) (a : R) : result tensor :=
    alpha <- tbin fdiv (tmap (fun v => fsub (Some a) v) mean) std ;;
    Ok alpha.

Definition _compute_pdf (self : t) (eta : tensor) : tensor :=
    tmap (fun v => fmul (Some (c1 self)) (fexp (fmul (Some (- 0.5)) (fpow2 v)))) eta.

Definition _compute_cdf (self : t) (eta : tensor) : tensor :=
    let e := tmap (fun v => ferf (fdiv v (Some (c2 self)))) eta in
    tmap (fun v => fmul (Some 0.5) (fadd (Some 1) v)) e.

Definition forward (self : t) (x : pyobj) : result tensor :=
    x <- is_tensor x ;;
    _ <- assert (2 <? rank x)%nat ;;
    m <- mean_dim1 x ;;
    s <- std_dim1 x ;;
    a <- _compute_alpha m s 0 ;;
    let pdf := _compute_pdf self a in
    let cdf := tmap (fun v => fadd v (Some eps)) (_compute_cdf self a) in
    let Z := tmap (fun v => fsub (Some 1) v) cdf in
    c3sZ <- tbin fmul (tmap (fun v => fmul (Some (c3 self)) v) s) Z ;;
    let T1 := tmap flog c3sZ in
    apdf <- tbin fmul a pdf ;;
    T2 <- tbin fdiv apdf (tmap (fun v => fmul (Some 2) v) Z) ;;
    ent <- tbin fadd T1 T2 ;;
    Ok ent.

End TruncNormalEntMap.

Module Normalize2D.

Definition forward (x : pyobj) : result tensor :=
    x <- is_tensor x ;;
    _ <- assert (rank x =? 3)%nat ;;
    let s0 := nth 0 (size x) O in
    let s1 := nth 1 (size x) O in
    let s2 := nth 2 (size x) O in
    x <- reshape x [s0; (s1 * s2)%nat] ;;
    m <- mean_dim1 x ;;
    m <- reshape m [nth 0 (size m) O; 1%nat] ;;
    s <- std_dim1 x ;;
    s <- reshape s [nth 0 (size s) O; 1%nat] ;;
    d <- tbin fsub x m ;;
    q <- tbin fdiv d (tmap (fun v => fmul v (fsqrt (Some 2))) s) ;;
    let x := tmap (fun v => fmul (Some 0.5) (fadd (Some 1) (ferf v))) q in
    x <- reshape x [s0; s1; s2] ;;
    Ok x.

End Normalize2D.

Module CombineSaliencyMaps.

Record t : Type := mk {
    weights : list pyval;
    weight_sum : pyval;
    map_num : Z;
    output_size : list Z;
    resize_mode : string;
    magnitude : bool
  }.

Definition init (output_size : list Z) (map_num : Z) (weights : pyval)
             (resize_mode : string) (magnitude : bool) : result t :=
    _ <- assert (length output_size =? 2)%nat ;;
    _ <- assert (0 <? nth 0 output_size 0)%Z ;;
    _ <- assert (0 <? nth 1 output_size 0)%Z ;;
    _ <- assert (0 <? map_num)%Z ;;
    self_weights <-
      match weights with
      | PyNone => Ok (repeat (PyNum 1) (Z.to_nat map_num))
      | _ =>
          n <- py_len weights ;;
          if (n =? 1)%nat then
            b <- py_gt0 weights ;;
            _ <- assert b ;;
            Ok (repeat weights (Z.to_nat map_num))
          else
            _ <- assert (Z.of_nat n =? map_num)%Z ;;
            py_iter weights
      end ;;
    weight_sum <-
      fold_left (fun acc w => acc <- acc ;; py_add acc w) self_weights (Ok (PyNum 0)) ;;
    Ok (mk self_weights weight_sum map_num output_size resize_mode magnitude).

  (** One turn of the loop over the maps: [cm] and [ww] are the combined
      map and the list of resized maps so far. *)
Definition step (self : t) (smaps : list tensor) (st : tensor * list tensor)
             (i : nat) : result (tensor * list tensor) :=
    let '(cm, ww) := st in
    smap <- getitem smaps i ;;
    wsz0 <- getitem (size smap) 0 ;;
    wsz1 <- getitem (size smap) 1 ;;
    wsz2 <- getitem (size smap) 2 ;;
    w <- reshape smap [wsz0; 1%nat; wsz1; wsz2] ;;
    w <- interpolate w (output_size self) (resize_mode self) ;;
    w <- (if magnitude self then tbin fmul w w else Ok w) ;;
    let ww := ww ++ [w] in
    wi <- getitem (weights self) i ;;
    wt <- tmul_py w wi ;;
    cm <- tbin_ fadd cm wt ;;
    Ok (cm, ww).

Definition forward (self : t) (smaps : list tensor) : result (tensor * tensor) :=
    _ <- assert (Z.of_nat (length smaps) =? map_num self)%Z ;;
    smaps0 <- getitem smaps 0 ;;
    _ <- assert (rank smaps0 =? 3)%nat ;;
    let bn := nth 0 (size smaps0) O in
    let H := Z.to_nat (nth 0 (output_size self) 0%Z) in
    let W := Z.to_nat (nth 1 (output_size self) 0%Z) in
    let cm := zeros [bn; 1%nat; H; W] in
    '(cm, ww) <-
      fold_left (fun st i => st <- st ;; step self smaps st i)
                (seq 0 (length smaps)) (Ok (cm, [])) ;;
    cm <- tdiv_py cm (weight_sum self) ;;
    cm <- reshape cm [bn; H; W] ;;
    ww <- stack_dim1 ww ;;
    ww <- reshape ww [bn; Z.to_nat (map_num self); H; W] ;;
    Ok (cm, ww).

End CombineSaliencyMaps.

(* ================================================================= *)
(** ** misc.py *)

(** A tensor together with the device it lives on. *)
Record dtensor : Type := mkD { value : tensor; device_of : string }.

(** [detach] and [no_proc] keep the entries of a tensor. *)
Definition detach (t : tensor) : tensor := t.
Definition no_proc (t : tensor) : tensor := t.

(** [t[i]]: the slice of [t] at position [i] of its first axis. *)
Definition select0 (t : tensor) (i : nat) : tensor :=
  mkT (tl (size t)) (fun r => data t (i :: r)).

(** Position [idx] of a sequence of [n] items, negative positions counted
    from the end. *)
Definition py_index (n : nat) (idx : Z) : result nat :=
  if ((0 <=? idx) && (idx <? Z.of_nat n))%Z then Ok (Z.to_nat idx)
  else if ((- Z.of_nat n <=? idx) && (idx <? 0))%Z then Ok (Z.to_nat (idx + Z.of_nat n))
  else Raise IndexError.

(** [len(x)] of a stored value: a tensor without axes has no length. *)
Definition obj_len (x : pyobj) : result nat :=
  match x with
  | ONone => Raise TypeError
  | OTensor t =>
      match size t with
      | [] => Raise TypeError
      | d :: _ => Ok d
      end
  | OList l => Ok (length l)
  end.

(** [x[idx]] of a stored value. *)
Definition obj_getitem (x : pyobj) (idx : Z) : result pyobj :=
  match x with
  | ONone => Raise TypeError
  | OTensor t =>
      match size t with
      | [] => Raise IndexError
      | d :: _ => i <- py_index d idx ;; Ok (OTensor (select0 t i))
      end
  | OList l =>
      i <- py_index (length l) idx ;;
      x <- getitem l i ;;
      Ok (OTensor x)
  end.

Module CaptureLayerData.

Record t : Type := mk {
    data : pyobj;
    post_process : tensor -> tensor;
    device : option string
  }.

Definition init (device : option string) (post_process : tensor -> tensor) : t :=
    mk ONone post_process device.

Definition get (self : t) (idx : Z) : result pyobj :=
    match data self with
    | ONone => Ok ONone
    | d =>
        n <- obj_len d ;;
        if (idx <=? Z.of_nat n)%Z then obj_getitem d idx else Ok ONone
    end.

  (** [self.device is None or self.device == o.device] *)
Definition device_matches (self : t) (o : dtensor) : bool :=
    match device self with
    | None => true
    | Some d => String.eqb d (device_of o)
    end.

End CaptureLayerData.

Module CaptureLayerOutput.

Definition init (device : option string) (post_process : tensor -> tensor)
    : CaptureLayerData.t :=
    CaptureLayerData.init device post_process.

  (** [__call__(self, m, i, o)]; the module [m] is not used. *)
Definition call (self : CaptureLayerData.t) (i : list dtensor) (o : dtensor)
    : CaptureLayerData.t :=
    if CaptureLayerData.device_matches self o then
      CaptureLayerData.mk
        (OTensor (CaptureLayerData.post_process self (value o)))
        (CaptureLayerData.post_process self)
        (CaptureLayerData.device self)
    else self.

End CaptureLayerOutput.

Module CaptureLayerInput.

Definition init (device : option string) (post_process : tensor -> tensor)
    : CaptureLayerData.t :=
    CaptureLayerData.init device post_process.

Definition call (self : CaptureLayerData.t) (i : list dtensor) (o : dtensor)
    : CaptureLayerData.t :=
    if CaptureLayerData.device_matches self o then
      CaptureLayerData.mk
        (OList (fold_left
                  (fun data n =>
                     data ++ [CaptureLayerData.post_process self
                                (value (nth n i (mkD (zeros []) "")))])
                  (seq 0 (length i)) []))
        (CaptureLayerData.post_process self)
        (CaptureLayerData.device self)
    else self.

End CaptureLayerInput.

(** What a forward hook is called with: the inputs [i] and the output [o]
    of its layer. *)
Definition event : Type := (list dtensor * dtensor)%type.

(** An observer attached to a layer, output-side or input-side. *)
Inductive hook : Type :=
| OutputHook (s : CaptureLayerData.t)
| InputHook (s : CaptureLayerData.t).

Definition hook_state (h : hook) : CaptureLayerData.t :=
  match h with
  | OutputHook s => s
  | InputHook s => s
  end.

Definition hook_call (h : hook) (ev : event) : hook :=
  match h with
  | OutputHook s => OutputHook (CaptureLayerOutput.call s (fst ev) (snd ev))
  | InputHook s => InputHook (CaptureLayerInput.call s (fst ev) (snd ev))
  end.

(** Every observer handles, in order, the calls its layer makes during one
    forward pass; [evs] lists the calls observer by observer. *)
Fixpoint fire (hs : list hook) (evs : list (list event)) : list hook :=
  match hs with
  | [] => []
  | h :: hs' => fold_left hook_call (hd [] evs) h :: fire hs' (tl evs)
  end.

(** Replacement of the entry at position [r]. *)
Fixpoint upd {A : Type} (r : nat) (a : A) (l : list A) : list A :=
  match l, r with
  | [], _ => []
  | _ :: l', O => a :: l'
  | b :: l', S r' => b :: upd r' a l'
  end.

Module SmoothGrad.

Record t : Type := mk {
    iters : Z;
    magnitude : bool;
    stdev_spread : R;
    getSmap : SMOEScaleMap.t;
    maps_magnitude : bool
  }.

Definition init (iters : Z) (magnitude : bool) (stdev_spread : R)
             (maps_magnitude : bool) : t :=
    mk iters magnitude stdev_spread (SMOEScaleMap.init false) maps_magnitude.

  (** [getNorm(getSmap(x.data))] for an observer [x]. *)
Definition score (self : t) (x : hook) : result tensor :=
    s <- SMOEScaleMap.forward (getSmap self) (CaptureLayerData.data (hook_state x)) ;;
    Normalize2D.forward (OTensor s).

Section World.

    (** What lies outside the repository: the state [E] of the network and
        of the random generator, [torch.normal(mean=0, std, size)], and a
        forward pass of the network in evaluation mode, which returns the
        hook calls it made. *)
Variable E : Type.
Variable normal : fl -> list nat -> E -> result tensor * E.
Variable model : tensor -> E -> result unit * (list (list event) * E).

    (** Tensors that are updated in place live in [heap], at the position
        that is their reference; [hooks] are the observers passed to
        [__call__]. *)
Record state : Type := mkState {
      heap : list tensor;
      hooks : list hook;
      ext : E
    }.

Definition M (A : Type) : Type := state -> result A * state.

Definition ret {A : Type} (a : A) : M A := fun st => (Ok a, st).

Definition mbind {A B : Type} (m : M A) (k : A -> M B) : M B :=
      fun st =>
        match m st with
        | (Ok a, st') => k a st'
        | (Raise e, st') => (Raise e, st')
        end.

Definition lift {A : Type} (r : result A) : M A := fun st => (r, st).

Definition load (r : nat) : M tensor :=
      fun st => (getitem (heap st) r, st).

Definition alloc (x : tensor) : M nat :=
      fun st => (Ok (length (heap st)),
                 mkState (heap st ++ [x]) (hooks st) (ext st)).

Definition store (r : nat) (x : tensor) : M unit :=
      fun st => (Ok tt, mkState (upd r x (heap st)) (hooks st) (ext st)).

Definition get_hooks : M (list hook) := fun st => (Ok (hooks st), st).

Definition draw (std : fl) (sz : list nat) : M tensor :=
      fun st =>
        let '(r, e) := normal std sz (ext st) in
        (r, mkState (heap st) (hooks st) e).

Definition run_model (x : tensor) : M unit :=
      fun st =>
        let '(r, (evs, e)) := model x (ext st) in
        (r, mkState (heap st) (fire (hooks st) evs) e).

Fixpoint repeatM {A : Type} (n : nat) (f : A -> M A) (a : A) : M A :=
      match n with
      | O => ret a
      | S n' => mbind (f a) (repeatM n' f)
      end.

    (** The accumulators [out_csmap] and [out_smaps]: two lists when
        [debug], two tensors updated in place otherwise. *)
Inductive accum : Type :=
    | Debug (out_csmap out_smaps : list tensor)
    | Sums (out_csmap out_smaps : nat).

    (** [r += x] and [r /= n] on the tensor at reference [r]. *)
Definition iadd (r : nat) (x : tensor) : M unit :=
      mbind (load r) (fun a =>
      mbind (lift (tbin_ fadd a x)) (fun a' =>
      store r a')).

Definition idiv (r : nat) (n : Z) : M unit :=
      mbind (load r) (fun a =>
      store r (tmap (fun v => fdiv v (Some (IZR n))) a)).

    (** The statements of the loop body that do not depend on [debug]:
        perturb the input, run the network, score and combine. *)
Definition iteration (self : t) (getCsmap : CombineSaliencyMaps.t)
               (in_tensor : nat) (stdev : fl) : M (tensor * tensor * tensor) :=
      mbind (load in_tensor) (fun x =>
      mbind (draw stdev (size x)) (fun noise =>
      mbind (lift (tbin fadd x noise)) (fun in_tensor_noise =>
      mbind (run_model in_tensor_noise) (fun _ =>
      mbind get_hooks (fun hs =>
      mbind (lift (mapM (score self) hs)) (fun smaps =>
      mbind (lift (CombineSaliencyMaps.forward getCsmap smaps)) (fun '(csmap, smaps) =>
      ret (csmap, smaps, in_tensor_noise)))))))).

Definition body (self : t) (getCsmap : CombineSaliencyMaps.t)
               (in_tensor : nat) (stdev : fl) (vars : accum * list tensor)
      : M (accum * list tensor) :=
      let '(acc, ret_image) := vars in
      mbind (iteration self getCsmap in_tensor stdev)
            (fun '(csmap, smaps, in_tensor_noise) =>
      match acc with
      | Debug out_csmap out_smaps =>
          ret (Debug (out_csmap ++ [csmap]) (out_smaps ++ [smaps]),
               ret_image ++ [in_tensor_noise])
      | Sums out_csmap out_smaps =>
          if magnitude self then
            mbind (lift (tbin fmul csmap csmap)) (fun c2 =>
            mbind (iadd out_csmap c2) (fun _ =>
            mbind (lift (tbin fmul smaps smaps)) (fun s2 =>
            mbind (iadd out_smaps s2) (fun _ =>
            ret (acc, ret_image)))))
          else
            mbind (iadd out_csmap csmap) (fun _ =>
            mbind (iadd out_smaps smaps) (fun _ =>
            ret (acc, ret_image)))
      end).

    (** [__call__(self, in_tensor, model, hooks, weights, debug)]; the
        result is [(out_csmap, out_smaps)] and [ret_image]. *)
Definition call (self : t) (in_tensor : nat) (weights : pyval) (debug : bool)
      : M (accum * list tensor) :=
      mbind (load in_tensor) (fun x =>
      mbind (lift (getitem (size x) 2)) (fun in_height =>
      mbind (lift (getitem (size x) 3)) (fun in_width =>
      mbind get_hooks (fun hs =>
      let map_num := length hs in
      mbind (lift (CombineSaliencyMaps.init
                     [Z.of_nat in_height; Z.of_nat in_width] (Z.of_nat map_num)
                     weights "bilinear" (maps_magnitude self))) (fun getCsmap =>
      mbind (lift (tmax x)) (fun mx =>
      mbind (lift (tmin x)) (fun mn =>
      let stdev := fmul (Some (stdev_spread self)) (fsub mx mn) in
      mbind (if debug then ret (Debug [] [])
             else
               mbind (alloc (zeros [1%nat; in_height; in_width])) (fun out_csmap =>
               mbind (alloc (zeros [1%nat; map_num; in_height; in_width]))
                     (fun out_smaps =>
               ret (Sums out_csmap out_smaps)))) (fun acc =>
      mbind (repeatM (Z.to_nat (iters self))
                     (body self getCsmap in_tensor stdev) (acc, []))
            (fun '(acc, ret_image) =>
      match acc with
      | Debug _ _ => ret (acc, ret_image)
      | Sums out_csmap out_smaps =>
          mbind (idiv out_csmap (iters self)) (fun _ =>
          mbind (idiv out_smaps (iters self)) (fun _ =>
          ret (acc, ret_image)))
      end))))))))).

End World.

Arguments mkState {E} heap hooks ext.
Arguments heap {E} s.
Arguments hooks {E} s.
Arguments ext {E} s.
Arguments ret {E A} a.
Arguments mbind {E A B} m k.
Arguments lift {E A} r.
Arguments load {E} r.
Arguments alloc {E} x.
Arguments store {E} r x.
Arguments get_hooks {E}.
Arguments repeatM {E A} n f a.
Arguments iadd {E} r x.
Arguments idiv {E} r n.

End SmoothGrad.

(* ================================================================= *)
(** ** misc.py: image helpers *)

(** An image argument: a numpy array, a torch tensor, or any other Python
    value. *)
Inductive image : Type :=
| Numpy (a : tensor)
| Torch (t : tensor)
| NotAnArray.

(** A Python number; [isinstance(alpha, float)] holds of [PFloat] only. *)
Inductive pynumber : Type :=
| PInt (z : Z)
| PFloat (r : R).

(** [isinstance(im, np.ndarray) or torch.is_tensor(im)] *)
Definition is_array (im : image) : bool :=
  match im with
  | NotAnArray => false
  | _ => true
  end.

(** [type(a) == type(b)], for two arrays. *)
Definition same_type (a b : image) : bool :=
  match a, b with
  | Numpy _, Numpy _ => true
  | Torch _, Torch _ => true
  | _, _ => false
  end.

(** [assert(isinstance(alpha, float))] *)
Definition is_float (alpha : pynumber) : result R :=
  match alpha with
  | PFloat r => Ok r
  | PInt _ => Raise AssertionError
  end.

Definition values (im : image) : tensor :=
  match im with
  | Numpy a => a
  | Torch t => t
  | NotAnArray => zeros []
  end.

(** An array of the library of [im] with the entries of [t]. *)
Definition like (im : image) (t : tensor) : image :=
  match im with
  | Numpy _ => Numpy t
  | _ => Torch t
  end.

(** An elementwise binary operation of two arrays of the library of [im]:
    operands that cannot be broadcast raise [ValueError] in numpy and
    [RuntimeError] in torch. *)
Definition abin (im : image) (op : fl -> fl -> fl) (a b : tensor) : result tensor :=
  match tbin op a b with
  | Ok t => Ok t
  | Raise _ =>
      Raise (match im with
             | Numpy _ => ValueError
             | _ => RuntimeError
             end)
  end.

Definition AlphaBlend (im1 im2 : image) (alpha : pynumber) : result image :=
  _ <- assert (is_array im1) ;;
  _ <- assert (is_array im2) ;;
  _ <- assert (same_type im1 im2) ;;
  alpha <- is_float alpha ;;
  let t_alpha := alpha in
  let r_alpha := 1 in
  let norm := t_alpha + r_alpha * (1 - t_alpha) in
  let a := tmap (fun v => fmul v (Some t_alpha)) (values im1) in
  let b := tmap (fun v => fmul v (Some (1 - t_alpha)))
                (tmap (fun v => fmul v (Some r_alpha)) (values im2)) in
  s <- abin im1 fadd a b ;;
  Ok (like im1 (tmap (fun v => fdiv v (Some norm)) s)).

Definition AlphaMask (im1 mask : image) (alpha : pynumber) : result image :=
  _ <- assert (is_array im1) ;;
  _ <- assert (is_array mask) ;;
  _ <- assert (same_type im1 mask) ;;
  alpha <- is_float alpha ;;
  let im2 := zeros (size (values im1)) in
  let t_alpha := values mask in
  let r_alpha := alpha in
  let one_minus := tmap (fun v => fsub (Some 1) v) t_alpha in
  norm <- abin im1 fadd t_alpha (tmap (fun v => fmul (Some r_alpha) v) one_minus) ;;
  a <- abin im1 fmul (values im1) t_alpha ;;
  b <- abin im1 fmul (tmap (fun v => fmul v (Some r_alpha)) im2) one_minus ;;
  s <- abin im1 fadd a b ;;
  q <- abin im1 fdiv s norm ;;
  Ok (like im1 q).

(** The position of [axis] in the permutation [perm]. *)
Fixpoint position (axis : nat) (perm : list nat) : nat :=
  match perm with
  | [] => O
  | p :: perm' => if (p =? axis)%nat then O else S (position axis perm')
  end.

(** [a.transpose(perm)]: axis [k] of the result is axis [perm[k]] of
    [a]. *)
Definition transpose (t : tensor) (perm : list nat) : tensor :=
  mkT (map (fun p => nth p (size t) O) perm)
      (fun idx =>
         data t (map (fun axis => nth (position axis perm) idx O)
                     (seq 0 (length perm)))).

(** [a.reshape(s)] on a numpy array. *)
Definition np_reshape (t : tensor) (s : list nat) : result tensor :=
  match reshape t s with
  | Ok t' => Ok t'
  | Raise _ => Raise ValueError
  end.

Definition TensorToNumpyImages (tens : pyobj) : result tensor :=
  tens <- is_tensor tens ;;
  _ <- assert ((rank tens =? 3)%nat || (rank tens =? 4)%nat) ;;
  let np_im := tens in
  if (rank tens =? 4)%nat then
    _ <- assert (nth 0 (size tens) O =? 1)%nat ;;
    let np_im := transpose np_im [0; 2; 3; 1]%nat in
    np_im <- np_reshape np_im [nth 1 (size np_im) O; nth 2 (size np_im) O;
                               nth 3 (size np_im) O] ;;
    Ok np_im
  else
    let np_im := transpose np_im [1; 2; 0]%nat in
    Ok np_im.

(** What stands between the brackets of [im[:, i1, i2]] for one axis: a
    position, a slice [lo:hi], or the full slice [:]. *)
Inductive index : Type :=
| At (z : Z)
| Range (lo hi : Z)
| All.

(** A position must lie within the axis; a slice never fails. *)
Definition index_ok (d : nat) (i : index) : bool :=
  match i with
  | At z => ((- Z.of_nat d <=? z) && (z <? Z.of_nat d))%Z
  | _ => true
  end.

(** A slice bound on an axis of [d] entries: counted from the end when
    negative, and clamped to the axis. *)
Definition bound (d : nat) (z : Z) : Z :=
  if (z <? 0)%Z then Z.max 0 (z + Z.of_nat d) else Z.min z (Z.of_nat d).

(** Whether position [k] of an axis of [d] entries is selected. *)
Definition selects (d : nat) (i : index) (k : nat) : bool :=
  match i with
  | At z => (Z.of_nat k =? (if (z <? 0)%Z then z + Z.of_nat d else z))%Z
  | Range lo hi => ((bound d lo <=? Z.of_nat k) && (Z.of_nat k <? bound d hi))%Z
  | All => true
  end.

(** [im[:, i1, i2]] can be taken. *)
Definition region_ok (i1 i2 : index) (im : tensor) : result unit :=
  match size im with
  | _ :: d1 :: d2 :: _ =>
      if index_ok d1 i1 && index_ok d2 i2 then Ok tt else Raise IndexError
  | _ => Raise IndexError
  end.

(** The content of [im] after [im[:, i1, i2] = im[:, i1, i2] * a]. *)
Definition scale_region (i1 i2 : index) (a : R) (im : tensor) : tensor :=
  mkT (size im)
      (fun idx =>
         match idx with
         | _ :: h :: w :: _ =>
             if selects (nth 1 (size im) O) i1 h && selects (nth 2 (size im) O) i2 w
             then fmul (data im idx) (Some a)
             else data im idx
         | _ => data im idx
         end).

Module AttenuateBorders.

(** The eight assignments, in order: the two indices after the leading
    [:], and the position in [ammount] of the factor. *)
Definition statements : list (index * index * nat) :=
  [ (At 0, All, 0%nat);
    (All, At 0, 0%nat);
    (At (-1), All, 0%nat);
    (All, At (-1), 0%nat);
    (At 1, Range 1 (-2), 1%nat);
    (Range 1 (-2), At 1, 1%nat);
    (At (-2), Range 1 (-2), 1%nat);
    (Range 1 (-2), At (-2), 1%nat) ].

(** One assignment on the array at reference [im] of the heap. *)
Definition exec (im : nat) (ammount : list R) (s : index * index * nat)
           (heap : list tensor) : result unit * list tensor :=
  let '(i1, i2, k) := s in
  match (x <- getitem heap im ;;
         _ <- region_ok i1 i2 x ;;
         a <- getitem ammount k ;;
         Ok (scale_region i1 i2 a x)) with
  | Ok x' => (Ok tt, upd im x' heap)
  | Raise e => (Raise e, heap)
  end.

Fixpoint run (im : nat) (ammount : list R) (ss : list (index * index * nat))
         (heap : list tensor) : result unit * list tensor :=
  match ss with
  | [] => (Ok tt, heap)
  | s :: ss' =>
      match exec im ammount s heap with
      | (Ok _, heap') => run im ammount ss' heap'
      | (Raise e, heap') => (Raise e, heap')
      end
  end.

(** [AttenuateBorders(im, ammount)] on the array at reference [im]: the
    result is the reference it returns and the heap it leaves. *)
Definition call (im : nat) (ammount : pyval) (heap : list tensor)
  : result nat * list tensor :=
  match ammount with
  | PyList l =>
      match run im l statements heap with
      | (Ok _, heap') => (Ok im, heap')
      | (Raise e, heap') => (Raise e, heap')
      end
  | _ => (Raise AssertionError, heap)
  end.

End AttenuateBorders.

Module DeNormalize.

Record t : Type := mk { mean : tensor; std : tensor }.

(** [torch.tensor(l)] for a list of numbers. *)
Definition tensor_of_list (l : list R) : tensor :=
  mkT [length l]
      (fun idx =>
         match idx with
         | [i] => nth_error l i
         | _ => None
         end).

Definition init (mean std : pyval) : result t :=
  match mean, std with
  | PyList m, PyList s =>
      _ <- assert (length m =? 3)%nat ;;
      _ <- assert (length s =? 3)%nat ;;
      mean <- reshape (tensor_of_list m) [1%nat; length m; 1%nat] ;;
      std <- reshape (tensor_of_list s) [1%nat; length s; 1%nat] ;;
      Ok (mk mean std)
  | _, _ => Raise AssertionError
  end.

Definition call (self : t) (tens : pyobj) : result tensor :=
  tens <- is_tensor tens ;;
  _ <- assert (rank tens =? 4)%nat ;;
  let sz0 := nth 0 (size tens) O in
  let sz1 := nth 1 (size tens) O in
  let sz2 := nth 2 (size tens) O in
  let sz3 := nth 3 (size tens) O in
  tens <- reshape tens [sz0; sz1; (sz2 * sz3)%nat] ;;
  tens <- tbin fmul tens (std self) ;;
  tens <- tbin fadd tens (mean self) ;;
  tens <- reshape tens [sz0; sz1; sz2; sz3] ;;
  Ok tens.

End DeNormalize.
(* ================================================================= *)
(** * Definitions used to state the properties *)

Definition rsum (l : list R) : R := fold_right Rplus 0 l.

(** The SMOE scale of the channel values of one pixel. *)
Definition smoe_stat (xs : list fl) : fl :=
  let ys := map (fun v => fadd v (Some eps)) xs in
  fmul (fsub (flog2 (fmean ys)) (fmean (map flog2 ys))) (fmean ys).

Definition rmean (l : list R) : R := rsum l / INR (length l).
Definition log2 (x : R) : R := ln x / ln 2.

(** The channel values of a pixel of a 4D tensor, as reals. *)
Definition channels_are (x : tensor) (b h w : nat) (C : nat) (rs : list R) : Prop :=
  map (fun c => data x [b; c; h; w]) (seq 0 C) = map Some rs.

(** A [1 x 2 x 1 x 1] tensor whose two channels are 1 and 2. *)
Definition x_two_channels : tensor :=
  mkT [1; 2; 1; 1]%nat
      (fun idx => match idx with
                  | [_; O; _; _] => Some 1
                  | _ => Some 2
                  end).

(** The statistic [TruncNormalEntMap.forward] computes from the channel
    values of one pixel, line by line. *)
Definition trunc_stat (self : TruncNormalEntMap.t) (l : list fl) : fl :=
  let m := fmean l in
  let s := fstd l in
  let a := fdiv (fsub (Some 0) m) s in
  let pdf := fmul (Some (TruncNormalEntMap.c1 self))
                  (fexp (fmul (Some (- 0.5)) (fpow2 a))) in
  let cdf := fadd (fmul (Some 0.5)
                        (fadd (Some 1)
                              (ferf (fdiv a (Some (TruncNormalEntMap.c2 self))))))
                  (Some eps) in
  let Z := fsub (Some 1) cdf in
  fadd (flog (fmul (fmul (Some (TruncNormalEntMap.c3 self)) s) Z))
       (fdiv (fmul a pdf) (fmul (Some 2) Z)).

(** The unbiased standard deviation of a list of reals. *)
Definition rstd (rs : list R) : R :=
  sqrt (rsum (map (fun r => (r - rmean rs) * (r - rmean rs)) rs)
        / INR (length rs - 1)).

(** The entropy as the code computes it from finite channel values: the
    guard [eps] is added to the cdf, hence subtracted from [Z]. *)
Definition code_trunc_entropy (self : TruncNormalEntMap.t) (rs : list R) : R :=
  let m := rmean rs in
  let s := rstd rs in
  let a := (0 - m) / s in
  let pdf := TruncNormalEntMap.c1 self * exp (- 0.5 * (a * a)) in
  let cdf := 0.5 * (1 + erf (a / TruncNormalEntMap.c2 self)) in
  let Z := 1 - (cdf + eps) in
  ln (TruncNormalEntMap.c3 self * s * Z) + (a * pdf) / (2 * Z).

(** The survival term of the code. *)
Definition code_Z (self : TruncNormalEntMap.t) (rs : list R) : R :=
  1 - (0.5 * (1 + erf ((0 - rmean rs) / rstd rs / TruncNormalEntMap.c2 self)) + eps).

(** The entropy as the specification words it: the survival term is
    [Z = 1 - Phi(alpha) + eps]. *)
Definition spec_trunc_entropy (rs : list R) : R :=
  let m := rmean rs in
  let s := rstd rs in
  let alpha := (0 - m) / s in
  let phi := exp (- (alpha * alpha) / 2) / sqrt (2 * PI) in
  let Phi := (1 + erf (alpha / sqrt 2)) / 2 in
  let Z := 1 - Phi + eps in
  ln (sqrt (2 * PI * exp 1) * s * Z) + (alpha * phi) / (2 * Z).

(** A [1 x 2 x 1 x 1] tensor whose two channels are -1 and 1. *)
Definition x_pm1 : tensor :=
  mkT [1; 2; 1; 1]%nat
      (fun idx => match idx with
                  | [_; O; _; _] => Some (-1)
                  | _ => Some 1
                  end).

(** The flattened spatial values of sample [b]. *)
Definition flat_sample (x : tensor) (s1 s2 b : nat) : list fl :=
  map (fun k => data x [b; (k / s2)%nat; (k mod s2)%nat]) (seq 0 (s1 * s2)).

(** What [Normalize2D.forward] does to a value [v] of a sample [l]. *)
Definition norm_value (l : list fl) (v : fl) : fl :=
  fmul (Some 0.5)
       (fadd (Some 1)
             (ferf (fdiv (fsub v (fmean l)) (fmul (fstd l) (fsqrt (Some 2)))))).

(** A [1 x 2 x 2] map whose four values are all 1. *)
Definition x_ones : tensor := mkT [1; 2; 2]%nat (fun _ => Some 1).

Definition finite (x : tensor) : Prop :=
  forall idx, in_range idx (size x) -> exists r, data x idx = Some r.

(** The combiner the default weights build for one map. *)
Definition one_map_combiner (H W : positive) : CombineSaliencyMaps.t :=
  CombineSaliencyMaps.mk [PyNum 1] (PyNum (0 + 1)) 1 [Z.pos H; Z.pos W]
                         "bilinear" false.

(** The last hook call, if any, whose output is on the device an observer
    configured with [dev] accepts. *)
Definition last_captured (dev : option string) (events : list event) : option event :=
  find (fun ev => CaptureLayerData.device_matches
                    (CaptureLayerData.init dev detach) (snd ev))
       (rev events).

Definition passes (h : hook) (events : list event) : hook :=
  fold_left hook_call events h.

(** What an observer captures from one call. *)
Definition captured (h : hook) (ev : event) : pyobj :=
  let pp := CaptureLayerData.post_process (hook_state h) in
  match h with
  | OutputHook _ => OTensor (pp (value (snd ev)))
  | InputHook _ => OList (map (fun x => pp (value x)) (fst ev))
  end.

(** A newly constructed observer. *)
Definition new_hook (output_side : bool) (dev : option string)
           (pp : tensor -> tensor) : hook :=
  if output_side then OutputHook (CaptureLayerOutput.init dev pp)
  else InputHook (CaptureLayerInput.init dev pp).

(** Two passes through a layer whose output has size [2; 3]. *)
Definition o_first : dtensor := mkD (mkT [2; 3]%nat (fun _ => Some 1)) "cuda:0".
Definition o_second : dtensor := mkD (mkT [2; 3]%nat (fun _ => Some 2)) "cpu".

(** The tensor [a op= x] when [x] has the size of [a]. *)
Definition tzip (op : fl -> fl -> fl) (a x : tensor) : tensor :=
  mkT (size a)
      (fun idx => op (data a (bidx (size a) idx)) (data x (bidx (size a) idx))).

(** The aggregates as the specification words them: the sum over the
    iterations, taken in order from zero, of the elementwise squares of the
    maps, or of the maps, divided by the number of iterations; no square
    root. *)
Definition mean_of_squares (iters : Z) (sz : list nat) (ms : list tensor) : tensor :=
  mkT sz (fun idx =>
            fdiv (fold_left fadd (map (fun m => fmul (data m idx) (data m idx)) ms)
                            (Some 0))
                 (Some (IZR iters))).

Definition mean_of_maps (iters : Z) (sz : list nat) (ms : list tensor) : tensor :=
  mkT sz (fun idx =>
            fdiv (fold_left fadd (map (fun m => data m idx) ms) (Some 0))
                 (Some (IZR iters))).

Section AggregatorSpec.

Import SmoothGrad.

Variable E : Type.
Variable normal : fl -> list nat -> E -> result tensor * E.
Variable model : tensor -> E -> result unit * (list (list event) * E).

Local Abbreviation body := (SmoothGrad.body E normal model).
Local Abbreviation state := (SmoothGrad.state E).

(** One perturb-run-score-combine step, spelled out. *)
Definition iteration_steps (self : SmoothGrad.t) (g : CombineSaliencyMaps.t)
             (r : nat) (sd : fl) (st : state) (c s t : tensor) (st' : state) : Prop :=
    exists x noise e1 evs e2 sm,
      getitem (heap st) r = Ok x /\
      normal sd (size x) (ext st) = (Ok noise, e1) /\
      tbin fadd x noise = Ok t /\
      model t e1 = (Ok tt, (evs, e2)) /\
      mapM (score self) (fire (hooks st) evs) = Ok sm /\
      CombineSaliencyMaps.forward g sm = Ok (c, s) /\
      st' = mkState (heap st) (fire (hooks st) evs) e2.

(** [same_but P st st']: between [st] and [st'] the heap kept its length
    and changed at most at the references in [P]. *)
Definition same_but (P : nat -> Prop) (st st' : state) : Prop :=
  length (heap st') = length (heap st) /\
  forall k, ~ P k -> nth_error (heap st') k = nth_error (heap st) k.

(** The references an accumulator updates in place. *)
Definition targets (acc : accum) (k : nat) : Prop :=
  match acc with
  | Debug _ _ => False
  | Sums r1 r2 => k = r1 \/ k = r2
  end.

(** Two accumulators of the same mode, with the same references. *)
Definition same_targets (acc acc' : accum) : Prop :=
  match acc, acc' with
  | Debug _ _, Debug _ _ => True
  | Sums r1 r2, Sums r1' r2' => r1 = r1' /\ r2 = r2'
  | _, _ => False
  end.

(** The map an iteration adds to an accumulator: its elementwise square
    under magnitude aggregation, the map itself otherwise. *)
Definition sq_t (mag : bool) (c : tensor) : tensor :=
  if mag then tzip fmul c c else c.

(** The sizes the combiner [g] returns: [H x W] maps for [L] layers. *)
Definition returns_sizes (g : CombineSaliencyMaps.t) (H W L : nat) : Prop :=
  forall sm c s, CombineSaliencyMaps.forward g sm = Ok (c, s) ->
                 exists bn, size c = [bn; H; W] /\ size s = [bn; L; H; W].

(** The accumulator after the maps [cs] have been added to [a]. *)
Definition accumulate (mag : bool) (cs : list tensor) (a : tensor) : tensor :=
  fold_left (fun a c => tzip fadd a (sq_t mag c)) cs a.

(** What [__call__] computes before its loop. *)
Definition prelude (self : SmoothGrad.t) (in_tensor : nat) (weights : pyval)
           (st : state) (x : tensor) (H W : nat) (g : CombineSaliencyMaps.t)
           (sd : fl) : Prop :=
  nth_error (heap st) in_tensor = Some x /\
  nth_error (size x) 2 = Some H /\ nth_error (size x) 3 = Some W /\
  CombineSaliencyMaps.init [Z.of_nat H; Z.of_nat W] (Z.of_nat (length (hooks st)))
                           weights "bilinear" (maps_magnitude self) = Ok g /\
  exists mx mn, tmax x = Ok mx /\ tmin x = Ok mn /\
                sd = fmul (Some (stdev_spread self)) (fsub mx mn).

(** What [__call__] does after it. *)
Definition after_prelude (self : SmoothGrad.t) (in_tensor : nat) (debug : bool)
           (H W L : nat) (g : CombineSaliencyMaps.t) (sd : fl)
  : M E (accum * list tensor) :=
  mbind (if debug then ret (Debug [] [])
         else
           mbind (alloc (zeros [1%nat; H; W])) (fun out_csmap =>
           mbind (alloc (zeros [1%nat; L; H; W])) (fun out_smaps =>
           ret (Sums out_csmap out_smaps)))) (fun acc =>
  mbind (repeatM (Z.to_nat (iters self)) (body self g in_tensor sd) (acc, []))
        (fun '(acc, ret_image) =>
  match acc with
  | Debug _ _ => ret (acc, ret_image)
  | Sums out_csmap out_smaps =>
      mbind (idiv out_csmap (iters self)) (fun _ =>
      mbind (idiv out_smaps (iters self)) (fun _ =>
      ret (acc, ret_image)))
  end)).


(** [iterations self g x sd hs e cs ss hs' e']: starting from the observers
    [hs] and the external state [e], successive iterations each draw a noise
    tensor of the size of [x] with standard deviation [sd], run the network
    on [x + noise], which calls the observers, score what every observer
    holds with [getNorm(getSmap(.))] and combine the scores with [g]; [cs]
    and [ss] list the combined and the stacked maps of the iterations in
    order, and [hs'] and [e'] are the observers and the external state at
    the end. *)
Inductive iterations (self : SmoothGrad.t) (g : CombineSaliencyMaps.t)
          (x : tensor) (sd : fl)
  : list hook -> E -> list tensor -> list tensor -> list hook -> E -> Prop :=
| iterations_nil (hs : list hook) (e : E) : iterations self g x sd hs e [] [] hs e
| iterations_cons (hs hs' : list hook) (e e1 e2 e' : E) (noise t : tensor)
                  (evs : list (list event)) (sm : list tensor) (c s : tensor)
                  (cs ss : list tensor) :
    normal sd (size x) e = (Ok noise, e1) ->
    tbin fadd x noise = Ok t ->
    model t e1 = (Ok tt, (evs, e2)) ->
    mapM (score self) (fire hs evs) = Ok sm ->
    CombineSaliencyMaps.forward g sm = Ok (c, s) ->
    iterations self g x sd (fire hs evs) e2 cs ss hs' e' ->
    iterations self g x sd hs e (c :: cs) (s :: ss) hs' e'.

(** The static single-pass pipeline of the specification: run the network
    once on the input itself, apply the range normaliser to the scale map
    of every observed layer, and feed the fields to the map combiner. *)
Definition static_pipeline (self : SmoothGrad.t) (in_tensor : nat) (weights : pyval)
  : M E (tensor * tensor) :=
  mbind (load in_tensor) (fun x =>
  mbind (lift (getitem (size x) 2)) (fun in_height =>
  mbind (lift (getitem (size x) 3)) (fun in_width =>
  mbind get_hooks (fun hs =>
  mbind (lift (CombineSaliencyMaps.init
                 [Z.of_nat in_height; Z.of_nat in_width] (Z.of_nat (length hs))
                 weights "bilinear" (maps_magnitude self))) (fun combiner =>
  mbind (run_model E model x) (fun _ =>
  mbind get_hooks (fun hs =>
  mbind (lift (mapM (score self) hs)) (fun fields =>
  lift (CombineSaliencyMaps.forward combiner fields))))))))).

End AggregatorSpec.

Arguments same_but {E} P st st'.
Arguments prelude {E} self in_tensor weights st x H W g sd.

(** An activation of size [1 x 2 x 1 x 3]: after the guard [eps] is added
    the two channels are (1, 1), (1, 2) and (2, 4) at the three pixels. *)
Definition act_ramp : tensor :=
  mkT [1; 2; 1; 3]%nat
      (fun idx =>
         match idx with
         | [_; c; _; w] =>
             Some (match w, c with
                   | O, _ => 1 - eps
                   | 1%nat, O => 1 - eps
                   | 1%nat, _ => 2 - eps
                   | _, O => 2 - eps
                   | _, _ => 4 - eps
                   end)
         | _ => None
         end).

(** The SMOE scale of the middle pixel. *)
Definition ramp_w : R := (log2 (3 / 2) - 1 / 2) * (3 / 2).

(** The observer of the concrete run, before and after a pass. *)
Definition ramp_hook : hook := new_hook true None detach.

Definition ramp_event : event := ([], mkD act_ramp "cpu").

(** The world of the concrete run: a generator that returns zero noise, a
    network whose observed layer always outputs [act_ramp], a constant
    input of size [1 x 1 x 1 x 3] (so that the noise scale is 0), and one
    output-side observer. *)
Definition zero_noise (std : fl) (sz : list nat) (e : unit) : result tensor * unit :=
  (Ok (zeros sz), e).

Definition ramp_model (x : tensor) (e : unit)
  : result unit * (list (list event) * unit) :=
  (Ok tt, ([[ramp_event]], e)).

Definition x_zero : tensor := zeros [1; 1; 1; 3]%nat.

Definition ramp_state : SmoothGrad.state unit :=
  SmoothGrad.mkState [x_zero] [ramp_hook] tt.

Definition ramp_state' : SmoothGrad.state unit :=
  SmoothGrad.mkState [x_zero] [hook_call ramp_hook ramp_event] tt.


(* ================================================================= *)
(** * Definitions used to state further properties *)

(** The size of a tensor without its axis 1. *)
Definition drop_dim1 (sz : list nat) : list nat :=
  match sz with
  | s0 :: _ :: rest => s0 :: rest
  | _ => []
  end.

(** What a scale map returns on [x]: a tensor of the size of [x] without
    its axis 1 when [x] is a tensor with more than two axes, and an
    [AssertionError] otherwise. *)
Definition guarded_by_rank (x : pyobj) (res : result tensor) : Prop :=
  match x with
  | OTensor t =>
      if (2 <? rank t)%nat
      then exists out, res = Ok out /\ size out = drop_dim1 (size t)
      else res = Raise AssertionError
  | _ => res = Raise AssertionError
  end.

(** A [1 x 2 x 1 x 1] activation with a negative channel value. *)
Definition x_negative : tensor :=
  mkT [1; 2; 1; 1]%nat
      (fun idx => match idx with
                  | [_; O; _; _] => Some (-1)
                  | _ => Some 2
                  end).

(** The values of a [1 x 2] map: 1 and 2. *)
Definition pair_values (h w : nat) : R :=
  match w with
  | O => 1
  | _ => 2
  end.

Definition x_pair : tensor :=
  mkT [1; 1; 2]%nat
      (fun idx => match idx with
                  | [_; h; w] => Some (pair_values h w)
                  | _ => None
                  end).

(** [Normalize2D.forward] returns a tensor of the size of its argument when
    that is a tensor with three axes, and raises [AssertionError]
    otherwise. *)
Definition guarded_by_rank3 (x : pyobj) (res : result tensor) : Prop :=
  match x with
  | OTensor t =>
      if (rank t =? 3)%nat
      then exists out, res = Ok out /\ size out = size t
      else res = Raise AssertionError
  | _ => res = Raise AssertionError
  end.

(** The four checks [CombineSaliencyMaps.__init__] makes on the output
    size and the number of maps. *)
Definition valid_geometry (output_size : list Z) (map_num : Z) : bool :=
  (length output_size =? 2)%nat && (0 <? nth 0 output_size 0)%Z &&
  (0 <? nth 1 output_size 0)%Z && (0 <? map_num)%Z.

(** What the constructor of the map combiner does, case by case. *)
Definition init_outcome (output_size : list Z) (map_num : Z) (weights : pyval)
           (mode : string) (mag : bool) : result CombineSaliencyMaps.t :=
  if valid_geometry output_size map_num then
    match weights with
    | PyNone =>
        Ok (CombineSaliencyMaps.mk (repeat (PyNum 1) (Z.to_nat map_num))
                                   (PyNum (INR (Z.to_nat map_num)))
                                   map_num output_size mode mag)
    | PyNum _ => Raise TypeError
    | PyList l =>
        if (length l =? 1)%nat then Raise TypeError
        else if (Z.of_nat (length l) =? map_num)%Z then
          Ok (CombineSaliencyMaps.mk (map PyNum l) (PyNum (rsum l))
                                     map_num output_size mode mag)
        else Raise AssertionError
    end
  else Raise AssertionError.

(** Bilinear resampling of the map [b] of [M], a tensor of size
    [bn x h x w], at position [(i, j)] of an [H x W] grid. *)
Definition resample (M : tensor) (H W : nat) (b i j : nat) : fl :=
  let '(h0, h1, hl) := src_index (nth 1 (size M) O) H i in
  let '(w0, w1, wl) := src_index (nth 2 (size M) O) W j in
  fadd
    (fmul (Some (1 - hl))
          (fadd (fmul (Some (1 - wl)) (data M [b; h0; w0]))
                (fmul (Some wl) (data M [b; h0; w1]))))
    (fmul (Some hl)
          (fadd (fmul (Some (1 - wl)) (data M [b; h1; w0]))
                (fmul (Some wl) (data M [b; h1; w1])))).

(** A resized map as the combiner uses it: squared under [magnitude]. *)
Definition layer_value (mag : bool) (v : fl) : fl :=
  if mag then fmul v v else v.

(** The weights a combiner built from [weights] gives to [L] maps. *)
Definition weight_list (weights : pyval) (L : nat) : list R :=
  match weights with
  | PyList l => l
  | _ => repeat 1 L
  end.

(** The maps of a batch of [bn] samples, each with positive height and
    width. *)
Definition batch_maps (bn : nat) (smaps : list tensor) : Prop :=
  Forall (fun M => exists h w, size M = [bn; h; w] /\ (0 < h)%nat /\ (0 < w)%nat)
         smaps.

(** The weighted terms the combiner sums at one position. *)
Definition weighted_layers (mag : bool) (H W b i j : nat)
           (smaps : list tensor) (ws : list R) : list fl :=
  map (fun Mw => fmul (layer_value mag (resample (fst Mw) H W b i j)) (Some (snd Mw)))
      (combine smaps ws).

(** Every entry of [M] is a finite number between 0 and 1. *)
Definition unit_range (M : tensor) : Prop :=
  forall idx, in_range idx (size M) -> exists r, data M idx = Some r /\ 0 <= r <= 1.

(** A weight of moderate size: between 1/1024 and 1024. *)
Definition moderate (w : R) : Prop := / 1024 <= w <= 1024.

(** A [1 x 1 x 2] map with the values 1/2 and 1. *)
Definition x_unit_pair : tensor :=
  mkT [1; 1; 2]%nat
      (fun idx => match idx with
                  | [_; h; w] => Some (pair_values h w / 2)
                  | _ => None
                  end).

(** A [1 x 3 x 1 x 2] image: channel [c] holds [c] and [c + 10]. *)
Definition x_rgb : tensor :=
  mkT [1; 3; 1; 2]%nat
      (fun idx => match idx with
                  | [_; c; _; w] => Some (INR c + 10 * INR w)
                  | _ => None
                  end).

(** A gray [1 x 1 x 1 x 2] image. *)
Definition x_gray : tensor := mkT [1; 1; 1; 2]%nat (fun _ => Some 1).

(** The content of an array after the assignments [ss] of
    [AttenuateBorders], with the factors [l]. *)
Definition apply_statements (l : list R) (ss : list (index * index * nat))
           (x : tensor) : tensor :=
  fold_left (fun x s => scale_region (fst (fst s)) (snd (fst s)) (nth (snd s) l 0) x)
            ss x.

(** The factor by which the pixel at row [h] and column [w] of an
    [H x W] image is attenuated, described by where the pixel lies: on the
    outer border (a corner counts twice), on the ring next to it, or
    inside. *)
Definition attenuation (a0 a1 : R) (H W h w : nat) : R :=
  let edge_h := ((h =? 0) || (h =? H - 1))%nat in
  let edge_w := ((w =? 0) || (w =? W - 1))%nat in
  if edge_h && edge_w then a0 * a0
  else if edge_h || edge_w then a0
  else if ((h =? 1) && (w =? 1))%nat then a1 * a1
  else if ((h =? H - 2) && (w =? W - 2))%nat then 1
  else if ((h =? 1) || (h =? H - 2) || (w =? 1) || (w =? W - 2))%nat then a1
  else 1.

(** The same for the outer border alone. *)
Definition border_attenuation (a0 : R) (H W h w : nat) : R :=
  let edge_h := ((h =? 0) || (h =? H - 1))%nat in
  let edge_w := ((w =? 0) || (w =? W - 1))%nat in
  if edge_h && edge_w then a0 * a0
  else if edge_h || edge_w then a0
  else 1.

(** A [1 x 5 x 5] image of ones. *)
Definition x_square : tensor := mkT [1; 5; 5]%nat (fun _ => Some 1).

(** A batch of two activations, both with the channels of [act_ramp], and
    a network whose observed layer outputs it. *)
Definition act_pair : tensor := mkT [2; 2; 1; 3]%nat (data act_ramp).

Definition pair_event : event := ([], mkD act_pair "cpu").

Definition pair_model (x : tensor) (e : unit)
  : result unit * (list (list event) * unit) :=
  (Ok tt, ([[pair_event]], e)).

(** The state of the concrete run with an input-side observer in place of
    the output-side one. *)
Definition input_side_state : SmoothGrad.state unit :=
  SmoothGrad.mkState [x_zero] [new_hook false None detach] tt.

(** Two batches of two [1 x 2] maps with the same first sample and
    different second samples. *)
Definition x_batch_a : tensor :=
  mkT [2; 1; 2]%nat
      (fun idx => match idx with
                  | [O; h; w] => Some (pair_values h w)
                  | _ => Some 0
                  end).

Definition x_batch_b : tensor :=
  mkT [2; 1; 2]%nat
      (fun idx => match idx with
                  | [O; h; w] => Some (pair_values h w)
                  | [_; h; w] => Some (7 * pair_values h w)
                  | _ => Some 0
                  end).
(* ================================================================= *)
(** * Properties *)

(** ** Results and float values *)

Lemma fsum_Some (rs : list R) : fsum (map Some rs) = Some (rsum rs).
Proof.
  unfold fsum. induction rs as [|r rs IH]; simpl; [reflexivity|].
  rewrite IH. reflexivity.
Qed.

Lemma fdiv_Some (x y : R) : y <> 0 -> fdiv (Some x) (Some y) = Some (x / y).
Proof.
  intros Hy. unfold fdiv. destruct (Req_dec_T y 0); [contradiction|reflexivity].
Qed.

Lemma fdiv_zero (a : fl) : fdiv a (Some 0) = None.
Proof.
  destruct a as [x|]; simpl; [|reflexivity].
  destruct (Req_dec_T 0 0); [reflexivity|congruence].
Qed.

Lemma flog2_Some (x : R) : 0 < x -> flog2 (Some x) = Some (ln x / ln 2).
Proof.
  intros Hx. unfold flog2. destruct (Rlt_dec 0 x); [reflexivity|contradiction].
Qed.

Lemma flog_Some (x : R) : 0 < x -> flog (Some x) = Some (ln x).
Proof.
  intros Hx. unfold flog. destruct (Rlt_dec 0 x); [reflexivity|contradiction].
Qed.

Lemma fsqrt_Some (x : R) : 0 <= x -> fsqrt (Some x) = Some (sqrt x).
Proof.
  intros Hx. unfold fsqrt. destruct (Rle_dec 0 x); [reflexivity|contradiction].
Qed.

Lemma fmean_Some (rs : list R) :
  rs <> [] -> fmean (map Some rs) = Some (rsum rs / INR (length rs)).
Proof.
  intros Hne. unfold fmean. rewrite fsum_Some, length_map.
  apply fdiv_Some. apply not_0_INR. destruct rs; [congruence|discriminate].
Qed.

Lemma rsum_pos (rs : list R) :
  rs <> [] -> Forall (fun r => 0 < r) rs -> 0 < rsum rs.
Proof.
  intros Hne Hall. induction Hall as [|r rs Hr Hall IH]; [congruence|].
  simpl. destruct rs as [|r' rs'].
  - simpl. lra.
  - assert (0 < rsum (r' :: rs')) by (apply IH; discriminate). lra.
Qed.

Lemma rsum_map_scal (c : R) (f : R -> R) (rs : list R) :
  rsum (map (fun r => f r / c) rs) = rsum (map f rs) / c.
Proof.
  induction rs as [|r rs IH]; simpl.
  - unfold Rdiv. ring.
  - rewrite IH. unfold Rdiv. ring.
Qed.

(** ** Sizes and indices *)

Lemma Forall2_snoc {A B} (P : A -> B -> Prop) l1 l2 a b :
  Forall2 P l1 l2 -> P a b -> Forall2 P (l1 ++ [a]) (l2 ++ [b]).
Proof.
  intros H Hab. apply Forall2_app; [assumption|]. constructor; [assumption|constructor].
Qed.

Lemma in_range_rev (idx sz : list nat) :
  in_range idx sz -> in_range (rev idx) (rev sz).
Proof.
  unfold in_range. induction 1; simpl; [constructor|].
  apply Forall2_snoc; assumption.
Qed.

Lemma bidx_rev_in_range (idx sz : list nat) :
  in_range idx sz -> bidx_rev sz idx = idx.
Proof.
  unfold in_range. induction 1 as [|i d idx sz Hid _ IH]; simpl; [reflexivity|].
  rewrite IH. destruct (Nat.eqb_spec d 1) as [->|_]; [|reflexivity].
  f_equal. lia.
Qed.

Lemma bidx_in_range (idx sz : list nat) :
  in_range idx sz -> bidx sz idx = idx.
Proof.
  intros H. unfold bidx.
  rewrite (bidx_rev_in_range _ _ (in_range_rev _ _ H)).
  apply rev_involutive.
Qed.

Lemma bshape_rev_same (s : list nat) : bshape_rev s s = Some s.
Proof.
  induction s as [|d s IH]; simpl; [reflexivity|].
  rewrite IH, Nat.eqb_refl. reflexivity.
Qed.

Lemma broadcast_shapes_same (s : list nat) : broadcast_shapes s s = Some s.
Proof.
  unfold broadcast_shapes. rewrite bshape_rev_same. simpl.
  now rewrite rev_involutive.
Qed.

Lemma tbin_same (op : fl -> fl -> fl) (a b : tensor) :
  size a = size b ->
  exists t, tbin op a b = Ok t /\ size t = size a /\
            forall idx, in_range idx (size a) ->
                        data t idx = op (data a idx) (data b idx).
Proof.
  intros Hsz. unfold tbin. rewrite <- Hsz, broadcast_shapes_same.
  eexists. split; [reflexivity|]. split; [reflexivity|].
  intros idx Hidx. simpl. now rewrite (bidx_in_range _ _ Hidx).
Qed.

(** ** SMOE scale *)

(** [forward] computes, at every pixel, [smoe_stat] of the pixel's channel
    values (after the optional ReLU). *)
Lemma SMOEScaleMap_forward_pixel (self : SMOEScaleMap.t) (x : tensor)
      (s0 s1 : nat) (rest : list nat) :
  size x = s0 :: s1 :: rest -> rest <> [] ->
  exists th,
    SMOEScaleMap.forward self (OTensor x) = Ok th /\
    size th = s0 :: rest /\
    forall b r, in_range (b :: r) (s0 :: rest) ->
      data th (b :: r) =
      smoe_stat (map (fun c => (if SMOEScaleMap.relu self then frelu else (fun v => v))
                                 (data x (b :: c :: r)))
                     (seq 0 s1)).
Proof.
  intros Hsz Hrest. unfold SMOEScaleMap.forward. simpl.
  assert (Hrk : (2 <? rank x)%nat = true).
  { unfold rank. rewrite Hsz. destruct rest; [congruence|reflexivity]. }
  rewrite Hrk. simpl.
  set (x1 := if SMOEScaleMap.relu self then tmap frelu x else x).
  assert (Hsz1 : size x1 = s0 :: s1 :: rest).
  { unfold x1. destruct (SMOEScaleMap.relu self); simpl; assumption. }
  unfold mean_dim1, reduce_dim1. simpl. rewrite Hsz1. simpl.
  match goal with
  | |- context [tbin fsub ?a ?b] =>
      destruct (tbin_same fsub a b eq_refl) as (k & Hk & Hksz & Hkd)
  end.
  rewrite Hk. simpl in *.
  match goal with
  | |- context [tbin fmul k ?b] =>
      destruct (tbin_same fmul k b Hksz) as (th & Hth & Hthsz & Hthd)
  end.
  rewrite Hth. simpl in *.
  exists th. split; [reflexivity|]. split; [congruence|].
  intros b r Hbr. rewrite Hksz in Hthd. rewrite (Hthd _ Hbr), (Hkd _ Hbr).
  unfold smoe_stat. cbv zeta.
  set (ys := map (fun v => fadd v (Some eps)) _).
  assert (Hch1 : map (fun c => fadd (data x1 (b :: c :: r)) (Some eps)) (seq 0 s1) = ys).
  { unfold ys. rewrite map_map. apply map_ext. intros c.
    unfold x1. destruct (SMOEScaleMap.relu self); reflexivity. }
  assert (Hch2 : map (fun c => flog2 (fadd (data x1 (b :: c :: r)) (Some eps)))
                     (seq 0 s1) = map flog2 ys).
  { rewrite <- Hch1, map_map. reflexivity. }
  rewrite Hch1, Hch2. reflexivity.
Qed.

Lemma ln_le_affine (x m : R) : 0 < x -> 0 < m -> ln x <= ln m + x / m - 1.
Proof.
  intros Hx Hm.
  assert (Hq : 0 < x / m) by (apply Rdiv_lt_0_compat; assumption).
  assert (Hln : ln (x / m) <= x / m - 1).
  { destruct (Req_dec (x / m) 1) as [E|E].
    - rewrite E, ln_1. lra.
    - left. rewrite <- (ln_exp (x / m - 1)).
      apply ln_increasing; [assumption|].
      pose proof (exp_ineq1 (x / m - 1)) as Hexp.
      assert (x / m - 1 <> 0) by lra. specialize (Hexp H). lra. }
  unfold Rdiv in Hln at 1. rewrite ln_mult in Hln; [|assumption|now apply Rinv_0_lt_compat].
  rewrite ln_Rinv in Hln by assumption. lra.
Qed.

Lemma rsum_ln_le (xs : list R) (m : R) :
  0 < m -> Forall (fun x => 0 < x) xs ->
  rsum (map ln xs) <= INR (length xs) * ln m + rsum xs / m - INR (length xs).
Proof.
  intros Hm Hall. induction Hall as [|x xs Hx Hall IH].
  - simpl. unfold Rdiv. lra.
  - change (rsum (map ln (x :: xs))) with (ln x + rsum (map ln xs)).
    change (rsum (x :: xs)) with (x + rsum xs).
    change (length (x :: xs)) with (S (length xs)). rewrite S_INR.
    pose proof (ln_le_affine x m Hx Hm) as Hx'.
    unfold Rdiv in *. lra.
Qed.

(** The log of the mean dominates the mean of the logs. *)
Lemma mean_log2_le (xs : list R) :
  xs <> [] -> Forall (fun x => 0 < x) xs ->
  rmean (map log2 xs) <= log2 (rmean xs).
Proof.
  intros Hne Hall. unfold rmean, log2. rewrite length_map.
  set (n := INR (length xs)).
  assert (Hn : 0 < n).
  { unfold n. apply lt_0_INR. destruct xs; [congruence|simpl; lia]. }
  assert (Hs : 0 < rsum xs) by (apply rsum_pos; assumption).
  assert (Hm : 0 < rsum xs / n) by (apply Rdiv_lt_0_compat; assumption).
  pose proof (rsum_ln_le xs _ Hm Hall) as Hle. fold n in Hle.
  replace (rsum xs / (rsum xs / n)) with n in Hle by (field; lra).
  rewrite (rsum_map_scal (ln 2) ln xs).
  assert (Hl2 : 0 < ln 2) by (rewrite <- ln_1; apply ln_increasing; lra).
  apply Rmult_le_reg_r with (r := n * ln 2); [nra|].
  replace (rsum (map ln xs) / ln 2 / n * (n * ln 2)) with (rsum (map ln xs))
    by (field; lra).
  replace (ln (rsum xs / n) / ln 2 * (n * ln 2)) with (n * ln (rsum xs / n))
    by (field; lra).
  lra.
Qed.

Lemma Forall_Some_list {P : R -> Prop} (l : list fl) :
  Forall (fun v => exists r, v = Some r /\ P r) l ->
  exists rs, l = map Some rs /\ Forall P rs.
Proof.
  induction 1 as [|v l (r & -> & Hr) _ (rs & -> & Hrs)].
  - exists []. split; [reflexivity|constructor].
  - exists (r :: rs). split; [reflexivity|]. constructor; assumption.
Qed.

(** In exact arithmetic, on finite channel values above [-eps] the
    statistic is the real [(log2 m - g) * m], which is not negative (the
    log of the mean dominates the mean of the logs).  Whether the float the
    code returns is finite and non-negative depends on rounding and on
    overflow, which lie outside this embedding. *)
Lemma smoe_stat_value (rs : list R) :
  rs <> [] -> Forall (fun r => - eps < r) rs ->
  let ys := map (fun r => r + eps) rs in
  smoe_stat (map Some rs) =
    Some ((log2 (rmean ys) - rmean (map log2 ys)) * rmean ys) /\
  0 <= (log2 (rmean ys) - rmean (map log2 ys)) * rmean ys.
Proof.
  intros Hne Hall ys.
  assert (Hys : Forall (fun y => 0 < y) ys).
  { unfold ys. rewrite Forall_map. eapply Forall_impl; [|exact Hall].
    simpl. intros. lra. }
  assert (Hyne : ys <> []) by (unfold ys; destruct rs; [congruence|discriminate]).
  assert (Hm : 0 < rmean ys).
  { unfold rmean. apply Rdiv_lt_0_compat; [now apply rsum_pos|].
    apply lt_0_INR. destruct ys; [congruence|simpl; lia]. }
  split.
  - unfold smoe_stat. cbv zeta. rewrite map_map.
    change (map (fun x => fadd (Some x) (Some eps)) rs)
      with (map (fun x => Some (x + eps)) rs).
    rewrite <- (map_map (fun r => r + eps) Some). fold ys.
    rewrite (fmean_Some ys Hyne). fold (rmean ys).
    rewrite (flog2_Some _ Hm). fold (log2 (rmean ys)).
    assert (Hlg : map flog2 (map Some ys) = map Some (map log2 ys)).
    { rewrite !map_map. apply map_ext_Forall.
      eapply Forall_impl; [|exact Hys]. simpl. intros y Hy.
      now apply flog2_Some. }
    rewrite Hlg, fmean_Some by (destruct ys; [congruence|discriminate]).
    fold (rmean (map log2 ys)). reflexivity.
  - pose proof (mean_log2_le ys Hyne Hys). nra.
Qed.


(** ** Truncated normal entropy *)

Lemma tbin_same_eq (op : fl -> fl -> fl) (a b : tensor) :
  size b = size a ->
  tbin op a b =
  Ok (mkT (size a)
          (fun idx => op (data a (bidx (size a) idx)) (data b (bidx (size a) idx)))).
Proof.
  intros Hsz. unfold tbin. rewrite Hsz, broadcast_shapes_same. reflexivity.
Qed.

Lemma TruncNormalEntMap_forward_pixel (self : TruncNormalEntMap.t) (x : tensor)
      (s0 s1 : nat) (rest : list nat) :
  size x = s0 :: s1 :: rest -> rest <> [] ->
  exists ent,
    TruncNormalEntMap.forward self (OTensor x) = Ok ent /\
    size ent = s0 :: rest /\
    forall b r, in_range (b :: r) (s0 :: rest) ->
      data ent (b :: r) =
      trunc_stat self (map (fun c => data x (b :: c :: r)) (seq 0 s1)).
Proof.
  intros Hsz Hrest. unfold TruncNormalEntMap.forward. simpl.
  assert (Hrk : (2 <? rank x)%nat = true).
  { unfold rank. rewrite Hsz. destruct rest; [congruence|reflexivity]. }
  rewrite Hrk. simpl.
  unfold mean_dim1, std_dim1, reduce_dim1. rewrite Hsz. simpl.
  unfold TruncNormalEntMap._compute_alpha.
  rewrite tbin_same_eq by reflexivity. simpl.
  rewrite tbin_same_eq by reflexivity. simpl.
  rewrite tbin_same_eq by reflexivity. simpl.
  rewrite tbin_same_eq by reflexivity. simpl.
  rewrite tbin_same_eq by reflexivity. simpl.
  eexists. split; [reflexivity|]. split; [reflexivity|].
  intros b r Hbr. simpl. rewrite !(bidx_in_range _ _ Hbr). reflexivity.
Qed.

Lemma rsum_squares_nonneg (f : R -> R) (rs : list R) :
  0 <= rsum (map (fun r => f r * f r) rs).
Proof.
  induction rs as [|r rs IH]; simpl; [lra|]. nra.
Qed.

Lemma fstd_Some (rs : list R) :
  (2 <= length rs)%nat -> fstd (map Some rs) = Some (rstd rs).
Proof.
  intros Hlen. unfold fstd.
  assert (Hne : rs <> []) by (destruct rs; [simpl in Hlen; lia|discriminate]).
  rewrite (fmean_Some rs Hne). fold (rmean rs). rewrite map_map.
  change (map (fun x => fpow2 (fsub (Some x) (Some (rmean rs)))) rs)
    with (map (fun x => Some ((x - rmean rs) * (x - rmean rs))) rs).
  rewrite <- (map_map (fun r => (r - rmean rs) * (r - rmean rs)) Some).
  rewrite fsum_Some, length_map.
  assert (Hn : 0 < INR (length rs - 1)) by (apply lt_0_INR; lia).
  rewrite fdiv_Some by lra.
  rewrite fsqrt_Some; [reflexivity|].
  apply Rmult_le_pos; [apply rsum_squares_nonneg with (f := fun r => r - rmean rs)|].
  left. now apply Rinv_0_lt_compat.
Qed.

Lemma trunc_stat_value (self : TruncNormalEntMap.t) (rs : list R) :
  (2 <= length rs)%nat ->
  rstd rs <> 0 ->
  TruncNormalEntMap.c2 self <> 0 ->
  0 < TruncNormalEntMap.c3 self * rstd rs * code_Z self rs ->
  trunc_stat self (map Some rs) = Some (code_trunc_entropy self rs).
Proof.
  intros Hlen Hs Hc2 Hpos. unfold trunc_stat. cbv zeta.
  assert (Hne : rs <> []) by (destruct rs; [simpl in Hlen; lia|discriminate]).
  rewrite (fmean_Some rs Hne), (fstd_Some rs Hlen). fold (rmean rs).
  cbn [fsub flift2]. rewrite (fdiv_Some _ _ Hs).
  rewrite (fdiv_Some _ _ Hc2).
  cbn [fpow2 fmul fadd fsub flift2 fexp ferf flift1 option_map].
  fold (code_Z self rs) in *.
  assert (HZ : code_Z self rs <> 0).
  { intros E. rewrite E in Hpos. lra. }
  change (1 - (0.5 * (1 + erf ((0 - rmean rs) / rstd rs / TruncNormalEntMap.c2 self))
               + eps)) with (code_Z self rs).
  rewrite (flog_Some _ Hpos).
  rewrite fdiv_Some by lra.
  reflexivity.
Qed.

Lemma erf_0 : erf 0 = 0.
Proof. unfold erf. rewrite RiemannInt_P9. ring. Qed.

Lemma rmean_pm1 : rmean [-1; 1] = 0.
Proof. unfold rmean. simpl. lra. Qed.

Lemma rstd_pm1 : rstd [-1; 1] = sqrt 2.
Proof.
  unfold rstd. rewrite rmean_pm1. simpl. f_equal. lra.
Qed.

Lemma sqrt2_pos : 0 < sqrt 2.
Proof. apply sqrt_lt_R0. lra. Qed.

Lemma c3_pos : 0 < sqrt (2 * PI * exp 1).
Proof.
  apply sqrt_lt_R0. pose proof PI_RGT_0. pose proof (exp_pos 1). nra.
Qed.

Lemma code_Z_pm1 : code_Z TruncNormalEntMap.init [-1; 1] = 0.5 - eps.
Proof.
  unfold code_Z. rewrite rmean_pm1, rstd_pm1. simpl.
  replace ((0 - 0) / sqrt 2 / sqrt 2) with 0 by (unfold Rdiv; ring).
  rewrite erf_0. lra.
Qed.

Lemma code_trunc_entropy_pm1 :
  code_trunc_entropy TruncNormalEntMap.init [-1; 1] =
  ln (sqrt (2 * PI * exp 1) * sqrt 2 * (0.5 - eps)).
Proof.
  unfold code_trunc_entropy. cbv zeta. rewrite rmean_pm1, rstd_pm1. simpl.
  replace ((0 - 0) / sqrt 2) with 0 by (unfold Rdiv; ring).
  replace (0 / sqrt 2) with 0 by (unfold Rdiv; ring).
  rewrite erf_0.
  replace (1 - (0.5 * (1 + 0) + eps)) with (0.5 - eps) by lra.
  unfold Rdiv. ring.
Qed.

Lemma spec_trunc_entropy_pm1 :
  spec_trunc_entropy [-1; 1] = ln (sqrt (2 * PI * exp 1) * sqrt 2 * (0.5 + eps)).
Proof.
  unfold spec_trunc_entropy. cbv zeta. rewrite rmean_pm1, rstd_pm1.
  replace ((0 - 0) / sqrt 2) with 0 by (unfold Rdiv; ring).
  replace (0 / sqrt 2) with 0 by (unfold Rdiv; ring).
  rewrite erf_0.
  replace (1 - (1 + 0) / 2 + eps) with (0.5 + eps) by lra.
  unfold Rdiv. ring.
Qed.

(** Claim C1.  On the pixel with channel values -1 and 1 (mean 0, standard
    deviation [sqrt 2], [alpha = 0]) [TruncNormalEntMap.forward] returns
    [ln (sqrt(2 pi e) * sqrt 2 * (0.5 - eps))]: its survival term is
    [1 - (Phi(alpha) + eps)].  The formula of the specification, with
    [Z = 1 - Phi(alpha) + eps], gives
    [ln (sqrt(2 pi e) * sqrt 2 * (0.5 + eps))], a different number. *)
Theorem TruncNormalEntMap_forward_guard_sign :
  exists ent,
    TruncNormalEntMap.forward TruncNormalEntMap.init (OTensor x_pm1) = Ok ent /\
    size ent = [1; 1; 1]%nat /\
    channels_are x_pm1 0 0 0 2 [-1; 1] /\
    data ent [0; 0; 0]%nat =
      Some (ln (sqrt (2 * PI * exp 1) * sqrt 2 * (0.5 - eps))) /\
    spec_trunc_entropy [-1; 1] =
      ln (sqrt (2 * PI * exp 1) * sqrt 2 * (0.5 + eps)) /\
    data ent [0; 0; 0]%nat <> Some (spec_trunc_entropy [-1; 1]).
Proof.
  destruct (TruncNormalEntMap_forward_pixel TruncNormalEntMap.init x_pm1
              1 2 [1; 1]%nat eq_refl ltac:(discriminate))
    as (ent & Hfw & Hsz & Hd).
  assert (Hin : in_range [0; 0; 0]%nat [1; 1; 1]%nat)
    by (repeat constructor).
  specialize (Hd _ _ Hin).
  change (map (fun c => data x_pm1 [0%nat; c; 0%nat; 0%nat]) (seq 0 2))
    with (map Some [-1; 1]) in Hd.
  assert (Hval : data ent [0; 0; 0]%nat =
                 Some (ln (sqrt (2 * PI * exp 1) * sqrt 2 * (0.5 - eps)))).
  { rewrite Hd, trunc_stat_value.
    - now rewrite code_trunc_entropy_pm1.
    - simpl. lia.
    - rewrite rstd_pm1. pose proof sqrt2_pos. lra.
    - simpl. pose proof sqrt2_pos. lra.
    - rewrite rstd_pm1, code_Z_pm1. simpl.
      pose proof sqrt2_pos. pose proof c3_pos.
      apply Rmult_lt_0_compat; [apply Rmult_lt_0_compat; assumption|].
      unfold eps. lra. }
  exists ent. split; [exact Hfw|]. split; [exact Hsz|].
  split; [reflexivity|]. split; [exact Hval|].
  split; [exact spec_trunc_entropy_pm1|].
  rewrite Hval, spec_trunc_entropy_pm1. intros E. injection E as E.
  pose proof sqrt2_pos as H2. pose proof c3_pos as H3.
  assert (Hk : 0 < sqrt (2 * PI * exp 1) * sqrt 2) by (apply Rmult_lt_0_compat; assumption).
  apply ln_inv in E.
  - unfold eps in E. nra.
  - apply Rmult_lt_0_compat; [assumption|unfold eps; lra].
  - apply Rmult_lt_0_compat; [assumption|unfold eps; lra].
Qed.

(** ** Range normalisation *)

Lemma unravel_flat (s0 s1 s2 b j : nat) :
  (j < s1 * s2)%nat ->
  unravel [s0; s1; s2] (ravel [s0; (s1 * s2)%nat] [b; j] 0) =
  [b; (j / s2)%nat; (j mod s2)%nat].
Proof.
  intros Hj. cbn [ravel unravel prod fold_right].
  assert (Hs2 : s2 <> O) by (intros ->; lia).
  rewrite !Nat.mul_1_r, Nat.mul_0_l, Nat.add_0_l, Nat.div_1_r.
  rewrite Nat.div_add_l by lia. rewrite (Nat.div_small j) by lia.
  rewrite Nat.add_0_r.
  replace ((b * (s1 * s2) + j) mod (s1 * s2))%nat with j.
  - reflexivity.
  - rewrite Nat.add_comm, Nat.Div0.mod_add. symmetry. now apply Nat.mod_small.
Qed.

Lemma unravel_unflat (s0 s1 s2 b h w : nat) :
  (h < s1)%nat -> (w < s2)%nat ->
  unravel [s0; (s1 * s2)%nat] (ravel [s0; s1; s2] [b; h; w] 0) =
  [b; (h * s2 + w)%nat].
Proof.
  intros Hh Hw. cbn [ravel unravel prod fold_right].
  rewrite !Nat.mul_1_r, Nat.mul_0_l, Nat.add_0_l, Nat.div_1_r.
  assert (Hlt : (h * s2 + w < s1 * s2)%nat) by nia.
  replace ((b * s1 + h) * s2 + w)%nat with (b * (s1 * s2) + (h * s2 + w))%nat by ring.
  rewrite Nat.div_add_l by lia. rewrite (Nat.div_small _ _ Hlt), Nat.add_0_r.
  rewrite Nat.add_comm, Nat.Div0.mod_add, (Nat.mod_small _ _ Hlt). reflexivity.
Qed.

Lemma unravel_column (s0 b : nat) :
  unravel [s0] (ravel [s0; 1%nat] [b; O] 0) = [b].
Proof.
  cbn [ravel unravel prod fold_right].
  now rewrite Nat.mul_0_l, Nat.add_0_l, Nat.mul_1_r, Nat.add_0_r, Nat.div_1_r.
Qed.

Lemma broadcast_shapes_column (a n : nat) :
  broadcast_shapes [a; n] [a; 1%nat] = Some [a; n].
Proof.
  unfold broadcast_shapes. cbn [rev app bshape_rev].
  rewrite Nat.eqb_refl.
  destruct (n =? 1)%nat; reflexivity.
Qed.

Lemma bidx_column (a b j : nat) :
  (b < a)%nat -> bidx [a; 1%nat] [b; j] = [b; O].
Proof.
  intros Hb. unfold bidx. cbn [rev app bidx_rev Nat.eqb].
  destruct (Nat.eqb_spec a 1) as [->|_]; [|reflexivity].
  replace b with O by lia. reflexivity.
Qed.

Lemma tbin_column (op : fl -> fl -> fl) (x c : tensor) (a n : nat) :
  size x = [a; n] -> size c = [a; 1%nat] ->
  tbin op x c =
  Ok (mkT [a; n]
          (fun idx => op (data x (bidx [a; n] idx)) (data c (bidx [a; 1%nat] idx)))).
Proof.
  intros Hx Hc. unfold tbin. rewrite Hx, Hc, broadcast_shapes_column. reflexivity.
Qed.

Lemma Normalize2D_forward_pixel (x : tensor) (s0 s1 s2 : nat) :
  size x = [s0; s1; s2] ->
  exists out,
    Normalize2D.forward (OTensor x) = Ok out /\
    size out = [s0; s1; s2] /\
    forall b h w, (b < s0)%nat -> (h < s1)%nat -> (w < s2)%nat ->
      data out [b; h; w] = norm_value (flat_sample x s1 s2 b) (data x [b; h; w]).
Proof.
  intros Hsz. unfold Normalize2D.forward. simpl.
  unfold rank. rewrite Hsz. simpl.
  unfold reshape at 1. rewrite Hsz.
  assert (Hp : (prod [s0; (s1 * s2)%nat] =? prod [s0; s1; s2])%nat = true).
  { apply Nat.eqb_eq. cbn [prod fold_right]. ring. }
  rewrite Hp. cbn [bind].
  unfold mean_dim1, std_dim1, reduce_dim1. cbn [size bind nth].
  unfold reshape at 1. cbn [size].
  replace (prod [s0; 1%nat] =? prod [s0])%nat with true
    by (symmetry; apply Nat.eqb_eq; cbn [prod fold_right]; ring).
  cbn [bind]. unfold reshape at 1. cbn [size].
  replace (prod [s0; 1%nat] =? prod [s0])%nat with true
    by (symmetry; apply Nat.eqb_eq; cbn [prod fold_right]; ring).
  cbn [bind].
  rewrite (tbin_column fsub _ _ s0 (s1 * s2)) by reflexivity. cbn [bind].
  rewrite (tbin_column fdiv _ _ s0 (s1 * s2)) by reflexivity. cbn [bind].
  unfold reshape. cbn [size tmap].
  replace (prod [s0; s1; s2] =? prod [s0; (s1 * s2)%nat])%nat with true
    by (symmetry; apply Nat.eqb_eq; cbn [prod fold_right]; ring).
  cbn [bind].
  eexists. split; [reflexivity|]. split; [reflexivity|].
  intros b h w Hb Hh Hw. unfold tmap. cbn [data size].
  rewrite (unravel_unflat s0 s1 s2 b h w Hh Hw).
  assert (Hj : (h * s2 + w < s1 * s2)%nat) by nia.
  assert (Hin : in_range [b; (h * s2 + w)%nat] [s0; (s1 * s2)%nat])
    by (repeat constructor; assumption).
  rewrite !(bidx_in_range _ _ Hin), !(bidx_column s0 b _ Hb).
  rewrite (unravel_flat s0 s1 s2 b _ Hj), !(unravel_column s0 b).
  assert (Hs2 : s2 <> O) by lia.
  rewrite Nat.div_add_l, (Nat.div_small w), Nat.add_0_r by lia.
  rewrite (Nat.add_comm (h * s2) w), Nat.Div0.mod_add, (Nat.mod_small w) by lia.
  unfold norm_value, flat_sample.
  assert (Hl : map (fun c => data x (unravel [s0; s1; s2]
                                       (ravel [s0; (s1 * s2)%nat] [b; c] 0)))
                   (seq 0 (s1 * s2)) =
               map (fun k => data x [b; (k / s2)%nat; (k mod s2)%nat])
                   (seq 0 (s1 * s2))).
  { apply map_ext_in. intros c Hc. apply in_seq in Hc.
    rewrite unravel_flat by lia. reflexivity. }
  rewrite Hl. reflexivity.
Qed.

(** On a finite sample with a non-zero standard deviation the result is
    the Gaussian cdf of the sample's own mean and deviation. *)
Lemma norm_value_finite (rs : list R) (r : R) :
  (2 <= length rs)%nat -> rstd rs <> 0 ->
  norm_value (map Some rs) (Some r) =
  Some (0.5 * (1 + erf ((r - rmean rs) / (rstd rs * sqrt 2)))).
Proof.
  intros Hlen Hs. unfold norm_value.
  assert (Hne : rs <> []) by (destruct rs; [simpl in Hlen; lia|discriminate]).
  rewrite (fmean_Some rs Hne), (fstd_Some rs Hlen). fold (rmean rs).
  rewrite fsqrt_Some by lra. cbn [fsub fmul flift2].
  rewrite fdiv_Some; [reflexivity|].
  pose proof sqrt2_pos. nra.
Qed.

(** With a zero or undefined standard deviation the quotient, hence the
    result, is not a finite number. *)
Lemma norm_value_degenerate (l : list fl) (v : fl) :
  fstd l = Some 0 \/ fstd l = None -> norm_value l v = None.
Proof.
  intros [E|E]; unfold norm_value; rewrite E.
  - rewrite fsqrt_Some by lra. cbn [fmul flift2]. rewrite Rmult_0_l, fdiv_zero.
    reflexivity.
  - cbn [fmul flift2]. destruct (fsub v (fmean l)); reflexivity.
Qed.

Lemma rsum_zeros (n : nat) : rsum (repeat 0 n) = 0.
Proof. induction n as [|n IH]; simpl; [reflexivity|]. rewrite IH. lra. Qed.

Lemma rsum_repeat (c : R) (n : nat) : rsum (repeat c n) = INR n * c.
Proof.
  induction n as [|n IH]; [simpl; ring|].
  change (rsum (repeat c (S n))) with (c + rsum (repeat c n)).
  rewrite IH, S_INR. ring.
Qed.

Lemma fstd_constant (c : R) (n : nat) :
  fstd (map Some (repeat c n)) = Some 0 \/ fstd (map Some (repeat c n)) = None.
Proof.
  destruct (le_lt_dec 2 n) as [Hn|Hn].
  - left. rewrite fstd_Some by (now rewrite repeat_length).
    f_equal. unfold rstd.
    assert (Hm : rmean (repeat c n) = c).
    { unfold rmean. rewrite rsum_repeat, repeat_length. field.
      apply not_0_INR. lia. }
    rewrite Hm, map_repeat.
    replace ((c - c) * (c - c)) with 0 by ring.
    rewrite rsum_zeros. unfold Rdiv. rewrite Rmult_0_l. apply sqrt_0.
  - right. unfold fstd. rewrite length_map, repeat_length.
    replace (n - 1)%nat with O by lia. apply (f_equal fsqrt (fdiv_zero _)).
Qed.

Lemma map_const_seq {A} (c : A) (a n : nat) :
  map (fun _ => c) (seq a n) = repeat c n.
Proof.
  revert a. induction n as [|n IH]; intros a; simpl; [reflexivity|].
  now rewrite IH.
Qed.

(** A sample whose values are all the same finite number is mapped to
    non-finite values. *)
Lemma Normalize2D_forward_constant_sample (x : tensor) (s0 s1 s2 b : nat) (c : R) :
  size x = [s0; s1; s2] -> (b < s0)%nat ->
  (forall h w, (h < s1)%nat -> (w < s2)%nat -> data x [b; h; w] = Some c) ->
  exists out,
    Normalize2D.forward (OTensor x) = Ok out /\
    size out = [s0; s1; s2] /\
    forall h w, (h < s1)%nat -> (w < s2)%nat -> data out [b; h; w] = None.
Proof.
  intros Hsz Hb Hconst.
  destruct (Normalize2D_forward_pixel x s0 s1 s2 Hsz) as (out & Hfw & Hosz & Hd).
  exists out. split; [exact Hfw|]. split; [exact Hosz|].
  intros h w Hh Hw. rewrite (Hd b h w Hb Hh Hw).
  apply norm_value_degenerate.
  assert (Hfs : flat_sample x s1 s2 b = map Some (repeat c (s1 * s2))).
  { unfold flat_sample. rewrite <- (map_const_seq c 0 (s1 * s2)), map_map.
    apply map_ext_in. intros k Hk. apply in_seq in Hk.
    assert (s2 <> O) by (intros ->; lia).
    apply Hconst.
    - apply Nat.Div0.div_lt_upper_bound. lia.
    - now apply Nat.mod_upper_bound. }
  rewrite Hfs. apply fstd_constant.
Qed.

(** Claim C6.  On the finite constant map [x_ones] the standard deviation is
    0, the quotient [(x - m) / (s * sqrt 2)] is [0 / 0], and every value
    [Normalize2D.forward] returns is non-finite: none lies in [[0, 1]]. *)
Theorem Normalize2D_forward_constant_not_in_unit_interval :
  exists out,
    Normalize2D.forward (OTensor x_ones) = Ok out /\
    size out = [1; 2; 2]%nat /\
    forall h w, (h < 2)%nat -> (w < 2)%nat ->
      data out [0%nat; h; w] = None /\
      ~ (exists v, data out [0%nat; h; w] = Some v /\ 0 <= v <= 1).
Proof.
  destruct (Normalize2D_forward_constant_sample x_ones 1 2 2 0 1 eq_refl
              ltac:(lia) ltac:(reflexivity)) as (out & Hfw & Hsz & Hd).
  exists out. split; [exact Hfw|]. split; [exact Hsz|].
  intros h w Hh Hw. split; [now apply Hd|].
  intros (v & Hv & _). rewrite (Hd h w Hh Hw) in Hv. discriminate.
Qed.

(** ** Combining saliency maps *)

(** With [weights=None] the constructor builds [map_num] weights 1.0. *)
Lemma CombineSaliencyMaps_init_None (H W L : positive) (mode : string) (mag : bool) :
  exists s,
    CombineSaliencyMaps.init [Z.pos H; Z.pos W] (Z.pos L) PyNone mode mag =
      Ok (CombineSaliencyMaps.mk (repeat (PyNum 1) (Pos.to_nat L)) (PyNum s)
                                 (Z.pos L) [Z.pos H; Z.pos W] mode mag) /\
    s = INR (Pos.to_nat L).
Proof.
  unfold CombineSaliencyMaps.init. cbn [length Nat.eqb assert bind nth Z.ltb Z.compare].
  cbn [Z.to_nat].
  assert (Hfold : forall n a,
             fold_left (fun acc w => acc <- acc ;; py_add acc w)
                       (repeat (PyNum 1) n) (Ok (PyNum a)) = Ok (PyNum (a + INR n))).
  { induction n as [|n IH]; intros a.
    - simpl. now rewrite Rplus_0_r.
    - cbn [repeat fold_left bind py_add]. rewrite IH, S_INR. do 2 f_equal. ring. }
  rewrite Hfold. cbn [bind]. eexists. split; [reflexivity|]. ring.
Qed.

(** Claim C3.  Whatever the other arguments, the constructor raises when
    [weights] is a scalar ([len] of a number) and when it is a one-element
    list (the list is compared with 0): it never returns the broadcast
    weight vector.  With valid sizes and count the exception is a
    [TypeError]. *)
Theorem CombineSaliencyMaps_init_single_weight_raises
        (output_size : list Z) (map_num : Z) (w : R) (mode : string) (mag : bool) :
  (exists e, CombineSaliencyMaps.init output_size map_num (PyNum w) mode mag = Raise e) /\
  (exists e, CombineSaliencyMaps.init output_size map_num (PyList [w]) mode mag = Raise e) /\
  CombineSaliencyMaps.init [224; 224]%Z 5%Z (PyNum w) mode mag = Raise TypeError /\
  CombineSaliencyMaps.init [224; 224]%Z 5%Z (PyList [w]) mode mag = Raise TypeError.
Proof.
  repeat split; try reflexivity;
    unfold CombineSaliencyMaps.init;
    destruct (assert (length output_size =? 2)%nat) as [[]|e]; cbn [bind];
      try (now eexists);
    destruct (assert (0 <? nth 0 output_size 0)%Z) as [[]|e]; cbn [bind];
      try (now eexists);
    destruct (assert (0 <? nth 1 output_size 0)%Z) as [[]|e]; cbn [bind];
      try (now eexists);
    destruct (assert (0 <? map_num)%Z) as [[]|e]; cbn [bind];
      try (now eexists).
Qed.

Lemma divmod_plane (b h w H W : nat) :
  (h < H)%nat -> (w < W)%nat ->
  ((b * (H * W) + (h * W + w)) / (H * W) = b)%nat /\
  ((b * (H * W) + (h * W + w)) mod (H * W) = h * W + w)%nat /\
  ((h * W + w) / W = h)%nat /\
  ((h * W + w) mod W = w)%nat.
Proof.
  intros Hh Hw.
  assert (Hlt : (h * W + w < H * W)%nat) by nia.
  repeat split.
  - rewrite Nat.div_add_l by lia. rewrite (Nat.div_small _ _ Hlt). lia.
  - rewrite Nat.add_comm, Nat.Div0.mod_add. now apply Nat.mod_small.
  - rewrite Nat.div_add_l by lia. rewrite (Nat.div_small _ _ Hw). lia.
  - rewrite Nat.add_comm, Nat.Div0.mod_add. now apply Nat.mod_small.
Qed.

Lemma unravel_squeeze (B H W b h w : nat) :
  (h < H)%nat -> (w < W)%nat ->
  unravel [B; 1%nat; H; W] (ravel [B; H; W] [b; h; w] 0) = [b; O; h; w].
Proof.
  intros Hh Hw. cbn [ravel unravel prod fold_right].
  destruct (divmod_plane b h w H W Hh Hw) as (E1 & E2 & E3 & E4).
  rewrite !Nat.mul_1_r, !Nat.mul_1_l, Nat.mul_0_l, Nat.add_0_l, Nat.div_1_r.
  replace ((b * H + h) * W + w)%nat with (b * (H * W) + (h * W + w))%nat by ring.
  rewrite E1, E2.
  assert (Hlt : (h * W + w < H * W)%nat) by nia.
  rewrite (Nat.div_small _ _ Hlt), (Nat.mod_small _ _ Hlt), E3, E4.
  reflexivity.
Qed.

Lemma unravel_unsqueeze (B H W b h w : nat) :
  (h < H)%nat -> (w < W)%nat ->
  unravel [B; H; W] (ravel [B; 1%nat; H; W] [b; O; h; w] 0) = [b; h; w].
Proof.
  intros Hh Hw. cbn [ravel unravel prod fold_right].
  destruct (divmod_plane b h w H W Hh Hw) as (E1 & E2 & E3 & E4).
  rewrite !Nat.mul_1_r, Nat.mul_0_l, Nat.add_0_l, Nat.add_0_r, Nat.div_1_r.
  replace ((b * H + h) * W + w)%nat with (b * (H * W) + (h * W + w))%nat by ring.
  rewrite E1, E2, E3, E4. reflexivity.
Qed.

Lemma unravel_stack1 (B H W b h w : nat) :
  (h < H)%nat -> (w < W)%nat ->
  unravel [B; 1%nat; 1%nat; H; W] (ravel [B; 1%nat; H; W] [b; O; h; w] 0) =
  [b; O; O; h; w].
Proof.
  intros Hh Hw. cbn [ravel unravel prod fold_right].
  destruct (divmod_plane b h w H W Hh Hw) as (E1 & E2 & E3 & E4).
  rewrite !Nat.mul_1_r, !Nat.mul_1_l, Nat.mul_0_l, Nat.add_0_l, Nat.add_0_r,
    Nat.div_1_r.
  replace ((b * H + h) * W + w)%nat with (b * (H * W) + (h * W + w))%nat by ring.
  rewrite E1, E2.
  assert (Hlt : (h * W + w < H * W)%nat) by nia.
  repeat (first [rewrite (Nat.div_small _ _ Hlt) | rewrite (Nat.mod_small _ _ Hlt)]).
  rewrite E3, E4.
  reflexivity.
Qed.

(** Resampling an axis to its own length reads every entry at its own
    position, with blending weight 0 for the neighbour. *)
Lemma src_index_same (n i : nat) :
  (i < n)%nat ->
  src_index n n i = (i, if (i <? n - 1)%nat then S i else i, 0).
Proof.
  intros Hi. unfold src_index. cbv zeta.
  replace (Z.max 0 (Z.of_nat n * (2 * Z.of_nat i + 1) - Z.of_nat n))
    with (Z.of_nat i * (2 * Z.of_nat n))%Z by lia.
  rewrite Z.div_mul by lia. rewrite Z.mod_mul by lia. rewrite Nat2Z.id.
  unfold Rdiv. rewrite Rmult_0_l. reflexivity.
Qed.

Lemma bilinear_same (x : tensor) (n c H W : nat) :
  size x = [n; c; H; W] -> (0 < H)%nat -> (0 < W)%nat -> finite x ->
  exists y,
    bilinear x H W = Ok y /\ size y = [n; c; H; W] /\
    forall b ch i j, (b < n)%nat -> (ch < c)%nat -> (i < H)%nat -> (j < W)%nat ->
      data y [b; ch; i; j] = data x [b; ch; i; j].
Proof.
  intros Hsz HH HW Hfin. unfold bilinear. rewrite Hsz.
  assert (Hc : ((0 <? H) && (0 <? W) && (0 <? H) && (0 <? W))%nat = true).
  { apply Nat.ltb_lt in HH, HW. now rewrite HH, HW. }
  rewrite Hc. eexists. split; [reflexivity|]. split; [reflexivity|].
  intros b ch i j Hb Hch Hi Hj. cbn [data].
  rewrite (src_index_same H i Hi), (src_index_same W j Hj).
  set (i1 := if (i <? H - 1)%nat then S i else i).
  set (j1 := if (j <? W - 1)%nat then S j else j).
  assert (Hi1 : (i1 < H)%nat).
  { unfold i1. destruct (Nat.ltb_spec i (H - 1)); lia. }
  assert (Hj1 : (j1 < W)%nat).
  { unfold j1. destruct (Nat.ltb_spec j (W - 1)); lia. }
  assert (Hget : forall i' j', (i' < H)%nat -> (j' < W)%nat ->
                               exists r, data x [b; ch; i'; j'] = Some r).
  { intros i' j' Hi' Hj'. apply Hfin. rewrite Hsz. repeat constructor; assumption. }
  destruct (Hget i j Hi Hj) as (r00 & ->).
  destruct (Hget i j1 Hi Hj1) as (r01 & ->).
  destruct (Hget i1 j Hi1 Hj) as (r10 & ->).
  destruct (Hget i1 j1 Hi1 Hj1) as (r11 & ->).
  cbn [fadd fmul flift2]. f_equal. ring.
Qed.

Lemma size_eqb_refl (s : list nat) : size_eqb s s = true.
Proof. unfold size_eqb. destruct (list_eq_dec Nat.eq_dec s s); congruence. Qed.

Lemma CombineSaliencyMaps_init_one_map (H W : positive) :
  CombineSaliencyMaps.init [Z.pos H; Z.pos W] 1 PyNone "bilinear" false =
  Ok (one_map_combiner H W).
Proof. reflexivity. Qed.

(** One finite map, the default weight 1.0, no squaring, and an output
    resolution equal to the map's: the combined map is the map itself and
    the stack holds it as its only layer. *)
Lemma CombineSaliencyMaps_forward_identity (M : tensor) (B : nat) (H W : positive) :
  size M = [B; Pos.to_nat H; Pos.to_nat W] -> finite M ->
  exists cm ww,
    CombineSaliencyMaps.forward (one_map_combiner H W) [M] = Ok (cm, ww) /\
    teq cm M /\
    size ww = [B; 1%nat; Pos.to_nat H; Pos.to_nat W] /\
    forall b h w, (b < B)%nat -> (h < Pos.to_nat H)%nat -> (w < Pos.to_nat W)%nat ->
      data ww [b; O; h; w] = data M [b; h; w].
Proof.
  intros Hsz Hfin.
  set (h := Pos.to_nat H) in *. set (w := Pos.to_nat W) in *.
  assert (Hh : (0 < h)%nat) by apply Pos2Nat.is_pos.
  assert (Hw : (0 < w)%nat) by apply Pos2Nat.is_pos.
  unfold CombineSaliencyMaps.forward, one_map_combiner.
  cbn [CombineSaliencyMaps.map_num CombineSaliencyMaps.output_size
       CombineSaliencyMaps.weight_sum length Z.of_nat Pos.of_succ_nat Z.eqb
       Pos.eqb assert bind getitem nth_error nth Z.to_nat seq fold_left].
  unfold rank. rewrite Hsz. cbn [length Nat.eqb assert bind nth].
  fold h. fold w.
  unfold CombineSaliencyMaps.step.
  cbn [getitem nth_error bind CombineSaliencyMaps.output_size
       CombineSaliencyMaps.resize_mode CombineSaliencyMaps.magnitude
       CombineSaliencyMaps.weights].
  rewrite Hsz. cbn [getitem nth_error bind].
  change (Pos.to_nat 1) with 1%nat.
  unfold reshape at 1. rewrite Hsz.
  replace (prod [B; 1%nat; h; w] =? prod [B; h; w])%nat with true
    by (symmetry; apply Nat.eqb_eq; cbn [prod fold_right]; ring).
  cbn [bind]. unfold interpolate.
  replace (String.eqb "bilinear" "bilinear") with true by reflexivity.
  cbn [Z.to_nat]. fold h. fold w.
  match goal with
  | |- context [bilinear ?x h w] =>
      destruct (bilinear_same x B 1 h w eq_refl Hh Hw) as (y & Hy & Hysz & Hyd)
  end.
  { intros idx Hidx. cbn [size data] in *.
    inversion Hidx as [|b sb ? ? Hb Hidx1]; subst.
    inversion Hidx1 as [|c sc ? ? Hc Hidx2]; subst.
    inversion Hidx2 as [|i si ? ? Hi Hidx3]; subst.
    inversion Hidx3 as [|j sj ? ? Hj Hidx4]; subst.
    inversion Hidx4; subst.
    replace c with O by lia.
    rewrite (unravel_unsqueeze B h w b i j Hi Hj).
    apply Hfin. rewrite Hsz. repeat constructor; assumption. }
  rewrite Hy. cbn [bind app tmul_py].
  unfold tbin_. rewrite tbin_same_eq by (cbn [size tmap zeros]; now rewrite Hysz).
  cbn [bind size zeros]. rewrite size_eqb_refl. cbn [bind tdiv_py].
  unfold reshape at 1. cbn [size tmap].
  replace (prod [B; h; w] =? prod [B; 1%nat; h; w])%nat with true
    by (symmetry; apply Nat.eqb_eq; cbn [prod fold_right]; ring).
  cbn [bind]. unfold stack_dim1. cbn [forallb]. rewrite size_eqb_refl, Hysz.
  cbn [andb bind length]. unfold reshape. cbn [size].
  replace (prod [B; 1%nat; h; w] =? prod [B; 1%nat; 1%nat; h; w])%nat with true
    by (symmetry; apply Nat.eqb_eq; cbn [prod fold_right]; ring).
  cbn [bind].
  eexists. eexists. split; [reflexivity|].
  split; [|split; [reflexivity|]].
  - split; [cbn [size]; now rewrite Hsz|].
    cbn [size]. intros idx Hidx.
    inversion Hidx as [|b sb ? ? Hb Hidx1]; subst.
    inversion Hidx1 as [|i si ? ? Hi Hidx2]; subst.
    inversion Hidx2 as [|j sj ? ? Hj Hidx3]; subst.
    inversion Hidx3; subst.
    cbn [data tmap zeros].
    rewrite (unravel_squeeze B h w b i j Hi Hj).
    assert (Hin : in_range [b; O; i; j] [B; 1%nat; h; w])
      by (repeat constructor; assumption || lia).
    rewrite (bidx_in_range _ _ Hin).
    rewrite (Hyd b O i j Hb ltac:(lia) Hi Hj). cbn [data].
    rewrite (unravel_unsqueeze B h w b i j Hi Hj).
    destruct (Hfin [b; i; j]) as (r & Hr).
    { rewrite Hsz. repeat constructor; assumption. }
    rewrite Hr. cbn [fmul fadd flift2]. rewrite fdiv_Some by lra.
    f_equal. field.
  - intros b i j Hb Hi Hj. cbn [data].
    rewrite (unravel_stack1 B h w b i j Hi Hj). cbn [nth_error].
    rewrite (Hyd b O i j Hb ltac:(lia) Hi Hj). cbn [data].
    now rewrite (unravel_unsqueeze B h w b i j Hi Hj).
Qed.

(** Claim C4.  The configuration of the claim cannot be built: with
    [map_num=1] and [weights=[1.0]] the constructor raises a [TypeError]
    (the one-element list is compared with 0), so no map is ever combined.
    The same sizes with the default [weights=None] do build the combiner
    with the single weight 1.0. *)
Theorem CombineSaliencyMaps_unit_weight_list_raises (H W : positive) :
  CombineSaliencyMaps.init [Z.pos H; Z.pos W] 1 (PyList [1]) "bilinear" false =
    Raise TypeError /\
  CombineSaliencyMaps.init [Z.pos H; Z.pos W] 1 PyNone "bilinear" false =
    Ok (one_map_combiner H W).
Proof. split; reflexivity. Qed.

(** ** Activation observers *)

Lemma map_nth_seq {A} (l : list A) (d : A) :
  map (fun k => nth k l d) (seq 0 (length l)) = l.
Proof.
  induction l as [|a l IH]; [reflexivity|].
  cbn [length seq map nth]. f_equal.
  rewrite <- seq_shift, map_map. exact IH.
Qed.

Lemma fold_append {A B} (f : A -> B) (ks : list A) (acc : list B) :
  fold_left (fun data n => data ++ [f n]) ks acc = acc ++ map f ks.
Proof.
  revert acc. induction ks as [|k ks IH]; intros acc; simpl.
  - now rewrite app_nil_r.
  - rewrite IH, <- app_assoc. reflexivity.
Qed.

Lemma CaptureLayerInput_call_data (self : CaptureLayerData.t) (i : list dtensor)
      (o : dtensor) :
  CaptureLayerData.device_matches self o = true ->
  CaptureLayerData.data (CaptureLayerInput.call self i o) =
  OList (map (fun x => CaptureLayerData.post_process self (value x)) i).
Proof.
  intros Hm. unfold CaptureLayerInput.call. rewrite Hm. cbn [CaptureLayerData.data].
  rewrite (fold_append
             (fun n => CaptureLayerData.post_process self
                         (value (nth n i (mkD (zeros []) ""))))).
  cbn [app]. f_equal.
  rewrite <- (map_nth_seq i (mkD (zeros []) "")) at 2.
  now rewrite map_map.
Qed.

Lemma hook_call_fields (h : hook) (ev : event) :
  CaptureLayerData.post_process (hook_state (hook_call h ev)) =
    CaptureLayerData.post_process (hook_state h) /\
  CaptureLayerData.device (hook_state (hook_call h ev)) =
    CaptureLayerData.device (hook_state h).
Proof.
  destruct h as [s|s]; cbn [hook_call hook_state];
    unfold CaptureLayerOutput.call, CaptureLayerInput.call;
    destruct (CaptureLayerData.device_matches s (snd ev)); split; reflexivity.
Qed.

Lemma passes_fields (h : hook) (events : list event) :
  CaptureLayerData.post_process (hook_state (passes h events)) =
    CaptureLayerData.post_process (hook_state h) /\
  CaptureLayerData.device (hook_state (passes h events)) =
    CaptureLayerData.device (hook_state h).
Proof.
  unfold passes. revert h. induction events as [|ev events IH]; intros h.
  - split; reflexivity.
  - cbn [fold_left]. destruct (IH (hook_call h ev)) as (E1 & E2).
    destruct (hook_call_fields h ev) as (F1 & F2).
    split; congruence.
Qed.

Lemma passes_snoc (h : hook) (events : list event) (ev : event) :
  passes h (events ++ [ev]) = hook_call (passes h events) ev.
Proof. unfold passes. now rewrite fold_left_app. Qed.

Lemma device_matches_dev (s : CaptureLayerData.t) (o : dtensor) :
  CaptureLayerData.device_matches s o =
  CaptureLayerData.device_matches
    (CaptureLayerData.init (CaptureLayerData.device s) detach) o.
Proof. reflexivity. Qed.

(** After any sequence of hook calls an observer stores what it captured
    at the last call on a matching device, and what it stored before if
    there was none. *)
Lemma passes_data (h : hook) (events : list event) :
  CaptureLayerData.data (hook_state (passes h events)) =
  match last_captured (CaptureLayerData.device (hook_state h)) events with
  | Some ev => captured h ev
  | None => CaptureLayerData.data (hook_state h)
  end.
Proof.
  induction events as [|ev events IH] using rev_ind; [reflexivity|].
  rewrite passes_snoc. unfold last_captured. rewrite rev_app_distr.
  cbn [rev app find].
  destruct (passes_fields h events) as (Hpp & Hdev).
  rewrite <- device_matches_dev.
  assert (Hm : CaptureLayerData.device_matches (hook_state (passes h events)) (snd ev) =
               CaptureLayerData.device_matches (hook_state h) (snd ev)).
  { unfold CaptureLayerData.device_matches. now rewrite Hdev. }
  destruct (CaptureLayerData.device_matches (hook_state h) (snd ev)) eqn:Hmatch.
  - unfold captured. rewrite <- Hpp.
    destruct h as [s|s]; destruct (passes _ events) as [s'|s'] eqn:Hp;
      cbn [hook_call hook_state] in *;
      try (exfalso; revert Hp; clear; unfold passes;
           generalize dependent s; induction events as [|e es IHes]; intros s;
           [discriminate|cbn [fold_left hook_call]; apply IHes]).
    + unfold CaptureLayerOutput.call. rewrite Hm. reflexivity.
    + now apply CaptureLayerInput_call_data.
  - fold (last_captured (CaptureLayerData.device (hook_state h)) events).
    rewrite <- IH.
    destruct (passes h events) as [s'|s']; cbn [hook_call hook_state] in *;
      unfold CaptureLayerOutput.call, CaptureLayerInput.call; rewrite Hm;
      reflexivity.
Qed.

Lemma py_index_nat (n i : nat) : (i < n)%nat -> py_index n (Z.of_nat i) = Ok i.
Proof.
  intros Hi. unfold py_index.
  destruct (Z.leb_spec 0 (Z.of_nat i)); [|lia].
  destruct (Z.ltb_spec (Z.of_nat i) (Z.of_nat n)); [|lia].
  cbn [andb]. now rewrite Nat2Z.id.
Qed.

Lemma get_nothing (s : CaptureLayerData.t) (idx : Z) :
  CaptureLayerData.data s = ONone -> CaptureLayerData.get s idx = Ok ONone.
Proof. intros E. unfold CaptureLayerData.get. now rewrite E. Qed.

Lemma get_tensor (s : CaptureLayerData.t) (t : tensor) (d : nat) (rest : list nat)
      (i : nat) :
  CaptureLayerData.data s = OTensor t -> size t = d :: rest -> (i < d)%nat ->
  CaptureLayerData.get s (Z.of_nat i) = Ok (OTensor (select0 t i)).
Proof.
  intros E Hsz Hi. unfold CaptureLayerData.get. rewrite E.
  cbn [obj_len obj_getitem]. rewrite Hsz. cbn [bind].
  destruct (Z.leb_spec (Z.of_nat i) (Z.of_nat d)); [|lia].
  now rewrite (py_index_nat d i Hi).
Qed.

Lemma get_list (s : CaptureLayerData.t) (l : list tensor) (i : nat) (x : tensor) :
  CaptureLayerData.data s = OList l -> nth_error l i = Some x ->
  CaptureLayerData.get s (Z.of_nat i) = Ok (OTensor x).
Proof.
  intros E Hx. unfold CaptureLayerData.get. rewrite E.
  cbn [obj_len obj_getitem bind].
  assert (Hi : (i < length l)%nat) by (apply nth_error_Some; congruence).
  destruct (Z.leb_spec (Z.of_nat i) (Z.of_nat (length l))); [|lia].
  rewrite (py_index_nat _ i Hi). cbn [bind]. unfold getitem. now rewrite Hx.
Qed.

(** At [idx = len] the comparison [idx <= len(self.data)] lets the index
    through and the item access raises. *)
Lemma get_at_length_raises (s : CaptureLayerData.t) (l : list tensor) :
  CaptureLayerData.data s = OList l ->
  CaptureLayerData.get s (Z.of_nat (length l)) = Raise IndexError.
Proof.
  intros E. unfold CaptureLayerData.get. rewrite E.
  cbn [obj_len obj_getitem bind].
  destruct (Z.leb_spec (Z.of_nat (length l)) (Z.of_nat (length l))); [|lia].
  unfold py_index.
  destruct (Z.ltb_spec (Z.of_nat (length l)) (Z.of_nat (length l))); [lia|].
  rewrite andb_false_r.
  destruct (Z.ltb_spec (Z.of_nat (length l)) 0); [lia|].
  rewrite andb_false_r. reflexivity.
Qed.

(** Claim C9, as the code has it.  After any sequence of hook calls a newly
    constructed observer stores what it captured at the last call whose
    output was on a matching device: the post-processed output tensor
    (output-side) or the list of the post-processed input tensors, one per
    argument position (input-side).  If there was no such call it stores
    nothing and [get] returns [None].  Otherwise [get(idx)], for [idx]
    below the length of the stored value, returns its item [idx]: the
    input tensor at position [idx], or the slice [idx] along the first axis
    of the captured output. *)
Theorem CaptureLayer_get_after_passes
        (output_side : bool) (dev : option string) (pp : tensor -> tensor)
        (events : list event) (idx : nat) :
  let h := passes (new_hook output_side dev pp) events in
  match last_captured dev events with
  | None =>
      CaptureLayerData.data (hook_state h) = ONone /\
      forall z, CaptureLayerData.get (hook_state h) z = Ok ONone
  | Some ev =>
      if output_side then
        CaptureLayerData.data (hook_state h) = OTensor (pp (value (snd ev))) /\
        forall d rest, size (pp (value (snd ev))) = d :: rest -> (idx < d)%nat ->
          CaptureLayerData.get (hook_state h) (Z.of_nat idx) =
          Ok (OTensor (select0 (pp (value (snd ev))) idx))
      else
        CaptureLayerData.data (hook_state h) =
          OList (map (fun x => pp (value x)) (fst ev)) /\
        forall x, nth_error (fst ev) idx = Some x ->
          CaptureLayerData.get (hook_state h) (Z.of_nat idx) =
          Ok (OTensor (pp (value x)))
  end.
Proof.
  intros h.
  pose proof (passes_data (new_hook output_side dev pp) events) as Hd.
  fold h in Hd.
  assert (Hdev : CaptureLayerData.device (hook_state (new_hook output_side dev pp)) = dev)
    by (destruct output_side; reflexivity).
  rewrite Hdev in Hd.
  destruct (last_captured dev events) as [ev|].
  - destruct output_side; cbn [new_hook captured hook_state] in Hd;
      cbn [CaptureLayerOutput.init CaptureLayerInput.init CaptureLayerData.init
           CaptureLayerData.post_process] in Hd.
    + split; [exact Hd|]. intros d rest Hsz Hi.
      now apply (get_tensor _ _ d rest).
    + split; [exact Hd|]. intros x Hx.
      apply (get_list _ (map (fun x => pp (value x)) (fst ev))); [exact Hd|].
      now rewrite nth_error_map, Hx.
  - assert (Hn : CaptureLayerData.data (hook_state h) = ONone).
    { rewrite Hd. destruct output_side; reflexivity. }
    split; [exact Hn|]. intros z. now apply get_nothing.
Qed.

Lemma CaptureLayer_get_after_passes_witness :
  CaptureLayerData.data
    (hook_state (passes (new_hook true None detach) [([], o_first); ([], o_second)]))
    = OTensor (value o_second) /\
  CaptureLayerData.get
    (hook_state (passes (new_hook true None detach) [([], o_first); ([], o_second)]))
    1%Z = Ok (OTensor (select0 (value o_second) 1)).
Proof.
  pose proof (CaptureLayer_get_after_passes true None detach
                [([], o_first); ([], o_second)] 1) as H.
  cbn zeta in H. change (last_captured None _) with (Some ([] : list dtensor, o_second)) in H.
  cbv iota in H. destruct H as (Hd & Hg).
  split; [exact Hd|]. apply (Hg 2%nat [3%nat]); [reflexivity|lia].
Defined.

(** The claim as stated fails for [get]: an output-side observer that has
    captured a tensor of size [2; 3] returns from [get()] the slice of
    size [3] at position 0, not the captured tensor; and after a later pass on
    a device that does not match, [get()] still returns that slice of the
    earlier capture, not [None]. *)
Lemma CaptureLayerOutput_get_not_captured_tensor :
  let obs := passes (new_hook true (Some "cuda:0"%string) detach) [([], o_first)] in
  let obs' := passes (new_hook true (Some "cuda:0"%string) detach)
                     [([], o_first); ([], o_second)] in
  CaptureLayerData.data (hook_state obs) = OTensor (value o_first) /\
  CaptureLayerData.get (hook_state obs) 0%Z = Ok (OTensor (select0 (value o_first) 0)) /\
  size (select0 (value o_first) 0) = [3%nat] /\
  CaptureLayerData.get (hook_state obs) 0%Z <> Ok (OTensor (value o_first)) /\
  CaptureLayerData.device_matches (hook_state obs) o_second = false /\
  CaptureLayerData.get (hook_state obs') 0%Z = Ok (OTensor (select0 (value o_first) 0)) /\
  CaptureLayerData.get (hook_state obs') 0%Z <> Ok ONone.
Proof.
  cbv zeta. repeat split; try reflexivity.
  - intros E. apply (f_equal (fun r => match r with
                                       | Ok (OTensor t) => size t
                                       | _ => []
                                       end)) in E.
    cbn in E. discriminate.
  - discriminate.
Qed.

(** *** Results of the combiner and in-place accumulation *)

Lemma bind_Ok {A B} (m : result A) (k : A -> result B) (b : B) :
  bind m k = Ok b -> exists a, m = Ok a /\ k a = Ok b.
Proof. destruct m as [a|e]; [|discriminate]. intros H. now exists a. Qed.

Lemma reshape_size (t : tensor) (s : list nat) (t' : tensor) :
  reshape t s = Ok t' -> size t' = s.
Proof.
  unfold reshape. destruct (prod s =? prod (size t))%nat; [|discriminate].
  intros H. now injection H as <-.
Qed.

(** The sizes of what [CombineSaliencyMaps.forward] returns. *)
Lemma CombineSaliencyMaps_forward_sizes (g : CombineSaliencyMaps.t)
      (smaps : list tensor) (cm ww : tensor) :
  CombineSaliencyMaps.forward g smaps = Ok (cm, ww) ->
  exists bn,
    size cm = [bn; Z.to_nat (nth 0 (CombineSaliencyMaps.output_size g) 0%Z);
               Z.to_nat (nth 1 (CombineSaliencyMaps.output_size g) 0%Z)] /\
    size ww = [bn; Z.to_nat (CombineSaliencyMaps.map_num g);
               Z.to_nat (nth 0 (CombineSaliencyMaps.output_size g) 0%Z);
               Z.to_nat (nth 1 (CombineSaliencyMaps.output_size g) 0%Z)].
Proof.
  unfold CombineSaliencyMaps.forward. intros H.
  apply bind_Ok in H as (_ & _ & H).
  apply bind_Ok in H as (smaps0 & _ & H).
  apply bind_Ok in H as (_ & _ & H).
  cbv zeta in H.
  apply bind_Ok in H as ([cm0 ww0] & _ & H).
  apply bind_Ok in H as (cm1 & _ & H).
  apply bind_Ok in H as (cm2 & Hcm & H).
  apply bind_Ok in H as (ww1 & _ & H).
  apply bind_Ok in H as (ww2 & Hww & H).
  injection H as <- <-.
  exists (nth 0 (size smaps0) O).
  split; [exact (reshape_size _ _ _ Hcm)|exact (reshape_size _ _ _ Hww)].
Qed.

Lemma bshape_rev_lead (l : list nat) (d : nat) :
  bshape_rev (l ++ [1%nat]) (l ++ [d]) = Some (l ++ [d]).
Proof.
  induction l as [|x l IH]; cbn [app bshape_rev].
  - destruct (Nat.eqb_spec 1 d) as [<-|_]; reflexivity.
  - rewrite IH, Nat.eqb_refl. reflexivity.
Qed.

Lemma broadcast_shapes_lead (d : nat) (tl : list nat) :
  broadcast_shapes (1%nat :: tl) (d :: tl) = Some (d :: tl).
Proof.
  unfold broadcast_shapes. cbn [rev]. rewrite bshape_rev_lead. cbn [option_map].
  rewrite rev_app_distr, rev_involutive. reflexivity.
Qed.

Lemma size_eqb_true (a b : list nat) : size_eqb a b = true -> a = b.
Proof.
  unfold size_eqb. destruct (list_eq_dec Nat.eq_dec a b); [auto|discriminate].
Qed.

Lemma tzip_data op a x idx :
  in_range idx (size a) -> data (tzip op a x) idx = op (data a idx) (data x idx).
Proof. intros H. cbn [tzip data]. now rewrite (bidx_in_range _ _ H). Qed.

Lemma tbin_tzip op a x : size x = size a -> tbin op a x = Ok (tzip op a x).
Proof. apply tbin_same_eq. Qed.

Lemma tbin__tzip op a x : size x = size a -> tbin_ op a x = Ok (tzip op a x).
Proof.
  intros H. unfold tbin_. rewrite (tbin_tzip op a x H). cbn [bind tzip size].
  now rewrite size_eqb_refl.
Qed.

(** An in-place update of an accumulator whose leading axis has length 1
    succeeds only with an operand of the same size. *)
Lemma tbin__lead_inv op a x a' (d : nat) (tl : list nat) :
  size a = 1%nat :: tl -> size x = d :: tl ->
  tbin_ op a x = Ok a' -> d = 1%nat /\ a' = tzip op a x.
Proof.
  intros Ha Hx. unfold tbin_, tbin. rewrite Ha, Hx, broadcast_shapes_lead.
  cbn [bind size]. destruct (size_eqb (d :: tl) (1%nat :: tl)) eqn:Hs; [|discriminate].
  apply size_eqb_true in Hs. injection Hs as ->.
  intros H. injection H as <-. split; [reflexivity|].
  unfold tzip. now rewrite Ha.
Qed.

Lemma CombineSaliencyMaps_init_fields os mn w mode mag g :
  CombineSaliencyMaps.init os mn w mode mag = Ok g ->
  CombineSaliencyMaps.output_size g = os /\ CombineSaliencyMaps.map_num g = mn /\
  CombineSaliencyMaps.resize_mode g = mode /\ CombineSaliencyMaps.magnitude g = mag.
Proof.
  unfold CombineSaliencyMaps.init. intros H.
  apply bind_Ok in H as (_ & _ & H).
  apply bind_Ok in H as (_ & _ & H).
  apply bind_Ok in H as (_ & _ & H).
  apply bind_Ok in H as (_ & _ & H).
  apply bind_Ok in H as (ws & _ & H).
  apply bind_Ok in H as (sum & _ & H).
  injection H as <-. now repeat split.
Qed.

Lemma fadd_assoc (a b c : fl) : fadd (fadd a b) c = fadd a (fadd b c).
Proof.
  destruct a, b, c; cbn; try reflexivity. f_equal. ring.
Qed.

Lemma fold_left_fadd (l : list fl) (a : fl) : fold_left fadd l a = fadd a (fsum l).
Proof.
  revert a. induction l as [|x l IH]; intros a.
  - destruct a; cbn; [f_equal; ring|reflexivity].
  - cbn [fold_left]. rewrite IH, fadd_assoc. reflexivity.
Qed.

Lemma fadd_0_l (a : fl) : fadd (Some 0) a = a.
Proof. destruct a; cbn; [f_equal; ring|reflexivity]. Qed.

(** ** The noise aggregator *)

Section Aggregator.

Import SmoothGrad.

Variable E : Type.
Variable normal : fl -> list nat -> E -> result tensor * E.
Variable model : tensor -> E -> result unit * (list (list event) * E).

Local Abbreviation iteration := (SmoothGrad.iteration E normal model).
Local Abbreviation body := (SmoothGrad.body E normal model).
Local Abbreviation call := (SmoothGrad.call E normal model).
Local Abbreviation state := (SmoothGrad.state E).

Lemma iteration_Ok self g r sd st c s t st' :
    iteration self g r sd st = (Ok (c, s, t), st') <->
    iteration_steps E normal model self g r sd st c s t st'.
Proof.
    unfold SmoothGrad.iteration, iteration_steps, mbind, load, draw, run_model, lift,
      get_hooks, ret.
    destruct (getitem (heap st) r) as [x|e] eqn:Hx.
    2:{ split; [discriminate|]. intros (x & ? & ? & ? & ? & ? & H & _). discriminate. }
    destruct (normal sd (size x) (ext st)) as [[noise|e] e1] eqn:Hn.
    2:{ split; [discriminate|].
        intros (x' & ? & ? & ? & ? & ? & H & H' & _).
        injection H as <-. rewrite Hn in H'. discriminate. }
    cbn [heap hooks ext].
    destruct (tbin fadd x noise) as [t0|e] eqn:Ht.
    2:{ split; [discriminate|].
        intros (x' & n' & ? & ? & ? & ? & H & H' & H'' & _).
        injection H as <-. rewrite Hn in H'. injection H' as <- <-.
        rewrite Ht in H''. discriminate. }
    destruct (model t0 e1) as [[[]|e] [evs e2]] eqn:Hm.
    2:{ split; [discriminate|].
        intros (x' & n' & ? & ? & ? & ? & H & H' & H'' & H3 & _).
        injection H as <-. rewrite Hn in H'. injection H' as <- <-.
        rewrite Ht in H''. injection H'' as <-. rewrite Hm in H3. discriminate. }
    cbn [heap hooks ext].
    destruct (mapM (score self) (fire (hooks st) evs)) as [sm|e] eqn:Hs.
    2:{ split; [discriminate|].
        intros (x' & n' & ? & ? & ? & ? & H & H' & H'' & H3 & H4 & _).
        injection H as <-. rewrite Hn in H'. injection H' as <- <-.
        rewrite Ht in H''. injection H'' as <-. rewrite Hm in H3.
        injection H3 as <- <-. rewrite Hs in H4. discriminate. }
    destruct (CombineSaliencyMaps.forward g sm) as [[c0 s0]|e] eqn:Hf.
    2:{ split; [discriminate|].
        intros (x' & n' & ? & ? & ? & ? & H & H' & H'' & H3 & H4 & H5 & _).
        injection H as <-. rewrite Hn in H'. injection H' as <- <-.
        rewrite Ht in H''. injection H'' as <-. rewrite Hm in H3.
        injection H3 as <- <-. rewrite Hs in H4. injection H4 as <-.
        rewrite Hf in H5. discriminate. }
    split.
    - intros H. injection H as <- <- <- <-.
      exists x, noise, e1, evs, e2, sm. repeat split; assumption.
    - intros (x' & n' & e1' & evs' & e2' & sm' & H & H' & H'' & H3 & H4 & H5 & H6).
      injection H as <-. rewrite Hn in H'. injection H' as <- <-.
      rewrite Ht in H''. injection H'' as <-. rewrite Hm in H3.
      injection H3 as <- <-. rewrite Hs in H4. injection H4 as <-.
      rewrite Hf in H5. injection H5 as <- <-. now subst st'.
Qed.

  (** Whatever its outcome, a step leaves the heap as it was. *)
Lemma iteration_heap self g r sd st res st' :
    iteration self g r sd st = (res, st') -> heap st' = heap st.
Proof.
    unfold SmoothGrad.iteration, mbind, load, draw, run_model, lift, get_hooks, ret.
    destruct (getitem (heap st) r) as [x|e]; [|intros H; now injection H as <- <-].
    destruct (normal sd (size x) (ext st)) as [[noise|e] e1];
      [|intros H; now injection H as <- <-].
    cbn [heap hooks ext].
    destruct (tbin fadd x noise) as [t0|e]; [|intros H; now injection H as <- <-].
    destruct (model t0 e1) as [[[]|e] [evs e2]];
      [|intros H; now injection H as <- <-].
    cbn [heap hooks ext].
    destruct (mapM (score self) (fire (hooks st) evs)) as [sm|e];
      [|intros H; now injection H as <- <-].
    destruct (CombineSaliencyMaps.forward g sm) as [[c0 s0]|e];
      intros H; now injection H as <- <-.
Qed.

(** *** The heap *)

Lemma upd_length {A} (r : nat) (a : A) (l : list A) : length (upd r a l) = length l.
Proof.
  revert r. induction l as [|b l IH]; intros [|r]; simpl; try reflexivity.
  now rewrite IH.
Qed.

Lemma upd_other {A} (r k : nat) (a : A) (l : list A) :
  k <> r -> nth_error (upd r a l) k = nth_error l k.
Proof.
  revert r k. induction l as [|b l IH]; intros [|r] [|k] Hk; simpl;
    try reflexivity; try congruence.
  apply IH. congruence.
Qed.

Lemma upd_same {A} (r : nat) (a : A) (l : list A) :
  (r < length l)%nat -> nth_error (upd r a l) r = Some a.
Proof.
  revert r. induction l as [|b l IH]; intros [|r] Hr; simpl in *; try lia.
  - reflexivity.
  - apply IH. lia.
Qed.

Lemma same_but_refl P (st : state) : same_but P st st.
Proof. split; [reflexivity|]. intros; reflexivity. Qed.

Lemma same_but_trans P (st1 st2 st3 : state) :
  same_but P st1 st2 -> same_but P st2 st3 -> same_but P st1 st3.
Proof.
  intros (L1 & H1) (L2 & H2). split; [congruence|].
  intros k Hk. rewrite (H2 k Hk). now apply H1.
Qed.

Lemma same_but_heap_eq P (st st' : state) : heap st' = heap st -> same_but P st st'.
Proof. intros Hh. split; [now rewrite Hh|]. intros. now rewrite Hh. Qed.

Lemma iadd_same_but (P : nat -> Prop) r x (st : state) res st' :
  P r -> iadd r x st = (res, st') ->
  same_but P st st' /\ hooks st' = hooks st /\ ext st' = ext st.
Proof.
  intros HP. unfold iadd, mbind, load, lift, store.
  destruct (getitem (heap st) r) as [a|e].
  2:{ intros H. injection H as <- <-. split; [apply same_but_refl|now split]. }
  destruct (tbin_ fadd a x) as [a'|e]; intros H; injection H as <- <-.
  - split; [|now split]. split; cbn [heap].
    + apply upd_length.
    + intros k Hk. apply upd_other. intros ->. contradiction.
  - split; [apply same_but_refl|now split].
Qed.

Lemma idiv_same_but (P : nat -> Prop) r n (st : state) res st' :
  P r -> idiv r n st = (res, st') ->
  same_but P st st' /\ hooks st' = hooks st /\ ext st' = ext st.
Proof.
  intros HP. unfold idiv, mbind, load, store.
  destruct (getitem (heap st) r) as [a|e]; intros H; injection H as <- <-.
  - split; [|now split]. split; cbn [heap].
    + apply upd_length.
    + intros k Hk. apply upd_other. intros ->. contradiction.
  - split; [apply same_but_refl|now split].
Qed.

Lemma same_targets_iff acc acc' k :
  same_targets acc acc' -> (targets acc' k <-> targets acc k).
Proof.
  destruct acc, acc'; cbn; try tauto. intros (-> & ->). tauto.
Qed.

Lemma body_same_but self g r sd acc imgs st res st' :
  body self g r sd (acc, imgs) st = (res, st') ->
  same_but (targets acc) st st' /\
  forall acc' imgs', res = Ok (acc', imgs') -> same_targets acc acc'.
Proof.
  unfold SmoothGrad.body. unfold mbind at 1.
  destruct (iteration self g r sd st) as [[[[c s] t]|e] st1] eqn:Hit.
  2:{ intros H. injection H as <- <-. split.
      - apply same_but_heap_eq. eapply iteration_heap; eassumption.
      - discriminate. }
  pose proof (iteration_heap _ _ _ _ _ _ _ Hit) as Hh1.
  assert (Hsb1 : same_but (targets acc) st st1) by now apply same_but_heap_eq.
  destruct acc as [oc os|r1 r2].
  - unfold ret. intros H. injection H as <- <-. split; [exact Hsb1|].
    intros acc' imgs' H. injection H as <- <-. exact I.
  - destruct (magnitude self).
    + unfold mbind at 1, lift.
      destruct (tbin fmul c c) as [c2|e].
      2:{ intros H. injection H as <- <-. split; [exact Hsb1|discriminate]. }
      unfold mbind at 1.
      destruct (iadd r1 c2 st1) as [[[]|e] st2] eqn:Hi1;
        destruct (iadd_same_but (targets (Sums r1 r2)) _ _ _ _ _
                    (or_introl eq_refl) Hi1) as (Hsb2 & _).
      2:{ intros H. injection H as <- <-.
          split; [eapply same_but_trans; eassumption|discriminate]. }
      unfold mbind at 1, lift.
      destruct (tbin fmul s s) as [s2|e].
      2:{ intros H. injection H as <- <-.
          split; [eapply same_but_trans; eassumption|discriminate]. }
      intros H.
      assert (Hsb3 : same_but (targets (Sums r1 r2)) st st2)
        by (eapply same_but_trans; eassumption).
      unfold mbind in H. destruct (iadd r2 s2 st2) as [[[]|e] st4] eqn:Hi.
      * unfold ret in H. injection H as <- <-.
        destruct (iadd_same_but (targets (Sums r1 r2)) _ _ _ _ _
                    (or_intror eq_refl) Hi) as (Hsb' & _).
        split; [eapply same_but_trans; eassumption|].
        intros acc' imgs' H. injection H as <- <-. now split.
      * injection H as <- <-.
        destruct (iadd_same_but (targets (Sums r1 r2)) _ _ _ _ _
                    (or_intror eq_refl) Hi) as (Hsb' & _).
        split; [eapply same_but_trans; eassumption|]. discriminate.
    + unfold mbind at 1.
      destruct (iadd r1 c st1) as [[[]|e] st2] eqn:Hi1;
        destruct (iadd_same_but (targets (Sums r1 r2)) _ _ _ _ _
                    (or_introl eq_refl) Hi1) as (Hsb2 & _).
      2:{ intros H. injection H as <- <-.
          split; [eapply same_but_trans; eassumption|discriminate]. }
      intros H.
      assert (Hsb3 : same_but (targets (Sums r1 r2)) st st2)
        by (eapply same_but_trans; eassumption).
      unfold mbind in H. destruct (iadd r2 s st2) as [[[]|e] st4] eqn:Hi.
      * unfold ret in H. injection H as <- <-.
        destruct (iadd_same_but (targets (Sums r1 r2)) _ _ _ _ _
                    (or_intror eq_refl) Hi) as (Hsb' & _).
        split; [eapply same_but_trans; eassumption|].
        intros acc' imgs' H. injection H as <- <-. now split.
      * injection H as <- <-.
        destruct (iadd_same_but (targets (Sums r1 r2)) _ _ _ _ _
                    (or_intror eq_refl) Hi) as (Hsb' & _).
        split; [eapply same_but_trans; eassumption|]. discriminate.
Qed.

Lemma loop_same_but self g r sd n acc imgs st res st' :
  repeatM n (body self g r sd) (acc, imgs) st = (res, st') ->
  same_but (targets acc) st st' /\
  forall acc' imgs', res = Ok (acc', imgs') -> same_targets acc acc'.
Proof.
  revert acc imgs st. induction n as [|n IH]; intros acc imgs st.
  - cbn [repeatM]. unfold ret. intros H. injection H as <- <-.
    split; [apply same_but_refl|]. intros acc' imgs' H. injection H as <- <-.
    destruct acc; cbn; auto.
  - cbn [repeatM]. unfold mbind.
    destruct (body self g r sd (acc, imgs) st) as [[[acc1 imgs1]|e] st1] eqn:Hb;
      destruct (body_same_but _ _ _ _ _ _ _ _ _ Hb) as (Hsb & Hst).
    + intros H. destruct (IH _ _ _ H) as (Hsb' & Hst').
      specialize (Hst _ _ eq_refl). split.
      * eapply same_but_trans; [exact Hsb|].
        destruct Hsb' as (L & Hk). split; [exact L|].
        intros k Hn. apply Hk. now rewrite (same_targets_iff _ _ k Hst).
      * intros acc' imgs' Hres. specialize (Hst' _ _ Hres).
        destruct acc, acc1, acc'; cbn in *; try tauto.
        destruct Hst, Hst'. split; congruence.
    + intros H. injection H as <- <-. split; [exact Hsb|discriminate].
Qed.

Lemma prefix_of_nth {A} (h h' : list A) :
  (length h <= length h')%nat ->
  (forall k, (k < length h)%nat -> nth_error h' k = nth_error h k) ->
  h' = h ++ skipn (length h) h'.
Proof.
  revert h'. induction h as [|a h IH]; intros h' Hlen Hnth; [reflexivity|].
  destruct h' as [|a' h']; [simpl in Hlen; lia|].
  pose proof (Hnth O ltac:(simpl; lia)) as H0. injection H0 as ->.
  cbn [length skipn app]. f_equal. apply IH.
  - simpl in Hlen. lia.
  - intros k Hk. apply (Hnth (S k)). simpl. lia.
Qed.

Lemma same_but_prefix (P : nat -> Prop) (h0 : list tensor) (st st' : state) :
  same_but P st st' ->
  (forall k, P k -> (length h0 <= k)%nat) ->
  (exists l, heap st = h0 ++ l) ->
  exists l', heap st' = h0 ++ l'.
Proof.
  intros (L & Hk) HP (l & Hl).
  exists (skipn (length h0) (heap st')). apply prefix_of_nth.
  - rewrite L, Hl, length_app. lia.
  - intros k Hlt. rewrite Hk.
    + rewrite Hl. now apply nth_error_app1.
    + intros HPk. specialize (HP k HPk). lia.
Qed.

(** Claim C10.  Whatever the network and the random generator do, and
    whether the call returns or raises, the heap after [__call__] is the heap
    before it followed by newly created tensors: no tensor that existed
    before the call, the caller's input among them, has been written. *)
Theorem SmoothGrad_call_preserves_existing_tensors
        (self : SmoothGrad.t) (in_tensor : nat) (weights : pyval) (debug : bool)
        (st : state) :
  exists fresh,
    heap (snd (call self in_tensor weights debug st)) = heap st ++ fresh /\
    forall x, nth_error (heap st) in_tensor = Some x ->
              nth_error (heap (snd (call self in_tensor weights debug st))) in_tensor
              = Some x.
Proof.
  assert (Hgoal : exists fresh,
             heap (snd (call self in_tensor weights debug st)) = heap st ++ fresh).
  2:{ destruct Hgoal as (fresh & Hf). exists fresh. split; [exact Hf|].
      intros x Hx. rewrite Hf, nth_error_app1; [exact Hx|].
      apply nth_error_Some. congruence. }
  assert (Hnil : exists fresh, heap st = heap st ++ fresh)
    by (exists []; now rewrite app_nil_r).
  unfold SmoothGrad.call. unfold mbind at 1, load.
  destruct (getitem (heap st) in_tensor) as [x|e]; [|exact Hnil].
  unfold mbind at 1, lift.
  destruct (getitem (size x) 2) as [in_height|e]; [|exact Hnil].
  unfold mbind at 1, lift.
  destruct (getitem (size x) 3) as [in_width|e]; [|exact Hnil].
  unfold mbind at 1, get_hooks.
  unfold mbind at 1, lift.
  destruct (CombineSaliencyMaps.init _ _ _ _ _) as [g|e]; [|exact Hnil].
  unfold mbind at 1, lift.
  destruct (tmax x) as [mx|e]; [|exact Hnil].
  unfold mbind at 1, lift.
  destruct (tmin x) as [mn|e]; [|exact Hnil].
  set (sd := fmul _ _).
  destruct debug.
  - unfold mbind at 1, ret at 1. unfold mbind.
    destruct (repeatM _ _ _ st) as [[[acc imgs]|e] st1] eqn:Hloop;
      destruct (loop_same_but _ _ _ _ _ _ _ _ _ _ Hloop) as (Hsb & Hst).
    + specialize (Hst _ _ eq_refl). destruct acc; [|contradiction].
      unfold ret. cbn [snd].
      apply (same_but_prefix _ (heap st) _ _ Hsb); [intros k []|exact Hnil].
    + cbn [snd].
      apply (same_but_prefix _ (heap st) _ _ Hsb); [intros k []|exact Hnil].
  - unfold mbind at 1. unfold mbind at 1, alloc at 1. unfold mbind at 1, alloc at 1.
    unfold ret at 1. cbn [heap hooks ext].
    set (st0 := mkState _ _ _).
    set (r1 := length (heap st)). set (r2 := length (heap st ++ [_])).
    assert (Hst0 : exists l, heap st0 = heap st ++ l).
    { unfold st0. cbn [heap]. rewrite <- app_assoc. eexists. reflexivity. }
    assert (HP : forall k, targets (Sums r1 r2) k -> (length (heap st) <= k)%nat).
    { intros k [->| ->]; unfold r1, r2; [lia|]. rewrite length_app. lia. }
    unfold mbind.
    destruct (repeatM _ _ _ st0) as [[[acc imgs]|e] st1] eqn:Hloop;
      destruct (loop_same_but _ _ _ _ _ _ _ _ _ _ Hloop) as (Hsb & Hst).
    + specialize (Hst _ _ eq_refl). destruct acc as [|r1' r2']; [contradiction|].
      destruct Hst as (<- & <-).
      destruct (idiv r1 (iters self) st1) as [[[]|e] st2] eqn:Hd1;
        destruct (idiv_same_but (targets (Sums r1 r2)) _ _ _ _ _
                    (or_introl eq_refl) Hd1) as (Hsb1 & _).
      * destruct (idiv r2 (iters self) st2) as [[[]|e] st3] eqn:Hd2;
          destruct (idiv_same_but (targets (Sums r1 r2)) _ _ _ _ _
                      (or_intror eq_refl) Hd2) as (Hsb2 & _);
          cbn [snd ret];
          apply (same_but_prefix (targets (Sums r1 r2)) (heap st) st0);
          try assumption;
          (eapply same_but_trans; [exact Hsb|]);
          (eapply same_but_trans; [exact Hsb1|exact Hsb2]).
      * cbn [snd].
        apply (same_but_prefix (targets (Sums r1 r2)) (heap st) st0);
          try assumption.
        eapply same_but_trans; [exact Hsb|exact Hsb1].
    + cbn [snd].
      apply (same_but_prefix (targets (Sums r1 r2)) (heap st) st0); assumption.
Qed.

(** *** One turn of the loop *)

Lemma getitem_nth {A} (l : list A) (r : nat) (a : A) :
  nth_error l r = Some a -> getitem l r = Ok a.
Proof. intros H. unfold getitem. now rewrite H. Qed.

Lemma getitem_Ok {A} (l : list A) (r : nat) (a : A) :
  getitem l r = Ok a -> nth_error l r = Some a.
Proof. unfold getitem. destruct (nth_error l r); [|discriminate]. now intros [= ->]. Qed.

Lemma body_debug self g r sd oc os imgs st acc' imgs' st' :
  body self g r sd (Debug oc os, imgs) st = (Ok (acc', imgs'), st') <->
  exists c s t,
    iteration_steps E normal model self g r sd st c s t st' /\
    acc' = Debug (oc ++ [c]) (os ++ [s]) /\ imgs' = imgs ++ [t].
Proof.
  unfold SmoothGrad.body, mbind.
  destruct (iteration self g r sd st) as [[[[c s] t]|e] st1] eqn:Hit.
  - apply iteration_Ok in Hit. unfold ret. split.
    + intros H. injection H as <- <- <-. exists c, s, t. now repeat split.
    + intros (c' & s' & t' & Hst & -> & ->).
      apply iteration_Ok in Hit, Hst. rewrite Hit in Hst.
      now injection Hst as <- <- <- <-.
  - split; [discriminate|].
    intros (c' & s' & t' & Hst & _). apply iteration_Ok in Hst.
    rewrite Hit in Hst. discriminate.
Qed.

Lemma sq_t_size mag c : size (sq_t mag c) = size c.
Proof. destruct mag; reflexivity. Qed.

Lemma sq_t_data mag c idx :
  in_range idx (size c) ->
  data (sq_t mag c) idx = if mag then fmul (data c idx) (data c idx) else data c idx.
Proof. intros H. destruct mag; [now apply tzip_data|reflexivity]. Qed.

Lemma iadd_lead (r : nat) (a x : tensor) (d : nat) (tl : list nat) (st : state) :
  nth_error (heap st) r = Some a -> size a = 1%nat :: tl -> size x = d :: tl ->
  forall u st', iadd r x st = (Ok u, st') <->
                d = 1%nat /\
                st' = mkState (upd r (tzip fadd a x) (heap st)) (hooks st) (ext st).
Proof.
  intros Hr Ha Hx u st'. unfold iadd, mbind, load, lift, store.
  rewrite (getitem_nth _ _ _ Hr).
  destruct (tbin_ fadd a x) as [a'|e] eqn:Hb.
  - destruct (tbin__lead_inv _ _ _ _ _ _ Ha Hx Hb) as (-> & ->).
    destruct u. split.
    + intros H. injection H as <-. now split.
    + intros (_ & ->). reflexivity.
  - split; [discriminate|]. intros (-> & _).
    rewrite tbin__tzip in Hb by congruence. discriminate.
Qed.

Lemma body_sums self g r sd r1 r2 imgs st acc' imgs' st' a1 a2 H W L :
  returns_sizes g H W L ->
  nth_error (heap st) r1 = Some a1 -> nth_error (heap st) r2 = Some a2 ->
  r1 <> r2 -> size a1 = [1%nat; H; W] -> size a2 = [1%nat; L; H; W] ->
  body self g r sd (Sums r1 r2, imgs) st = (Ok (acc', imgs'), st') <->
  exists c s t st1,
    iteration_steps E normal model self g r sd st c s t st1 /\
    size c = [1%nat; H; W] /\ size s = [1%nat; L; H; W] /\
    acc' = Sums r1 r2 /\ imgs' = imgs /\
    st' = mkState (upd r2 (tzip fadd a2 (sq_t (magnitude self) s))
                       (upd r1 (tzip fadd a1 (sq_t (magnitude self) c)) (heap st)))
                  (hooks st1) (ext st1).
Proof.
  intros Hg Hr1 Hr2 Hne Ha1 Ha2.
  unfold SmoothGrad.body. unfold mbind at 1.
  destruct (iteration self g r sd st) as [[[[c s] t]|e] st1] eqn:Hit.
  2:{ split; [discriminate|].
      intros (c' & s' & t' & st1' & Hst & _). apply iteration_Ok in Hst.
      rewrite Hit in Hst. discriminate. }
  pose proof (iteration_heap _ _ _ _ _ _ _ Hit) as Hh1.
  apply iteration_Ok in Hit.
  assert (Hcs : exists bn, size c = [bn; H; W] /\ size s = [bn; L; H; W]).
  { destruct Hit as (? & ? & ? & ? & ? & sm & _ & _ & _ & _ & _ & Hf & _).
    exact (Hg _ _ _ Hf). }
  destruct Hcs as (bn & Hc & Hs).
  assert (Hr1' : nth_error (heap st1) r1 = Some a1) by now rewrite Hh1.
  assert (Hbody :
            forall res,
              (mbind (iadd r1 (sq_t (magnitude self) c))
                     (fun _ => mbind (iadd r2 (sq_t (magnitude self) s))
                                     (fun _ => ret (Sums r1 r2, imgs))) st1 = res)
              -> (if magnitude self
                  then mbind (lift (tbin fmul c c))
                         (fun c2 => mbind (iadd r1 c2)
                            (fun _ => mbind (lift (tbin fmul s s))
                               (fun s2 => mbind (iadd r2 s2)
                                  (fun _ => ret (Sums r1 r2, imgs)))))
                  else mbind (iadd r1 c)
                         (fun _ => mbind (iadd r2 s)
                            (fun _ => ret (Sums r1 r2, imgs)))) st1 = res).
  { intros res <-. unfold sq_t. destruct (magnitude self); [|reflexivity].
    unfold mbind at 1, lift at 1. rewrite (tbin_tzip fmul c c eq_refl).
    unfold mbind at 1 4. destruct (iadd r1 (tzip fmul c c) st1) as [[[]|e] st2];
      [|reflexivity].
    unfold mbind at 1, lift at 1. rewrite (tbin_tzip fmul s s eq_refl). reflexivity. }
  rewrite (Hbody _ eq_refl). clear Hbody.
  assert (Hc' : size (sq_t (magnitude self) c) = bn :: [H; W])
    by now rewrite sq_t_size.
  assert (Hs' : size (sq_t (magnitude self) s) = bn :: [L; H; W])
    by now rewrite sq_t_size.
  unfold mbind at 1.
  destruct (iadd r1 (sq_t (magnitude self) c) st1) as [[[]|e] st2] eqn:Hi1.
  - apply (iadd_lead r1 a1 _ bn [H; W] st1 Hr1' Ha1 Hc') in Hi1 as (-> & ->).
    set (st2 := mkState _ _ _).
    assert (Hr2' : nth_error (heap st2) r2 = Some a2).
    { unfold st2. cbn [heap]. rewrite upd_other by congruence. now rewrite Hh1. }
    unfold mbind.
    destruct (iadd r2 (sq_t (magnitude self) s) st2) as [[[]|e] st3] eqn:Hi2.
    + apply (iadd_lead r2 a2 _ 1 [L; H; W] st2 Hr2' Ha2 Hs') in Hi2 as (_ & ->).
      unfold ret, st2. cbn [heap hooks ext]. rewrite Hh1. split.
      * intros Heq. injection Heq as <- <- <-.
        exists c, s, t, st1. now repeat split.
      * intros (c' & s' & t' & st1' & Hst & _ & _ & -> & -> & ->).
        apply iteration_Ok in Hit, Hst. rewrite Hit in Hst.
        now injection Hst as <- <- <- <-.
    + split; [discriminate|].
      intros _. exfalso.
      assert (Hok : iadd r2 (sq_t (magnitude self) s) st2 =
                    (Ok tt, mkState (upd r2 (tzip fadd a2 (sq_t (magnitude self) s))
                                         (heap st2)) (hooks st2) (ext st2))).
      { now apply (iadd_lead r2 a2 _ 1 [L; H; W] st2 Hr2' Ha2 Hs'). }
      rewrite Hok in Hi2. discriminate.
  - split; [discriminate|].
    intros (c' & s' & t' & st1' & Hst & Hc1 & _).
    apply iteration_Ok in Hit, Hst. rewrite Hit in Hst.
    injection Hst as <- <- <- <-. rewrite Hc in Hc1. injection Hc1 as ->.
    assert (Hok : iadd r1 (sq_t (magnitude self) c) st1 =
                  (Ok tt, mkState (upd r1 (tzip fadd a1 (sq_t (magnitude self) c))
                                       (heap st1)) (hooks st1) (ext st1))).
    { now apply (iadd_lead r1 a1 _ 1 [H; W] st1 Hr1' Ha1 Hc'). }
    rewrite Hok in Hi1. discriminate.
Qed.

(** *** The loop *)

Lemma upd_id {A} (r : nat) (a : A) (l : list A) :
  nth_error l r = Some a -> upd r a l = l.
Proof.
  revert r. induction l as [|b l IH]; intros [|r] H; simpl in *; try reflexivity.
  - now injection H as ->.
  - now rewrite IH.
Qed.

Lemma upd_upd {A} (r : nat) (a b : A) (l : list A) :
  upd r a (upd r b l) = upd r a l.
Proof.
  revert r. induction l as [|c l IH]; intros [|r]; simpl; try reflexivity.
  now rewrite IH.
Qed.

Lemma upd_comm {A} (r1 r2 : nat) (a b : A) (l : list A) :
  r1 <> r2 -> upd r1 a (upd r2 b l) = upd r2 b (upd r1 a l).
Proof.
  revert r1 r2. induction l as [|c l IH]; intros [|r1] [|r2] H; simpl;
    try reflexivity; try congruence.
  rewrite IH; [reflexivity|congruence].
Qed.

Lemma upd_same_Some {A} (r : nat) (a b : A) (l : list A) :
  nth_error l r = Some b -> nth_error (upd r a l) r = Some a.
Proof.
  intros H. apply upd_same. apply nth_error_Some. congruence.
Qed.

Lemma iteration_steps_related self g r sd (st std : state) c s t st1 :
  hooks std = hooks st -> ext std = ext st ->
  nth_error (heap std) r = nth_error (heap st) r ->
  iteration_steps E normal model self g r sd st c s t st1 ->
  iteration_steps E normal model self g r sd std c s t (mkState (heap std) (hooks st1) (ext st1)).
Proof.
  intros Hh He Hr (x & noise & e1 & evs & e2 & sm & Hx & Hn & Ht & Hm & Hs & Hf & ->).
  exists x, noise, e1, evs, e2, sm. cbn [hooks ext]. rewrite Hh, He.
  repeat split; try assumption.
  unfold getitem in *. now rewrite Hr.
Qed.

Lemma accumulate_size mag cs a : size (accumulate mag cs a) = size a.
Proof.
  unfold accumulate. revert a. induction cs as [|c cs IH]; intros a; [reflexivity|].
  cbn [fold_left]. now rewrite IH.
Qed.

(** In non-debug mode the loop returns when the loop of the debug mode,
    started on the same observers and external state, returns per-iteration
    maps of the accumulators' sizes; it then leaves in the accumulators
    their initial contents plus these maps (squared under magnitude). *)
Lemma loop_sums self g r sd H W L r1 r2 :
  returns_sizes g H W L -> r1 <> r2 -> r <> r1 -> r <> r2 ->
  forall n (st std : state) imgs oc os dimgs a1 a2 acc' imgs' st',
    nth_error (heap st) r1 = Some a1 -> nth_error (heap st) r2 = Some a2 ->
    size a1 = [1%nat; H; W] -> size a2 = [1%nat; L; H; W] ->
    hooks std = hooks st -> ext std = ext st ->
    nth_error (heap std) r = nth_error (heap st) r ->
    repeatM n (body self g r sd) (Sums r1 r2, imgs) st = (Ok (acc', imgs'), st') ->
    exists cs ss ts std',
      repeatM n (body self g r sd) (Debug oc os, dimgs) std =
        (Ok (Debug (oc ++ cs) (os ++ ss), dimgs ++ ts), std') /\
      length cs = n /\ length ss = n /\ length ts = n /\
      Forall (fun c => size c = [1%nat; H; W]) cs /\
      Forall (fun s => size s = [1%nat; L; H; W]) ss /\
      acc' = Sums r1 r2 /\ imgs' = imgs /\
      st' = mkState (upd r2 (accumulate (magnitude self) ss a2)
                         (upd r1 (accumulate (magnitude self) cs a1) (heap st)))
                    (hooks std') (ext std').
Proof.
  intros Hg Hne Hr1 Hr2. induction n as [|n IH];
    intros st std imgs oc os dimgs a1 a2 acc' imgs' st' Ha1 Ha2 Hs1 Hs2 Hh He Hr.
  - cbn [repeatM]. unfold ret. intros Heq. injection Heq as <- <- <-.
    exists [], [], [], std. rewrite !app_nil_r.
    repeat split; try constructor.
    cbn [accumulate fold_left]. rewrite (upd_id r1 a1 _ Ha1), (upd_id r2 a2 _ Ha2).
    rewrite Hh, He. now destruct st.
  - cbn [repeatM]. unfold mbind at 1.
    destruct (body self g r sd (Sums r1 r2, imgs) st) as [[[acc1 imgs1]|e] st1] eqn:Hb;
      [|discriminate].
    apply (body_sums self g r sd r1 r2 imgs st acc1 imgs1 st1 a1 a2 H W L
             Hg Ha1 Ha2 Hne Hs1 Hs2) in Hb
      as (c & s & t & st1' & Hst & Hc & Hs & -> & -> & ->).
    set (a1' := tzip fadd a1 (sq_t (magnitude self) c)).
    set (a2' := tzip fadd a2 (sq_t (magnitude self) s)).
    set (st1 := mkState _ _ _).
    pose proof (iteration_steps_related _ _ _ _ _ std _ _ _ _ Hh He Hr Hst) as Hstd.
    set (std1 := mkState (heap std) (hooks st1') (ext st1')) in Hstd.
    intros Hloop.
    assert (Hn1 : nth_error (heap st1) r1 = Some a1').
    { unfold st1. cbn [heap]. rewrite upd_other by congruence.
      eapply upd_same_Some; eassumption. }
    assert (Hn2 : nth_error (heap st1) r2 = Some a2').
    { unfold st1. cbn [heap]. eapply upd_same_Some.
      rewrite upd_other by congruence. eassumption. }
    assert (Hrr : nth_error (heap std1) r = nth_error (heap st1) r).
    { unfold std1, st1. cbn [heap]. rewrite !upd_other by congruence. exact Hr. }
    destruct (IH st1 std1 imgs (oc ++ [c]) (os ++ [s]) (dimgs ++ [t]) a1' a2'
                 acc' imgs' st' Hn1 Hn2 Hs1 Hs2 eq_refl eq_refl Hrr Hloop)
      as (cs & ss & ts & std' & Hd & Lc & Ls & Lt & Fc & Fs & -> & -> & ->).
    exists (c :: cs), (s :: ss), (t :: ts), std'.
    split.
    { cbn [repeatM]. unfold mbind.
      assert (Hbd : body self g r sd (Debug oc os, dimgs) std =
                    (Ok (Debug (oc ++ [c]) (os ++ [s]), dimgs ++ [t]), std1)).
      { apply body_debug. exists c, s, t. now repeat split. }
      rewrite Hbd, Hd, <- !app_assoc. reflexivity. }
    repeat split; cbn [length]; try congruence; try (constructor; assumption).
    unfold st1. cbn [heap accumulate fold_left]. fold a1' a2'.
    fold (accumulate (magnitude self) cs a1') (accumulate (magnitude self) ss a2').
    f_equal.
    rewrite (upd_comm r1 r2) by congruence. rewrite !upd_upd. reflexivity.
Qed.

Lemma accumulate_data mag cs a idx :
  Forall (fun c => size c = size a) cs -> in_range idx (size a) ->
  data (accumulate mag cs a) idx =
  fold_left fadd
            (map (fun c => if mag then fmul (data c idx) (data c idx) else data c idx) cs)
            (data a idx).
Proof.
  unfold accumulate. intros Hall Hidx. revert a Hall Hidx.
  induction cs as [|c cs IH]; intros a Hall Hidx; [reflexivity|].
  inversion Hall as [|? ? Hc Hcs]; subst. cbn [fold_left map].
  rewrite IH.
  - rewrite tzip_data by assumption. rewrite sq_t_data by now rewrite Hc. reflexivity.
  - exact Hcs.
  - exact Hidx.
Qed.

(** *** The call *)

Lemma call_after_prelude self r weights debug st x H W g sd :
  prelude self r weights st x H W g sd ->
  call self r weights debug st =
  after_prelude E normal model self r debug H W (length (hooks st)) g sd st.
Proof.
  intros (Hx & HH & HW & Hg & mx & mn & Hmx & Hmn & ->).
  unfold SmoothGrad.call, after_prelude.
  unfold mbind at 1, load. rewrite (getitem_nth _ _ _ Hx).
  unfold mbind at 1, lift. rewrite (getitem_nth _ _ _ HH).
  unfold mbind at 1, lift. rewrite (getitem_nth _ _ _ HW).
  unfold mbind at 1, get_hooks.
  unfold mbind at 1, lift. rewrite Hg.
  unfold mbind at 1, lift. rewrite Hmx.
  unfold mbind at 1, lift. rewrite Hmn.
  reflexivity.
Qed.

Lemma call_Ok_prelude self r weights debug st res st' :
  call self r weights debug st = (Ok res, st') ->
  exists x H W g sd, prelude self r weights st x H W g sd.
Proof.
  unfold SmoothGrad.call. unfold mbind at 1, load.
  destruct (getitem (heap st) r) as [x|e] eqn:Hx; [|discriminate].
  unfold mbind at 1, lift.
  destruct (getitem (size x) 2) as [H|e] eqn:HH; [|discriminate].
  unfold mbind at 1, lift.
  destruct (getitem (size x) 3) as [W|e] eqn:HW; [|discriminate].
  unfold mbind at 1, get_hooks. unfold mbind at 1, lift.
  destruct (CombineSaliencyMaps.init _ _ _ _ _) as [g|e] eqn:Hg; [|discriminate].
  unfold mbind at 1, lift.
  destruct (tmax x) as [mx|e] eqn:Hmx; [|discriminate].
  unfold mbind at 1, lift.
  destruct (tmin x) as [mn|e] eqn:Hmn; [|discriminate].
  intros _. exists x, H, W, g, (fmul (Some (stdev_spread self)) (fsub mx mn)).
  repeat split; try (now apply getitem_Ok); try assumption.
  exists mx, mn. now repeat split.
Qed.

Lemma prelude_returns_sizes self r weights (st : state) x H W g sd :
  prelude self r weights st x H W g sd ->
  returns_sizes g H W (length (hooks st)).
Proof.
  intros (_ & _ & _ & Hg & _) sm c s Hf.
  destruct (CombineSaliencyMaps_init_fields _ _ _ _ _ _ Hg) as (Hos & Hmn & _).
  destruct (CombineSaliencyMaps_forward_sizes _ _ _ _ Hf) as (bn & Hc & Hs).
  rewrite Hos, Hmn in *. cbn [nth] in *. rewrite !Nat2Z.id in *.
  now exists bn.
Qed.

Lemma upd_tail2 {A} (l : list A) (a b a' b' : A) :
  upd (S (length l)) b' (upd (length l) a' (l ++ [a; b])) = l ++ [a'; b'].
Proof.
  induction l as [|c l IH]; [reflexivity|].
  simpl. simpl in IH. now rewrite IH.
Qed.

Lemma idiv_Ok (r : nat) (n : Z) (a : tensor) (st : state) :
  nth_error (heap st) r = Some a ->
  idiv r n st = (Ok tt, mkState (upd r (tmap (fun v => fdiv v (Some (IZR n))) a) (heap st))
                             (hooks st) (ext st)).
Proof.
  intros Hr. unfold idiv, mbind, load, store. now rewrite (getitem_nth _ _ _ Hr).
Qed.

(** The accumulated sums divided by the number of iterations are the means
    of the specification. *)
Lemma finalize_teq (mag : bool) (n : Z) (sz : list nat) (cs : list tensor) :
  Forall (fun c => size c = sz) cs ->
  teq (tmap (fun v => fdiv v (Some (IZR n))) (accumulate mag cs (zeros sz)))
      (if mag then mean_of_squares n sz cs else mean_of_maps n sz cs).
Proof.
  intros Hall. split.
  - cbn [tmap size]. rewrite accumulate_size. now destruct mag.
  - cbn [tmap size data]. rewrite accumulate_size. cbn [zeros size].
    intros idx Hidx. rewrite accumulate_data by assumption.
    cbn [zeros data]. destruct mag; reflexivity.
Qed.

(** The non-debug call, in terms of the maps the debug call returns. *)
Lemma call_sums_inv (self : SmoothGrad.t) (in_tensor : nat) (weights : pyval)
      (st : state) res st2 :
  call self in_tensor weights false st = (Ok res, st2) ->
  exists x H W g sd cs ss noisy st1,
    prelude self in_tensor weights st x H W g sd /\
    call self in_tensor weights true st = (Ok (Debug cs ss, noisy), st1) /\
    length cs = Z.to_nat (iters self) /\ length ss = Z.to_nat (iters self) /\
    Forall (fun c => size c = [1%nat; H; W]) cs /\
    Forall (fun s => size s = [1%nat; length (hooks st); H; W]) ss /\
    res = (Sums (length (heap st)) (S (length (heap st))), []) /\
    st2 = mkState
            (heap st ++
             [tmap (fun v => fdiv v (Some (IZR (iters self))))
                   (accumulate (magnitude self) cs (zeros [1%nat; H; W]));
              tmap (fun v => fdiv v (Some (IZR (iters self))))
                   (accumulate (magnitude self) ss
                               (zeros [1%nat; length (hooks st); H; W]))])
            (hooks st1) (ext st1).
Proof.
  intros Hcall.
  destruct (call_Ok_prelude _ _ _ _ _ _ _ Hcall) as (x & H & W & g & sd & Hpre).
  pose proof (prelude_returns_sizes _ _ _ _ _ _ _ _ _ Hpre) as Hg.
  rewrite (call_after_prelude _ _ _ _ _ _ _ _ _ _ Hpre) in Hcall.
  exists x, H, W, g, sd.
  rewrite (call_after_prelude _ _ _ true _ _ _ _ _ _ Hpre).
  set (L := length (hooks st)) in *.
  unfold after_prelude in *.
  unfold mbind at 1 in Hcall. unfold mbind at 1, alloc at 1 in Hcall.
  unfold mbind at 1, alloc at 1 in Hcall. unfold ret at 1 in Hcall.
  cbn [heap hooks ext] in Hcall.
  set (z1 := zeros [1%nat; H; W]) in *. set (z2 := zeros [1%nat; L; H; W]) in *.
  set (st0 := mkState ((heap st ++ [z1]) ++ [z2]) (hooks st) (ext st)) in Hcall.
  set (r1 := length (heap st)) in *.
  replace (length (heap st ++ [z1])) with (S r1) in Hcall
    by (rewrite length_app; cbn [length]; unfold r1; lia).
  unfold mbind at 1 in Hcall.
  destruct (repeatM _ _ _ st0) as [[[acc' imgs']|e] st'] eqn:Hloop; [|discriminate].
  destruct Hpre as (Hx & Hpre').
  assert (Hr : (in_tensor < r1)%nat) by (apply nth_error_Some; congruence).
  assert (Hn1 : nth_error (heap st0) r1 = Some z1).
  { unfold st0, r1. cbn [heap]. rewrite nth_error_app1 by (rewrite length_app; simpl; lia).
    rewrite nth_error_app2 by lia. now rewrite Nat.sub_diag. }
  assert (Hn2 : nth_error (heap st0) (S r1) = Some z2).
  { unfold st0, r1. cbn [heap]. rewrite nth_error_app2 by (rewrite length_app; simpl; lia).
    rewrite length_app. cbn [length].
    replace (S (length (heap st)) - (length (heap st) + 1))%nat with O by lia.
    reflexivity. }
  assert (Hrr : nth_error (heap st) in_tensor = nth_error (heap st0) in_tensor).
  { unfold st0. cbn [heap]. rewrite <- app_assoc. now rewrite nth_error_app1. }
  destruct (loop_sums self g in_tensor sd H W L r1 (S r1) Hg ltac:(lia) ltac:(lia)
              ltac:(lia) _ st0 st [] [] [] [] z1 z2 acc' imgs' st'
              Hn1 Hn2 eq_refl eq_refl eq_refl eq_refl Hrr Hloop)
    as (cs & ss & ts & std' & Hd & Lc & Ls & Lt & Fc & Fs & -> & -> & ->).
  cbn [app] in Hd.
  exists cs, ss, ts, std'.
  split; [split; assumption|].
  split.
  { unfold mbind at 1, ret at 1. unfold mbind. rewrite Hd. reflexivity. }
  split; [exact Lc|]. split; [exact Ls|]. split; [exact Fc|]. split; [exact Fs|].
  set (A1 := accumulate (magnitude self) cs z1) in *.
  set (A2 := accumulate (magnitude self) ss z2) in *.
  set (st' := mkState _ _ _) in Hcall.
  assert (Hh' : heap st' = heap st ++ [A1; A2]).
  { unfold st', st0. cbn [heap]. rewrite <- app_assoc. cbn [app].
    apply upd_tail2. }
  unfold mbind at 1 in Hcall.
  rewrite (idiv_Ok r1 _ A1) in Hcall
    by (rewrite Hh', nth_error_app2 by (unfold r1; lia); unfold r1;
        now rewrite Nat.sub_diag).
  unfold mbind at 1 in Hcall.
  rewrite (idiv_Ok (S r1) _ A2) in Hcall.
  2:{ cbn [heap]. rewrite upd_other by lia.
      rewrite Hh', nth_error_app2 by (unfold r1; lia). unfold r1.
      replace (S (length (heap st)) - length (heap st))%nat with 1%nat by lia.
      reflexivity. }
  unfold ret in Hcall. cbn [heap hooks ext] in Hcall.
  rewrite Hh' in Hcall. unfold r1 in Hcall. rewrite upd_tail2 in Hcall.
  pose proof (f_equal fst Hcall) as E1. pose proof (f_equal snd Hcall) as E2.
  cbn [fst snd] in E1, E2. injection E1 as <-. rewrite <- E2.
  split; reflexivity.
Qed.

(** The loop of the debug mode returns the maps of successive iterations. *)
Lemma loop_iterations self g r sd x n :
  forall (oc os imgs : list tensor) (st : state) (acc' : accum)
         (imgs' : list tensor) (st' : state),
    nth_error (heap st) r = Some x ->
    repeatM n (body self g r sd) (Debug oc os, imgs) st = (Ok (acc', imgs'), st') ->
    exists cs ss,
      acc' = Debug (oc ++ cs) (os ++ ss) /\
      iterations E normal model self g x sd (hooks st) (ext st) cs ss
                 (hooks st') (ext st').
Proof.
  induction n as [|n IH]; intros oc os imgs st acc' imgs' st' Hx Hloop.
  - cbn [repeatM] in Hloop. unfold ret in Hloop. injection Hloop as <- <- <-.
    exists [], []. rewrite !app_nil_r. split; [reflexivity|constructor].
  - cbn [repeatM] in Hloop. unfold mbind in Hloop.
    destruct (body self g r sd (Debug oc os, imgs) st) as [[[acc1 imgs1]|e] st1] eqn:Hb;
      [|discriminate].
    apply body_debug in Hb as (c & s & t & Hst & -> & ->).
    destruct Hst as (x' & noise & e1 & evs & e2 & sm & Hx' & Hn & Ht & Hm & Hs & Hf & ->).
    rewrite (getitem_nth _ _ _ Hx) in Hx'. injection Hx' as <-.
    apply IH in Hloop as (cs & ss & -> & Hit); [|exact Hx].
    exists (c :: cs), (s :: ss). rewrite <- !app_assoc. split; [reflexivity|].
    cbn [hooks ext] in Hit. econstructor; eassumption.
Qed.

(** Claim C2.  If the call returns in non-debug mode, then [iters]
    successive iterations, each drawing noise, running the network on the
    perturbed input, scoring every observer and combining the scores, have
    produced per-iteration combined maps [cs] of size [1 x H x W] and
    stacked maps [ss] of size [1 x L x H x W] (the maps the call in debug
    mode returns from the same state), and the two tensors of the
    non-debug result are, under magnitude aggregation, the sums over these
    iterations (taken in order, from zero) of the elementwise squares of
    the maps divided by [iters], with no square root, and otherwise the
    sums of the maps divided by [iters]. *)
Theorem SmoothGrad_call_aggregation
        (self : SmoothGrad.t) (in_tensor : nat) (weights : pyval)
        (st : state) (res : accum * list tensor) (st2 : state) :
  call self in_tensor weights false st = (Ok res, st2) ->
  exists x H W g sd cs ss noisy st1 out_csmap out_smaps a1 a2,
    prelude self in_tensor weights st x H W g sd /\
    iterations E normal model self g x sd (hooks st) (ext st) cs ss
               (hooks st2) (ext st2) /\
    length cs = Z.to_nat (iters self) /\ length ss = Z.to_nat (iters self) /\
    Forall (fun c => size c = [1%nat; H; W]) cs /\
    Forall (fun s => size s = [1%nat; length (hooks st); H; W]) ss /\
    call self in_tensor weights true st = (Ok (Debug cs ss, noisy), st1) /\
    res = (Sums out_csmap out_smaps, []) /\
    nth_error (heap st2) out_csmap = Some a1 /\
    nth_error (heap st2) out_smaps = Some a2 /\
    (magnitude self = true ->
     teq a1 (mean_of_squares (iters self) [1%nat; H; W] cs) /\
     teq a2 (mean_of_squares (iters self) [1%nat; length (hooks st); H; W] ss)) /\
    (magnitude self = false ->
     teq a1 (mean_of_maps (iters self) [1%nat; H; W] cs) /\
     teq a2 (mean_of_maps (iters self) [1%nat; length (hooks st); H; W] ss)).
Proof.
  intros Hcall.
  destruct (call_sums_inv _ _ _ _ _ _ Hcall)
    as (x & H & W & g & sd & cs & ss & noisy & st1 & Hpre & Hd & Lc & Ls & Fc & Fs & -> & ->).
  exists x, H, W, g, sd, cs, ss, noisy, st1, (length (heap st)), (S (length (heap st))).
  eexists. eexists.
  split; [exact Hpre|].
  split.
  { pose proof Hd as Hd'.
    rewrite (call_after_prelude _ _ _ true _ _ _ _ _ _ Hpre) in Hd'.
    unfold after_prelude in Hd'. unfold mbind at 1, ret at 1 in Hd'.
    unfold mbind in Hd'.
    destruct (repeatM _ _ _ st) as [[[acc' imgs']|e] st'] eqn:Hloop; [|discriminate].
    destruct Hpre as (Hx & _).
    destruct (loop_iterations _ _ _ _ x _ _ _ _ _ _ _ _ Hx Hloop) as (cs' & ss' & -> & Hit).
    cbn [app] in Hd'. unfold ret in Hd'. injection Hd' as <- <- _ <-.
    exact Hit. }
  split; [exact Lc|]. split; [exact Ls|]. split; [exact Fc|]. split; [exact Fs|].
  split; [exact Hd|]. split; [reflexivity|].
  cbn [heap].
  split; [rewrite nth_error_app2 by lia; rewrite Nat.sub_diag; reflexivity|].
  split.
  { rewrite nth_error_app2 by lia.
    replace (S (length (heap st)) - length (heap st))%nat with 1%nat by lia.
    reflexivity. }
  pose proof (finalize_teq (magnitude self) (iters self) _ cs Fc) as T1.
  pose proof (finalize_teq (magnitude self) (iters self) _ ss Fs) as T2.
  split; intros Hm; rewrite Hm in T1, T2; rewrite Hm; split; assumption.
Qed.

(** *** The perturbed inputs *)





(** *** One iteration without noise *)

Lemma fdiv_1 (v : fl) : fdiv v (Some (IZR 1)) = v.
Proof.
  destruct v as [r|]; [|reflexivity]. rewrite fdiv_Some by lra. f_equal. field.
Qed.

Lemma fadd_0_r (a : fl) : fadd a (Some 0) = a.
Proof. destruct a; cbn; [f_equal; ring|reflexivity]. Qed.

Lemma teq_trans a b c : teq a b -> teq b c -> teq a c.
Proof.
  intros (S1 & D1) (S2 & D2). split; [congruence|].
  intros idx Hidx. rewrite D1 by assumption. apply D2. now rewrite <- S1.
Qed.

Lemma mean_of_one_map sz c :
  size c = sz -> teq (mean_of_maps 1 sz [c]) c.
Proof.
  intros Hs. split; [now rewrite Hs|]. intros idx _. cbn [mean_of_maps data map fold_left].
  now rewrite fadd_0_l, fdiv_1.
Qed.

(** Adding a noise tensor that is zero everywhere gives the input back. *)
Lemma tbin_fadd_zero x noise t :
  teq noise (zeros (size x)) -> tbin fadd x noise = Ok t -> teq t x.
Proof.
  intros (Hs & Hd) Ht. cbn [zeros size] in Hs, Hd.
  rewrite (tbin_tzip fadd x noise Hs) in Ht. injection Ht as <-.
  split; [reflexivity|]. cbn [tzip size]. intros idx Hidx.
  rewrite tzip_data by assumption. rewrite Hd by now rewrite Hs.
  apply fadd_0_r.
Qed.

(** Claim C5, as the code has it.  With one iteration, linear aggregation
    ([magnitude] off), not in debug mode, a noise scale of 0 (for which the
    generator yields a zero tensor), and a network whose hook calls depend
    on the entries of its input only: if the call returns, the static
    pipeline run from the same state returns too, and the two tensors of
    the call's result have the sizes and the entries of the static
    combined and stacked maps. *)
Theorem SmoothGrad_call_single_pass
        (self : SmoothGrad.t) (in_tensor : nat) (weights : pyval)
        (st : state) (res : accum * list tensor) (st2 : state)
        (x : tensor) (mx mn : fl) :
  iters self = 1%Z -> magnitude self = false ->
  nth_error (heap st) in_tensor = Some x ->
  tmax x = Ok mx -> tmin x = Ok mn ->
  fmul (Some (stdev_spread self)) (fsub mx mn) = Some 0 ->
  (forall sz e noise e', normal (Some 0) sz e = (Ok noise, e') -> teq noise (zeros sz)) ->
  (forall a b e, teq a b -> model a e = model b e) ->
  (forall sd sz e noise e' t,
      normal sd sz e = (Ok noise, e') ->
      fst (model t e') = fst (model t e) /\
      fst (snd (model t e')) = fst (snd (model t e))) ->
  call self in_tensor weights false st = (Ok res, st2) ->
  exists cm ww st1 out_csmap out_smaps a1 a2,
    static_pipeline E model self in_tensor weights st = (Ok (cm, ww), st1) /\
    res = (Sums out_csmap out_smaps, []) /\
    nth_error (heap st2) out_csmap = Some a1 /\
    nth_error (heap st2) out_smaps = Some a2 /\
    teq a1 cm /\ teq a2 ww /\ hooks st2 = hooks st1.
Proof.
  intros Hit Hmag Hx Hmx Hmn Hsd Hzero Hext Hind Hcall.
  destruct (call_sums_inv _ _ _ _ _ _ Hcall)
    as (x' & H & W & g & sd & cs & ss & noisy & st1 & Hpre & Hd & Lc & Ls & Fc & Fs
        & -> & ->).
  pose proof Hpre as (Hx' & HH & HW & Hg & mx' & mn' & Hmx' & Hmn' & Esd).
  rewrite Hx in Hx'. injection Hx' as <-.
  rewrite Hmx in Hmx'. injection Hmx' as <-.
  rewrite Hmn in Hmn'. injection Hmn' as <-.
  rewrite Hsd in Esd. subst sd.
  rewrite (call_after_prelude _ _ _ _ _ _ _ _ _ _ Hpre) in Hd.
  unfold after_prelude in Hd. rewrite Hit in Hd, Lc, Ls.
  change (Z.to_nat 1) with 1%nat in Hd, Lc, Ls.
  unfold mbind at 1, ret at 1 in Hd. cbn [repeatM] in Hd.
  unfold mbind at 1 in Hd. unfold mbind at 1 in Hd.
  destruct (body self g in_tensor (Some 0) (Debug [] [], []) st)
    as [[[acc1 imgs1]|e] stb] eqn:Hb; [|discriminate].
  apply body_debug in Hb as (c & s & t & Hsteps & -> & ->).
  unfold ret in Hd. injection Hd as <- <- <- <-.
  destruct Hsteps as (x' & noise & e1 & evs & e2 & sm & Hx' & Hn & Ht & Hm & Hs & Hf & ->).
  rewrite (getitem_nth _ _ _ Hx) in Hx'. injection Hx' as <-.
  pose proof (tbin_fadd_zero _ _ _ (Hzero _ _ _ _ Hn) Ht) as Htx.
  rewrite (Hext _ _ e1 Htx) in Hm.
  destruct (Hind _ _ _ _ _ x Hn) as (Hr1 & Hr2). rewrite Hm in Hr1, Hr2.
  cbn [fst snd] in Hr1, Hr2.
  destruct (model x (ext st)) as [r0 [evs0 e0]] eqn:Hm0. cbn [fst snd] in Hr1, Hr2.
  subst r0 evs0.
  exists c, s, (mkState (heap st) (fire (hooks st) evs) e0).
  exists (length (heap st)), (S (length (heap st))).
  eexists. eexists.
  split.
  { unfold static_pipeline.
    unfold mbind at 1, load. rewrite (getitem_nth _ _ _ Hx).
    unfold mbind at 1, lift. rewrite (getitem_nth _ _ _ HH).
    unfold mbind at 1, lift. rewrite (getitem_nth _ _ _ HW).
    unfold mbind at 1, get_hooks. unfold mbind at 1, lift. rewrite Hg.
    unfold mbind at 1, run_model. rewrite Hm0. cbn [heap hooks ext].
    unfold mbind at 1, get_hooks. cbn [hooks].
    unfold mbind, lift. rewrite Hs, Hf. reflexivity. }
  split; [reflexivity|]. cbn [heap hooks].
  split; [rewrite nth_error_app2 by lia; rewrite Nat.sub_diag; reflexivity|].
  split.
  { rewrite nth_error_app2 by lia.
    replace (S (length (heap st)) - length (heap st))%nat with 1%nat by lia.
    reflexivity. }
  inversion Fc as [|? ? Hc _]; subst. inversion Fs as [|? ? Hs' _]; subst.
  pose proof (finalize_teq false (iters self) _ [c] Fc) as T1.
  pose proof (finalize_teq false (iters self) _ [s] Fs) as T2.
  rewrite Hmag, Hit. rewrite Hit in T1, T2.
  split; [|split; [|reflexivity]].
  - eapply teq_trans; [exact T1|]. now apply mean_of_one_map.
  - eapply teq_trans; [exact T2|]. now apply mean_of_one_map.
Qed.

(** A call with one iteration, from the iteration's steps. *)
Lemma call_one_iteration (self : SmoothGrad.t) (r : nat) (weights : pyval)
      (st : state) x H W g sd c s t st1 :
  prelude self r weights st x H W g sd ->
  iters self = 1%Z ->
  iteration_steps E normal model self g r sd st c s t st1 ->
  size c = [1%nat; H; W] -> size s = [1%nat; length (hooks st); H; W] ->
  call self r weights true st = (Ok (Debug [c] [s], [t]), st1) /\
  call self r weights false st =
  (Ok (Sums (length (heap st)) (S (length (heap st))), []),
   mkState (heap st ++
            [tmap (fun v => fdiv v (Some (IZR 1)))
                  (accumulate (magnitude self) [c] (zeros [1%nat; H; W]));
             tmap (fun v => fdiv v (Some (IZR 1)))
                  (accumulate (magnitude self) [s]
                              (zeros [1%nat; length (hooks st); H; W]))])
           (hooks st1) (ext st1)).
Proof.
  intros Hpre Hit Hsteps Hc Hs.
  pose proof (prelude_returns_sizes _ _ _ _ _ _ _ _ _ Hpre) as Hg.
  rewrite !(call_after_prelude _ _ _ _ _ _ _ _ _ _ Hpre).
  destruct Hpre as (Hx & _).
  unfold after_prelude. rewrite Hit. change (Z.to_nat 1) with 1%nat.
  cbn [repeatM]. split.
  - unfold mbind at 1, ret at 1. unfold mbind at 1. unfold mbind at 1.
    assert (Hb : body self g r sd (Debug [] [], []) st =
                 (Ok (Debug [c] [s], [t]), st1)).
    { apply body_debug. exists c, s, t. now repeat split. }
    rewrite Hb. reflexivity.
  - set (L := length (hooks st)) in *.
    set (z1 := zeros [1%nat; H; W]). set (z2 := zeros [1%nat; L; H; W]).
    unfold mbind at 1. unfold mbind at 1, alloc at 1.
    unfold mbind at 1, alloc at 1. unfold ret at 1. cbn [heap hooks ext].
    set (st0 := mkState ((heap st ++ [z1]) ++ [z2]) (hooks st) (ext st)).
    set (r1 := length (heap st)).
    replace (length (heap st ++ [z1])) with (S r1)
      by (rewrite length_app; cbn [length]; unfold r1; lia).
    assert (Hr : (r < r1)%nat) by (apply nth_error_Some; congruence).
    assert (Hn1 : nth_error (heap st0) r1 = Some z1).
    { unfold st0, r1. cbn [heap].
      rewrite nth_error_app1 by (rewrite length_app; simpl; lia).
      rewrite nth_error_app2 by lia. now rewrite Nat.sub_diag. }
    assert (Hn2 : nth_error (heap st0) (S r1) = Some z2).
    { unfold st0, r1. cbn [heap].
      rewrite nth_error_app2 by (rewrite length_app; simpl; lia).
      rewrite length_app. cbn [length].
      replace (S (length (heap st)) - (length (heap st) + 1))%nat with O by lia.
      reflexivity. }
    assert (Hrr : nth_error (heap st0) r = nth_error (heap st) r).
    { unfold st0. cbn [heap]. rewrite <- app_assoc. now rewrite nth_error_app1. }
    pose proof (iteration_steps_related _ _ _ _ st st0 _ _ _ _ eq_refl eq_refl Hrr Hsteps)
      as Hsteps0.
    assert (Hb : body self g r sd (Sums r1 (S r1), []) st0 =
                 (Ok (Sums r1 (S r1), []),
                  mkState (upd (S r1) (tzip fadd z2 (sq_t (magnitude self) s))
                               (upd r1 (tzip fadd z1 (sq_t (magnitude self) c))
                                    (heap st0)))
                          (hooks st1) (ext st1))).
    { apply (body_sums self g r sd r1 (S r1) [] st0 _ _ _ z1 z2 H W L Hg Hn1 Hn2
               ltac:(lia) eq_refl eq_refl).
      eexists c, s, t, _. split; [exact Hsteps0|]. now repeat split. }
    unfold mbind at 1. unfold mbind at 1. rewrite Hb. unfold ret at 1.
    set (A1 := tzip fadd z1 (sq_t (magnitude self) c)).
    set (A2 := tzip fadd z2 (sq_t (magnitude self) s)).
    assert (Hh : upd (S r1) A2 (upd r1 A1 (heap st0)) = heap st ++ [A1; A2]).
    { unfold st0. cbn [heap]. rewrite <- app_assoc. cbn [app]. apply upd_tail2. }
    rewrite Hh.
    unfold mbind at 1. rewrite (idiv_Ok r1 _ A1)
      by (cbn [heap]; rewrite nth_error_app2 by (unfold r1; lia); unfold r1;
          now rewrite Nat.sub_diag).
    cbn [heap hooks ext].
    unfold mbind at 1. rewrite (idiv_Ok (S r1) _ A2).
    2:{ cbn [heap]. rewrite upd_other by lia.
        rewrite nth_error_app2 by (unfold r1; lia). unfold r1.
        replace (S (length (heap st)) - length (heap st))%nat with 1%nat by lia.
        reflexivity. }
    unfold ret. cbn [heap hooks ext]. unfold r1. rewrite upd_tail2. reflexivity.
Qed.

End Aggregator.

(** ** A concrete run *)

Lemma ln2_pos : 0 < ln 2.
Proof. rewrite <- ln_1. apply ln_increasing; lra. Qed.

Lemma log2_1 : log2 1 = 0.
Proof. unfold log2. rewrite ln_1. unfold Rdiv. ring. Qed.

Lemma log2_2 : log2 2 = 1.
Proof. unfold log2. field. pose proof ln2_pos. lra. Qed.

Lemma log2_mult (a b : R) : 0 < a -> 0 < b -> log2 (a * b) = log2 a + log2 b.
Proof.
  intros Ha Hb. unfold log2. rewrite ln_mult by assumption. field.
  pose proof ln2_pos. lra.
Qed.

Lemma ramp_w_pos : 0 < ramp_w.
Proof.
  unfold ramp_w. apply Rmult_lt_0_compat; [|lra].
  assert (H : ln 2 < 2 * ln (3 / 2)).
  { replace (2 * ln (3 / 2)) with (ln (3 / 2 * (3 / 2)))
      by (rewrite ln_mult by lra; ring).
    apply ln_increasing; lra. }
  unfold log2. pose proof ln2_pos as Hl.
  assert (1 / 2 < ln (3 / 2) / ln 2); [|lra].
  apply Rmult_lt_reg_r with (r := ln 2); [exact Hl|].
  replace (ln (3 / 2) / ln 2 * ln 2) with (ln (3 / 2)) by (field; lra). lra.
Qed.

Lemma smoe_stat_pair (a b p q : R) :
  a + eps = p -> b + eps = q -> 0 < p -> 0 < q ->
  smoe_stat [Some a; Some b] =
  Some ((log2 ((p + q) / 2) - (log2 p + log2 q) / 2) * ((p + q) / 2)).
Proof.
  intros Hp Hq Pp Pq.
  assert (Hall : Forall (fun r => - eps < r) [a; b]).
  { repeat constructor; lra. }
  destruct (smoe_stat_value [a; b] ltac:(discriminate) Hall) as (Hv & _).
  change (map Some [a; b]) with [Some a; Some b] in Hv. rewrite Hv.
  cbn [map]. rewrite Hp, Hq. unfold rmean. cbn [map rsum fold_right length INR].
  f_equal. replace (p + (q + 0)) with (p + q) by ring.
  replace (log2 p + (log2 q + 0)) with (log2 p + log2 q) by ring.
  replace (1 + 1) with 2 by ring. reflexivity.
Qed.

Lemma smoe_ramp :
  exists th,
    SMOEScaleMap.forward (SMOEScaleMap.init false) (OTensor act_ramp) = Ok th /\
    size th = [1; 1; 3]%nat /\
    data th [0; 0; 0]%nat = Some 0 /\
    data th [0; 0; 1]%nat = Some ramp_w /\
    data th [0; 0; 2]%nat = Some (2 * ramp_w).
Proof.
  destruct (SMOEScaleMap_forward_pixel (SMOEScaleMap.init false) act_ramp
              1 2 [1; 3]%nat eq_refl ltac:(discriminate)) as (th & Hfw & Hsz & Hd).
  exists th. split; [exact Hfw|]. split; [exact Hsz|].
  assert (Hin : forall w, (w < 3)%nat -> in_range [0; 0; w]%nat [1; 1; 3]%nat).
  { intros w Hw. unfold in_range. repeat (apply Forall2_cons; [lia|]). apply Forall2_nil. }
  split; [|split].
  - rewrite (Hd 0%nat [0; 0]%nat (Hin 0%nat ltac:(lia))).
    cbn [SMOEScaleMap.init SMOEScaleMap.relu seq map act_ramp data].
    rewrite (smoe_stat_pair _ _ 1 1) by lra.
    f_equal. rewrite log2_1. replace ((1 + 1) / 2) with 1 by lra.
    rewrite log2_1. lra.
  - rewrite (Hd 0%nat [0; 1]%nat (Hin 1%nat ltac:(lia))).
    cbn [SMOEScaleMap.init SMOEScaleMap.relu seq map act_ramp data].
    rewrite (smoe_stat_pair _ _ 1 2) by lra.
    f_equal. unfold ramp_w. rewrite log2_1, log2_2.
    replace ((1 + 2) / 2) with (3 / 2) by lra. lra.
  - rewrite (Hd 0%nat [0; 2]%nat (Hin 2%nat ltac:(lia))).
    cbn [SMOEScaleMap.init SMOEScaleMap.relu seq map act_ramp data].
    rewrite (smoe_stat_pair _ _ 2 4) by lra.
    f_equal. unfold ramp_w.
    replace ((2 + 4) / 2) with (3 / 2 * 2) by lra.
    replace 4 with (2 * 2) by lra.
    rewrite !log2_mult by lra. rewrite log2_2. lra.
Qed.

Lemma rmean_ramp (w : R) : rmean [0; w; 2 * w] = w.
Proof. unfold rmean. cbn [rsum fold_right length INR]. field. Qed.

Lemma rstd_ramp (w : R) : 0 <= w -> rstd [0; w; 2 * w] = w.
Proof.
  intros Hw. unfold rstd. rewrite rmean_ramp.
  cbn [map rsum fold_right length Nat.sub INR].
  replace (((0 - w) * (0 - w) + ((w - w) * (w - w) + ((2 * w - w) * (2 * w - w) + 0)))
           / (1 + 1)) with (w * w) by field.
  now apply sqrt_square.
Qed.

Lemma in_range_3 (idx : list nat) (a b c : nat) :
  in_range idx [a; b; c] ->
  exists i j k, idx = [i; j; k] /\ (i < a)%nat /\ (j < b)%nat /\ (k < c)%nat.
Proof.
  intros H. inversion H as [|i ? r1 ? Hi H1]; subst.
  inversion H1 as [|j ? r2 ? Hj H2]; subst.
  inversion H2 as [|k ? r3 ? Hk H3]; subst.
  inversion H3; subst. now exists i, j, k.
Qed.

Lemma normalize_ramp (th : tensor) :
  size th = [1; 1; 3]%nat ->
  data th [0; 0; 0]%nat = Some 0 ->
  data th [0; 0; 1]%nat = Some ramp_w ->
  data th [0; 0; 2]%nat = Some (2 * ramp_w) ->
  exists nm,
    Normalize2D.forward (OTensor th) = Ok nm /\
    size nm = [1; 1; 3]%nat /\ finite nm /\
    data nm [0; 0; 1]%nat = Some 0.5.
Proof.
  intros Hsz H0 H1 H2.
  destruct (Normalize2D_forward_pixel th 1 1 3 Hsz) as (nm & Hfw & Hnsz & Hd).
  exists nm. split; [exact Hfw|]. split; [exact Hnsz|].
  assert (Hfs : flat_sample th 1 3 0 = map Some [0; ramp_w; 2 * ramp_w]).
  { unfold flat_sample. cbn [Nat.mul Nat.add seq map].
    change (0 / 3)%nat with O. change (1 / 3)%nat with O. change (2 / 3)%nat with O.
    change (0 mod 3)%nat with O. change (1 mod 3)%nat with 1%nat.
    change (2 mod 3)%nat with 2%nat. now rewrite H0, H1, H2. }
  pose proof ramp_w_pos as Hw.
  assert (Hval : forall r,
             norm_value (flat_sample th 1 3 0) (Some r) =
             Some (0.5 * (1 + erf ((r - ramp_w) / (ramp_w * sqrt 2))))).
  { intros r. rewrite Hfs, norm_value_finite.
    - rewrite rmean_ramp, rstd_ramp by lra. reflexivity.
    - simpl. lia.
    - rewrite rstd_ramp by lra. lra. }
  split.
  - intros idx Hidx. rewrite Hnsz in Hidx.
    destruct (in_range_3 _ _ _ _ Hidx) as (i & j & k & -> & Hi & Hj & Hk).
    replace i with O by lia. replace j with O by lia.
    rewrite (Hd 0%nat 0%nat k) by lia.
    destruct k as [|[|[|k]]]; try lia;
      [rewrite H0|rewrite H1|rewrite H2]; rewrite Hval; eexists; reflexivity.
  - rewrite (Hd 0%nat 0%nat 1%nat) by lia. rewrite H1, Hval.
    f_equal. replace ((ramp_w - ramp_w) / (ramp_w * sqrt 2)) with 0
      by (unfold Rdiv; ring).
    rewrite erf_0. lra.
Qed.

Lemma score_ramp (self : SmoothGrad.t) :
  SmoothGrad.getSmap self = SMOEScaleMap.init false ->
  exists nm,
    SmoothGrad.score self (hook_call ramp_hook ramp_event) = Ok nm /\
    size nm = [1; 1; 3]%nat /\ finite nm /\
    data nm [0; 0; 1]%nat = Some 0.5.
Proof.
  intros Hs. destruct smoe_ramp as (th & Hth & Hsz & H0 & H1 & H2).
  destruct (normalize_ramp th Hsz H0 H1 H2) as (nm & Hnm & Hrest).
  exists nm. split; [|exact Hrest].
  unfold SmoothGrad.score. rewrite Hs.
  change (CaptureLayerData.data (hook_state (hook_call ramp_hook ramp_event)))
    with (OTensor act_ramp).
  rewrite Hth. exact Hnm.
Qed.

Lemma Rmax_0_0 : Rmax 0 0 = 0.
Proof. apply Rmax_left. lra. Qed.

Lemma Rmin_0_0 : Rmin 0 0 = 0.
Proof. apply Rmin_left. lra. Qed.

Lemma tmax_x_zero : tmax x_zero = Ok (Some 0).
Proof.
  unfold tmax. cbn. now rewrite !Rmax_0_0.
Qed.

Lemma tmin_x_zero : tmin x_zero = Ok (Some 0).
Proof.
  unfold tmin. cbn. now rewrite !Rmin_0_0.
Qed.

Lemma ramp_prelude (self : SmoothGrad.t) :
  SmoothGrad.maps_magnitude self = false ->
  prelude self 0 PyNone ramp_state x_zero 1 3 (one_map_combiner 1 3) (Some 0).
Proof.
  intros Hm. unfold prelude. rewrite Hm.
  repeat split; try reflexivity.
  exists (Some 0), (Some 0). split; [exact tmax_x_zero|]. split; [exact tmin_x_zero|].
  cbn. f_equal. ring.
Qed.

(** The maps of the concrete run: the combined map [c] has the value 0.5
    at the middle pixel. *)
Lemma ramp_run (self : SmoothGrad.t) :
  SmoothGrad.getSmap self = SMOEScaleMap.init false ->
  SmoothGrad.maps_magnitude self = false ->
  exists c s t,
    iteration_steps unit zero_noise ramp_model self (one_map_combiner 1 3) 0 (Some 0)
                    ramp_state c s t ramp_state' /\
    static_pipeline unit ramp_model self 0 PyNone ramp_state = (Ok (c, s), ramp_state') /\
    size c = [1; 1; 3]%nat /\ size s = [1; 1; 1; 3]%nat /\
    data c [0; 0; 1]%nat = Some 0.5 /\
    teq t x_zero.
Proof.
  intros Hs Hm.
  destruct (score_ramp self Hs) as (nm & Hnm & Hsz & Hfin & Hmid).
  destruct (CombineSaliencyMaps_forward_identity nm 1 1 3 Hsz Hfin)
    as (c & s & Hfw & (Hcs & Hcd) & Hss & _).
  exists c, s, (tzip fadd x_zero (zeros (size x_zero))).
  assert (Hmap : mapM (SmoothGrad.score self) [hook_call ramp_hook ramp_event] = Ok [nm]).
  { cbn [mapM]. rewrite Hnm. reflexivity. }
  split; [|split; [|split; [|split; [|split]]]].
  - exists x_zero, (zeros (size x_zero)), tt, [[ramp_event]], tt, [nm].
    repeat split; try reflexivity; assumption.
  - unfold static_pipeline, SmoothGrad.mbind, SmoothGrad.load, SmoothGrad.lift,
      SmoothGrad.get_hooks, SmoothGrad.run_model.
    cbn [ramp_state SmoothGrad.heap SmoothGrad.hooks SmoothGrad.ext getitem nth_error
         x_zero zeros size length ramp_model fire hd tl fold_left].
    rewrite Hm.
    change (CombineSaliencyMaps.init [Z.of_nat 1; Z.of_nat 3] (Z.of_nat 1) PyNone
                                     "bilinear" false)
      with (Ok (one_map_combiner 1 3)).
    cbn iota beta. rewrite Hmap, Hfw. reflexivity.
  - now rewrite Hcs, Hsz.
  - exact Hss.
  - rewrite Hcd, Hmid; [reflexivity|].
    rewrite Hcs, Hsz. unfold in_range. repeat (apply Forall2_cons; [lia|]).
    apply Forall2_nil.
  - split; [reflexivity|]. intros idx Hidx. rewrite tzip_data by assumption.
    apply fadd_0_r.
Qed.

Lemma in_range_mid : in_range [0; 0; 1]%nat [1; 1; 3]%nat.
Proof. unfold in_range. repeat (apply Forall2_cons; [lia|]). apply Forall2_nil. Qed.

(** The two calls of the concrete run, with one iteration. *)
Lemma ramp_call (mag : bool) :
  let self := SmoothGrad.init 1 mag 0.15 false in
  exists c s t,
    static_pipeline unit ramp_model self 0 PyNone ramp_state = (Ok (c, s), ramp_state') /\
    size c = [1; 1; 3]%nat /\ size s = [1; 1; 1; 3]%nat /\
    data c [0; 0; 1]%nat = Some 0.5 /\
    SmoothGrad.call unit zero_noise ramp_model self 0 PyNone true ramp_state =
      (Ok (SmoothGrad.Debug [c] [s], [t]), ramp_state') /\
    SmoothGrad.call unit zero_noise ramp_model self 0 PyNone false ramp_state =
      (Ok (SmoothGrad.Sums 1 2, []),
       SmoothGrad.mkState
         [x_zero;
          tmap (fun v => fdiv v (Some (IZR 1))) (accumulate mag [c] (zeros [1; 1; 3]%nat));
          tmap (fun v => fdiv v (Some (IZR 1)))
               (accumulate mag [s] (zeros [1; 1; 1; 3]%nat))]
         [hook_call ramp_hook ramp_event] tt).
Proof.
  intros self.
  destruct (ramp_run self eq_refl eq_refl) as (c & s & t & Hsteps & Hstat & Hc & Hs & Hmid & _).
  exists c, s, t.
  destruct (call_one_iteration unit zero_noise ramp_model self 0 PyNone ramp_state
              x_zero 1 3 (one_map_combiner 1 3) (Some 0) c s t ramp_state'
              (ramp_prelude self eq_refl) eq_refl Hsteps Hc Hs) as (Hd & Hn).
  repeat split; assumption.
Qed.

Lemma SmoothGrad_call_aggregation_witness :
  exists res st2,
    SmoothGrad.call unit zero_noise ramp_model (SmoothGrad.init 1 true 0.15 false)
                    0 PyNone false ramp_state = (Ok res, st2) /\
    exists x H W g sd cs ss noisy st1 out_csmap out_smaps a1 a2,
      prelude (SmoothGrad.init 1 true 0.15 false) 0 PyNone ramp_state x H W g sd /\
      iterations unit zero_noise ramp_model (SmoothGrad.init 1 true 0.15 false) g x sd
                 (SmoothGrad.hooks ramp_state) (SmoothGrad.ext ramp_state) cs ss
                 (SmoothGrad.hooks st2) (SmoothGrad.ext st2) /\
      length cs = 1%nat /\ length ss = 1%nat /\
      Forall (fun c => size c = [1%nat; H; W]) cs /\
      Forall (fun s => size s = [1%nat; 1%nat; H; W]) ss /\
      SmoothGrad.call unit zero_noise ramp_model (SmoothGrad.init 1 true 0.15 false)
                      0 PyNone true ramp_state = (Ok (SmoothGrad.Debug cs ss, noisy), st1) /\
      res = (SmoothGrad.Sums out_csmap out_smaps, []) /\
      nth_error (SmoothGrad.heap st2) out_csmap = Some a1 /\
      nth_error (SmoothGrad.heap st2) out_smaps = Some a2 /\
      (true = true ->
       teq a1 (mean_of_squares 1 [1%nat; H; W] cs) /\
       teq a2 (mean_of_squares 1 [1%nat; 1%nat; H; W] ss)) /\
      (true = false ->
       teq a1 (mean_of_maps 1 [1%nat; H; W] cs) /\
       teq a2 (mean_of_maps 1 [1%nat; 1%nat; H; W] ss)).
Proof.
  destruct (ramp_call true) as (c & s & t & _ & _ & _ & _ & _ & Hn).
  eexists. eexists. split; [exact Hn|].
  exact (SmoothGrad_call_aggregation unit zero_noise ramp_model
           (SmoothGrad.init 1 true 0.15 false) 0 PyNone ramp_state _ _ Hn).
Defined.


Lemma SmoothGrad_call_single_pass_witness :
  exists res st2,
    SmoothGrad.call unit zero_noise ramp_model (SmoothGrad.init 1 false 0.15 false)
                    0 PyNone false ramp_state = (Ok res, st2) /\
    exists cm ww st1 out_csmap out_smaps a1 a2,
      static_pipeline unit ramp_model (SmoothGrad.init 1 false 0.15 false) 0 PyNone
                      ramp_state = (Ok (cm, ww), st1) /\
      res = (SmoothGrad.Sums out_csmap out_smaps, []) /\
      nth_error (SmoothGrad.heap st2) out_csmap = Some a1 /\
      nth_error (SmoothGrad.heap st2) out_smaps = Some a2 /\
      teq a1 cm /\ teq a2 ww /\ SmoothGrad.hooks st2 = SmoothGrad.hooks st1.
Proof.
  destruct (ramp_call false) as (c & s & t & _ & _ & _ & _ & _ & Hn).
  eexists. eexists. split; [exact Hn|].
  apply (SmoothGrad_call_single_pass unit zero_noise ramp_model
           (SmoothGrad.init 1 false 0.15 false) 0 PyNone ramp_state _ _
           x_zero (Some 0) (Some 0)).
  - reflexivity.
  - reflexivity.
  - reflexivity.
  - exact tmax_x_zero.
  - exact tmin_x_zero.
  - cbn. f_equal. ring.
  - intros sz e noise e' H. injection H as <- _. split; [reflexivity|]. reflexivity.
  - reflexivity.
  - intros. split; reflexivity.
  - exact Hn.
Defined.

(** The claim C5 as stated fails under the default aggregation: with one
    iteration, a noise scale of 0 and [magnitude=True] the middle pixel of
    the aggregator's combined result is 0.25, the square of the value 0.5
    that the static pipeline gives there. *)
Lemma SmoothGrad_call_magnitude_not_single_pass :
  exists res st2 cm ww st1 a1,
    SmoothGrad.iters (SmoothGrad.init 1 true 0.15 false) = 1%Z /\
    prelude (SmoothGrad.init 1 true 0.15 false) 0 PyNone ramp_state x_zero 1 3
            (one_map_combiner 1 3) (Some 0) /\
    SmoothGrad.call unit zero_noise ramp_model (SmoothGrad.init 1 true 0.15 false)
                    0 PyNone false ramp_state = (Ok res, st2) /\
    static_pipeline unit ramp_model (SmoothGrad.init 1 true 0.15 false) 0 PyNone
                    ramp_state = (Ok (cm, ww), st1) /\
    res = (SmoothGrad.Sums 1 2, []) /\
    nth_error (SmoothGrad.heap st2) 1 = Some a1 /\
    data cm [0; 0; 1]%nat = Some 0.5 /\
    data a1 [0; 0; 1]%nat = Some 0.25 /\
    ~ teq a1 cm.
Proof.
  destruct (ramp_call true) as (c & s & t & Hstat & Hc & Hs & Hmid & _ & Hn).
  eexists. eexists. exists c, s. eexists. eexists.
  split; [reflexivity|].
  split; [exact (ramp_prelude (SmoothGrad.init 1 true 0.15 false) eq_refl)|].
  split; [exact Hn|]. split; [exact Hstat|]. split; [reflexivity|].
  split; [reflexivity|]. split; [exact Hmid|].
  assert (Hsq : data (tmap (fun v => fdiv v (Some (IZR 1)))
                           (accumulate true [c] (zeros [1; 1; 3]%nat)))
                     [0; 0; 1]%nat = Some 0.25).
  { destruct (finalize_teq true 1 [1; 1; 3]%nat [c]) as (_ & Hd).
    - constructor; [exact Hc|constructor].
    - rewrite Hd.
      + cbn [mean_of_squares data map fold_left]. rewrite Hmid.
        cbn [fmul fadd flift2]. rewrite fdiv_Some by lra. f_equal. lra.
      + cbn [tmap size]. rewrite accumulate_size. exact in_range_mid. }
  split; [exact Hsq|].
  intros (_ & Hd). specialize (Hd [0; 0; 1]%nat).
  cbn [tmap size] in Hd. rewrite accumulate_size in Hd.
  specialize (Hd in_range_mid). rewrite Hsq, Hmid in Hd.
  injection Hd as Hd. lra.
Qed.

Lemma SmoothGrad_call_preserves_existing_tensors_witness :
  nth_error
    (SmoothGrad.heap
       (snd (SmoothGrad.call unit zero_noise ramp_model
                             (SmoothGrad.init 1 true 0.15 false) 0 PyNone false
                             ramp_state))) 0 = Some x_zero.
Proof.
  destruct (SmoothGrad_call_preserves_existing_tensors unit zero_noise ramp_model
              (SmoothGrad.init 1 true 0.15 false) 0 PyNone false ramp_state)
    as (fresh & _ & Hx).
  apply Hx. reflexivity.
Defined.


(* ================================================================= *)
(** * Further properties of [maps.py] *)

Lemma StdMap_forward_pixel (x : tensor) (s0 s1 : nat) (rest : list nat) :
  size x = s0 :: s1 :: rest -> rest <> [] ->
  exists out,
    StdMap.forward (OTensor x) = Ok out /\
    size out = s0 :: rest /\
    forall b r, data out (b :: r) = fstd (map (fun c => data x (b :: c :: r)) (seq 0 s1)).
Proof.
  intros Hs Hrest.
  destruct rest as [|s2 rest]; [congruence|].
  unfold StdMap.forward, std_dim1, reduce_dim1, rank.
  cbn [is_tensor bind]. rewrite Hs. cbn [length Nat.ltb Nat.leb assert bind].
  eexists. split; [reflexivity|]. split; reflexivity.
Qed.

Lemma rank_gt2_size (t : tensor) :
  (2 <? rank t)%nat = true ->
  exists s0 s1 s2 rest, size t = s0 :: s1 :: s2 :: rest.
Proof.
  unfold rank. intros H. apply Nat.ltb_lt in H.
  destruct (size t) as [|s0 [|s1 [|s2 rest]]]; cbn in H; try lia.
  now exists s0, s1, s2, rest.
Qed.

(** Property X1.  Each of the three scale maps ([SMOEScaleMap],
    [StdMap], [TruncNormalEntMap]) returns a tensor exactly when its
    argument is a tensor with more than two axes, whatever the sizes of
    the axes; the result has the size of the argument without axis 1.  On
    any other argument the call raises [AssertionError]. *)
Theorem scale_maps_forward_guard
        (smoe : SMOEScaleMap.t) (tn : TruncNormalEntMap.t) (x : pyobj) :
  guarded_by_rank x (SMOEScaleMap.forward smoe x) /\
  guarded_by_rank x (StdMap.forward x) /\
  guarded_by_rank x (TruncNormalEntMap.forward tn x).
Proof.
  destruct x as [|t|l]; cbn [guarded_by_rank]; try (repeat split; reflexivity).
  destruct (2 <? rank t)%nat eqn:Hr.
  - destruct (rank_gt2_size t Hr) as (s0 & s1 & s2 & rest & Hs).
    rewrite Hs. cbn [drop_dim1].
    destruct (SMOEScaleMap_forward_pixel smoe t s0 s1 (s2 :: rest) Hs ltac:(discriminate))
      as (th & H1 & H2 & _).
    destruct (StdMap_forward_pixel t s0 s1 (s2 :: rest) Hs ltac:(discriminate))
      as (o & H3 & H4 & _).
    destruct (TruncNormalEntMap_forward_pixel tn t s0 s1 (s2 :: rest) Hs ltac:(discriminate))
      as (e & H5 & H6 & _).
    repeat split; eexists; split; eauto.
  - unfold SMOEScaleMap.forward, StdMap.forward, TruncNormalEntMap.forward.
    cbn [is_tensor bind]. rewrite Hr. repeat split; reflexivity.
Qed.

Lemma rmean_repeat (c : R) (n : nat) : (0 < n)%nat -> rmean (repeat c n) = c.
Proof.
  intros Hn. unfold rmean. rewrite rsum_repeat, repeat_length.
  field. apply not_0_INR. lia.
Qed.

Lemma all_equal_repeat (xs : list R) :
  (forall a b, In a xs -> In b xs -> a = b) ->
  xs = repeat (hd 0 xs) (length xs).
Proof.
  destruct xs as [|x xs]; [reflexivity|]. intros Heq. cbn [hd length repeat]. f_equal.
  assert (H : forall a, In a xs -> a = x).
  { intros a Ha. apply Heq; [now right|now left]. }
  clear Heq. induction xs as [|y ys IH]; [reflexivity|].
  cbn [length repeat]. f_equal.
  - apply H. now left.
  - apply IH. intros a Ha. apply H. now right.
Qed.

Lemma map_seq_ext {A} (f g : nat -> A) (a n : nat) :
  (forall c, (a <= c < a + n)%nat -> f c = g c) ->
  map f (seq a n) = map g (seq a n).
Proof.
  intros H. apply map_ext_in. intros c Hc. apply in_seq in Hc. now apply H.
Qed.

Lemma fsum_None (l : list fl) : In None l -> fsum l = None.
Proof.
  unfold fsum. induction l as [|a l IH]; [intros []|].
  intros [->|Hin]; [reflexivity|].
  cbn [fold_right]. rewrite (IH Hin). now destruct a.
Qed.

Lemma fmean_None (l : list fl) : In None l -> fmean l = None.
Proof. intros H. unfold fmean. now rewrite (fsum_None l H). Qed.

Lemma fsub_None_r (a : fl) : fsub a None = None.
Proof. now destruct a. Qed.

(** Property X3.  Without the ReLU, a channel value at or below [-eps]
    makes the SMOE scale of its pixel non-finite: the logarithm is taken
    of a non-positive number. *)
Theorem SMOEScaleMap_forward_entry_below_guard
        (self : SMOEScaleMap.t) (x : tensor) (s0 s1 : nat) (rest : list nat)
        (b : nat) (r : list nat) (c : nat) (q : R) :
  size x = s0 :: s1 :: rest -> rest <> [] ->
  in_range (b :: r) (s0 :: rest) ->
  SMOEScaleMap.relu self = false ->
  (c < s1)%nat -> data x (b :: c :: r) = Some q -> q <= - eps ->
  exists th,
    SMOEScaleMap.forward self (OTensor x) = Ok th /\
    data th (b :: r) = None.
Proof.
  intros Hs Hrest Hin Hrelu Hc Hq Hle.
  destruct (SMOEScaleMap_forward_pixel self x s0 s1 rest Hs Hrest) as (th & Hfw & _ & Hpx).
  exists th. split; [exact Hfw|]. rewrite (Hpx b r Hin), Hrelu.
  unfold smoe_stat. cbv zeta.
  rewrite (fmean_None (map flog2 _)); [now rewrite fsub_None_r|].
  rewrite !map_map. apply in_map_iff. exists c. split; [|apply in_seq; lia].
  rewrite Hq. cbn [fadd flift2 flog2].
  destruct (Rlt_dec 0 (q + eps)); [lra|reflexivity].
Qed.

Lemma SMOEScaleMap_forward_entry_below_guard_witness :
  exists th,
    SMOEScaleMap.forward (SMOEScaleMap.init false) (OTensor x_negative) = Ok th /\
    data th [0; 0; 0]%nat = None.
Proof.
  apply (SMOEScaleMap_forward_entry_below_guard
           (SMOEScaleMap.init false) x_negative 1 2 [1; 1]%nat 0 [0; 0]%nat 0 (-1)).
  - reflexivity.
  - discriminate.
  - unfold in_range. repeat (apply Forall2_cons; [lia|]). apply Forall2_nil.
  - reflexivity.
  - lia.
  - reflexivity.
  - unfold eps. lra.
Defined.

Lemma rsum_squares_zero (g : R -> R) (rs : list R) :
  rsum (map (fun r => g r * g r) rs) = 0 -> Forall (fun r => g r = 0) rs.
Proof.
  induction rs as [|r rs IH]; [constructor|].
  cbn [map rsum fold_right]. fold (rsum (map (fun r => g r * g r) rs)). intros H.
  pose proof (rsum_squares_nonneg g rs) as Hnn.
  assert (Hr : 0 <= g r * g r) by nra.
  constructor; [nra|]. apply IH. lra.
Qed.

(** The unbiased standard deviation of two or more values vanishes exactly
    on constant lists. *)
Lemma rstd_zero_iff (rs : list R) :
  (2 <= length rs)%nat ->
  (rstd rs = 0 <-> forall a b, In a rs -> In b rs -> a = b).
Proof.
  intros Hlen.
  assert (Hn : 0 < INR (length rs - 1)) by (apply lt_0_INR; lia).
  pose proof (rsum_squares_nonneg (fun r => r - rmean rs) rs) as Hnn.
  split.
  - intros Hz. unfold rstd in Hz.
    apply sqrt_eq_0 in Hz; [|apply Rmult_le_pos; [exact Hnn|left; now apply Rinv_0_lt_compat]].
    assert (Hs : rsum (map (fun r => (r - rmean rs) * (r - rmean rs)) rs) = 0).
    { apply (f_equal (fun t => t * INR (length rs - 1))) in Hz.
      unfold Rdiv in Hz. rewrite Rmult_assoc, Rinv_l in Hz by lra. lra. }
    pose proof (rsum_squares_zero (fun r => r - rmean rs) rs Hs) as Hf.
    rewrite Forall_forall in Hf. intros a b Ha Hb.
    pose proof (Hf a Ha). pose proof (Hf b Hb). cbv beta in *. lra.
  - intros Heq. unfold rstd. rewrite (all_equal_repeat rs Heq).
    rewrite rmean_repeat by lia. rewrite map_repeat.
    replace ((hd 0 rs - hd 0 rs) * (hd 0 rs - hd 0 rs)) with 0 by ring.
    rewrite rsum_zeros. unfold Rdiv. rewrite Rmult_0_l. apply sqrt_0.
Qed.

Lemma fstd_short (l : list fl) : (length l <= 1)%nat -> fstd l = None.
Proof.
  intros Hlen. unfold fstd.
  replace (length l - 1)%nat with O by lia. cbn [INR].
  now rewrite fdiv_zero.
Qed.

(** Property X4.  The degenerate cases of [StdMap.forward].  With fewer
    than two channels every entry of the result is non-finite (the
    unbiased deviation divides by the number of channels minus one); at a
    pixel whose channel values, two or more, are all the same finite
    number the result is 0. *)
Theorem StdMap_forward_degenerate
        (x : tensor) (s0 s1 : nat) (rest : list nat) (b : nat) (r : list nat) :
  size x = s0 :: s1 :: rest -> rest <> [] ->
  exists out,
    StdMap.forward (OTensor x) = Ok out /\
    ((s1 < 2)%nat -> data out (b :: r) = None) /\
    (forall v, (2 <= s1)%nat ->
               (forall c, (c < s1)%nat -> data x (b :: c :: r) = Some v) ->
               data out (b :: r) = Some 0).
Proof.
  intros Hs Hrest.
  destruct (StdMap_forward_pixel x s0 s1 rest Hs Hrest) as (out & Hfw & _ & Hpx).
  exists out. split; [exact Hfw|]. rewrite Hpx. split.
  - intros H2. apply fstd_short. rewrite length_map, length_seq. lia.
  - intros v H2 Hv.
    assert (Hl : map (fun c => data x (b :: c :: r)) (seq 0 s1)
                 = map Some (map (fun _ => v) (seq 0 s1))).
    { rewrite map_map. apply map_seq_ext. intros c Hc. apply Hv. lia. }
    assert (Hlen : (2 <= length (map (fun _ : nat => v) (seq 0 s1)))%nat)
      by (rewrite length_map, length_seq; exact H2).
    rewrite Hl, fstd_Some by exact Hlen. f_equal.
    apply (rstd_zero_iff _ Hlen).
    intros a a' Ha Ha'. apply in_map_iff in Ha, Ha'.
    destruct Ha as (c1 & <- & _), Ha' as (c2 & <- & _). reflexivity.
Qed.

Lemma StdMap_forward_degenerate_witness :
  exists out,
    StdMap.forward (OTensor (mkT [1; 3; 1; 1]%nat (fun _ => Some 1))) = Ok out /\
    data out [0; 0; 0]%nat = Some 0.
Proof.
  destruct (StdMap_forward_degenerate (mkT [1; 3; 1; 1]%nat (fun _ => Some 1))
              1 3 [1; 1]%nat 0 [0; 0]%nat eq_refl ltac:(discriminate))
    as (out & Hfw & _ & Hc).
  exists out. split; [exact Hfw|].
  apply (Hc 1); [lia|]. intros c Hc'. reflexivity.
Defined.

Lemma trunc_stat_degenerate (self : TruncNormalEntMap.t) (l : list fl) :
  fstd l = Some 0 \/ fstd l = None -> trunc_stat self l = None.
Proof.
  intros Hs. unfold trunc_stat. cbv zeta.
  assert (Ha : fdiv (fsub (Some 0) (fmean l)) (fstd l) = None).
  { destruct Hs as [-> | ->]; [apply fdiv_zero|].
    now destruct (fsub (Some 0) (fmean l)). }
  rewrite Ha. cbn [fmul flift2 fdiv].
  match goal with |- fadd ?a None = None => now destruct a end.
Qed.

(** Property X5.  At a pixel whose channel values are all equal (in
    particular with a single channel) [TruncNormalEntMap.forward] returns a
    non-finite value: the standard deviation it divides by is zero or
    undefined. *)
Theorem TruncNormalEntMap_forward_constant_channels
        (self : TruncNormalEntMap.t) (x : tensor) (s0 s1 : nat) (rest : list nat)
        (b : nat) (r : list nat) (c : R) :
  size x = s0 :: s1 :: rest -> rest <> [] ->
  in_range (b :: r) (s0 :: rest) ->
  (forall ch, (ch < s1)%nat -> data x (b :: ch :: r) = Some c) ->
  exists ent,
    TruncNormalEntMap.forward self (OTensor x) = Ok ent /\
    data ent (b :: r) = None.
Proof.
  intros Hs Hrest Hin Hc.
  destruct (TruncNormalEntMap_forward_pixel self x s0 s1 rest Hs Hrest)
    as (ent & Hfw & _ & Hpx).
  exists ent. split; [exact Hfw|]. rewrite (Hpx b r Hin).
  apply trunc_stat_degenerate.
  assert (Hl : map (fun ch => data x (b :: ch :: r)) (seq 0 s1)
               = map Some (repeat c s1)).
  { rewrite <- (map_const_seq c 0 s1), map_map. apply map_seq_ext.
    intros ch Hch. apply Hc. lia. }
  rewrite Hl. apply fstd_constant.
Qed.

Lemma TruncNormalEntMap_forward_constant_channels_witness :
  exists ent,
    TruncNormalEntMap.forward TruncNormalEntMap.init
                              (OTensor (mkT [1; 3; 1; 1]%nat (fun _ => Some 1))) = Ok ent /\
    data ent [0; 0; 0]%nat = None.
Proof.
  apply (TruncNormalEntMap_forward_constant_channels
           TruncNormalEntMap.init (mkT [1; 3; 1; 1]%nat (fun _ => Some 1))
           1 3 [1; 1]%nat 0 [0; 0]%nat 1).
  - reflexivity.
  - discriminate.
  - unfold in_range. repeat (apply Forall2_cons; [lia|]). apply Forall2_nil.
  - intros ch Hch. reflexivity.
Defined.

(* ----------------------------------------------------------------- *)
(** ** [Normalize2D] *)

(** Property X7.  [Normalize2D.forward] returns a tensor, of the size of
    its argument, exactly when the argument is a tensor with three axes;
    otherwise it raises [AssertionError]. *)
Theorem Normalize2D_forward_guard (x : pyobj) :
  guarded_by_rank3 x (Normalize2D.forward x).
Proof.
  destruct x as [|t|l]; cbn [guarded_by_rank3]; try reflexivity.
  destruct (rank t =? 3)%nat eqn:Hr.
  - apply Nat.eqb_eq in Hr. unfold rank in Hr.
    destruct (size t) as [|s0 [|s1 [|s2 [|s3 rest]]]] eqn:Hs; try discriminate.
    destruct (Normalize2D_forward_pixel t s0 s1 s2 Hs) as (out & Hfw & Hsz & _).
    exists out. split; assumption.
  - unfold Normalize2D.forward. cbn [is_tensor bind]. now rewrite Hr.
Qed.

(* ================================================================= *)
(** * Further properties of [CombineSaliencyMaps] *)

Lemma fold_py_add (l : list R) (a : R) :
  fold_left (fun acc w => acc <- acc ;; py_add acc w) (map PyNum l) (Ok (PyNum a))
  = Ok (PyNum (a + rsum l)).
Proof.
  revert a. induction l as [|x l IH]; intros a.
  - simpl. now rewrite Rplus_0_r.
  - cbn [map fold_left bind py_add]. rewrite IH.
    change (rsum (x :: l)) with (x + rsum l). do 2 f_equal. ring.
Qed.

Lemma map_PyNum_repeat (n : nat) : repeat (PyNum 1) n = map PyNum (repeat 1 n).
Proof. now rewrite map_repeat. Qed.

Lemma CombineSaliencyMaps_init_value
      (output_size : list Z) (map_num : Z) (weights : pyval)
      (mode : string) (mag : bool) :
  CombineSaliencyMaps.init output_size map_num weights mode mag =
  init_outcome output_size map_num weights mode mag.
Proof.
  unfold CombineSaliencyMaps.init, init_outcome, valid_geometry.
  destruct (length output_size =? 2)%nat; cbn [assert bind andb]; [|reflexivity].
  destruct (0 <? nth 0 output_size 0)%Z; cbn [assert bind andb]; [|reflexivity].
  destruct (0 <? nth 1 output_size 0)%Z; cbn [assert bind andb]; [|reflexivity].
  destruct (0 <? map_num)%Z; cbn [assert bind andb]; [|reflexivity].
  destruct weights as [|w|l].
  - cbn [bind]. rewrite map_PyNum_repeat, fold_py_add. cbn [bind].
    rewrite rsum_repeat, Rplus_0_l, Rmult_1_r. reflexivity.
  - reflexivity.
  - cbn [py_len bind].
    destruct (length l =? 1)%nat; [reflexivity|].
    destruct (Z.of_nat (length l) =? map_num)%Z; cbn [assert bind py_iter]; [|reflexivity].
    rewrite fold_py_add. cbn [bind]. now rewrite Rplus_0_l.
Qed.

(** Property X10.  The constructor of the map combiner, case by case.  It
    raises [AssertionError] unless the output size has two positive
    entries and the number of maps is positive.  Then: without weights
    every map gets the weight 1 and the weight sum is the number of maps;
    a list of weights whose length is the number of maps (and is not 1) is
    stored as it is, without any check of the sign of its entries, with
    its sum; a list of another length raises [AssertionError]; a number or
    a one-element list raises [TypeError]. *)
Theorem CombineSaliencyMaps_init_cases
        (output_size : list Z) (map_num : Z) (weights : pyval)
        (mode : string) (mag : bool) :
  CombineSaliencyMaps.init output_size map_num weights mode mag =
  if valid_geometry output_size map_num then
    match weights with
    | PyNone =>
        Ok (CombineSaliencyMaps.mk (repeat (PyNum 1) (Z.to_nat map_num))
                                   (PyNum (INR (Z.to_nat map_num)))
                                   map_num output_size mode mag)
    | PyNum _ => Raise TypeError
    | PyList l =>
        if (length l =? 1)%nat then Raise TypeError
        else if (Z.of_nat (length l) =? map_num)%Z then
          Ok (CombineSaliencyMaps.mk (map PyNum l) (PyNum (rsum l))
                                     map_num output_size mode mag)
        else Raise AssertionError
    end
  else Raise AssertionError.
Proof. apply CombineSaliencyMaps_init_value. Qed.

Lemma src_index_bounds (insz outsz i : nat) :
  (0 < insz)%nat -> (i < outsz)%nat ->
  (fst (fst (src_index insz outsz i)) < insz)%nat /\
  (snd (fst (src_index insz outsz i)) < insz)%nat /\
  0 <= snd (src_index insz outsz i) < 1.
Proof.
  intros Hin Hi. unfold src_index. cbv zeta. cbn [fst snd].
  set (num := Z.max 0 (Z.of_nat insz * (2 * Z.of_nat i + 1) - Z.of_nat outsz)).
  set (den := (2 * Z.of_nat outsz)%Z).
  assert (Hden : (0 < den)%Z) by (unfold den; lia).
  assert (Hnum : (0 <= num < Z.of_nat insz * den)%Z) by (unfold num, den; nia).
  assert (Hq : (0 <= num / den < Z.of_nat insz)%Z).
  { split; [apply Z.div_pos; lia|]. apply Z.div_lt_upper_bound; lia. }
  assert (H0 : (Z.to_nat (num / den) < insz)%nat) by lia.
  split; [exact H0|]. split.
  - destruct (Nat.ltb_spec (Z.to_nat (num / den)) (insz - 1)); lia.
  - pose proof (Z.mod_pos_bound num den Hden) as Hm.
    assert (Hd : 0 < IZR den) by now apply IZR_lt.
    assert (H1 : 0 <= IZR (num mod den)) by (apply IZR_le; lia).
    assert (H2 : IZR (num mod den) < IZR den) by (apply IZR_lt; lia).
    split.
    + apply Rmult_le_pos; [exact H1|]. left. now apply Rinv_0_lt_compat.
    + apply Rmult_lt_reg_r with (r := IZR den); [exact Hd|].
      unfold Rdiv. rewrite Rmult_assoc, Rinv_l by lra. lra.
Qed.

Lemma prod_unsqueeze (bn h w : nat) : prod [bn; 1%nat; h; w] = prod [bn; h; w].
Proof. cbn [prod fold_right]. ring. Qed.

(** The resized copy of a map of the batch: [reshape] to four axes, then
    [interpolate]. *)
Lemma resize_map (M : tensor) (bn h w : nat) (Hp Wp : positive) :
  size M = [bn; h; w] -> (0 < h)%nat -> (0 < w)%nat ->
  exists M4 R,
    reshape M [bn; 1%nat; h; w] = Ok M4 /\
    interpolate M4 [Z.pos Hp; Z.pos Wp] "bilinear" = Ok R /\
    size R = [bn; 1%nat; Pos.to_nat Hp; Pos.to_nat Wp] /\
    forall b i j, (i < Pos.to_nat Hp)%nat -> (j < Pos.to_nat Wp)%nat ->
      data R [b; O; i; j] = resample M (Pos.to_nat Hp) (Pos.to_nat Wp) b i j.
Proof.
  intros Hsz Hh Hw.
  set (H := Pos.to_nat Hp). set (W := Pos.to_nat Wp).
  assert (HH : (0 < H)%nat) by apply Pos2Nat.is_pos.
  assert (HW : (0 < W)%nat) by apply Pos2Nat.is_pos.
  unfold reshape. rewrite Hsz, prod_unsqueeze, Nat.eqb_refl.
  eexists. eexists. split; [reflexivity|].
  unfold interpolate.
  replace (String.eqb "bilinear" "bilinear") with true by reflexivity.
  cbn [Z.to_nat]. fold H. fold W. unfold bilinear. cbn [size].
  assert (Hc : ((0 <? h) && (0 <? w) && (0 <? H) && (0 <? W))%nat = true).
  { apply Nat.ltb_lt in Hh, Hw, HH, HW. now rewrite Hh, Hw, HH, HW. }
  rewrite Hc. split; [reflexivity|]. split; [reflexivity|].
  intros b i j Hi Hj. cbn [data]. unfold resample. rewrite Hsz. cbn [nth].
  destruct (src_index_bounds h H i Hh Hi) as (A0 & A1 & _).
  destruct (src_index_bounds w W j Hw Hj) as (B0 & B1 & _).
  destruct (src_index h H i) as [[h0 h1] hl].
  destruct (src_index w W j) as [[w0 w1] wl].
  cbn [fst snd] in A0, A1, B0, B1.
  now rewrite !unravel_unsqueeze by assumption.
Qed.

Lemma in_range4 (b c i j B C H W : nat) :
  (b < B)%nat -> (c < C)%nat -> (i < H)%nat -> (j < W)%nat ->
  in_range [b; c; i; j] [B; C; H; W].
Proof.
  intros. unfold in_range. repeat (apply Forall2_cons; [assumption|]). apply Forall2_nil.
Qed.

(** One turn of the loop of [forward]. *)
Lemma CombineSaliencyMaps_step_Ok
      (g : CombineSaliencyMaps.t) (smaps : list tensor) (cm : tensor)
      (ww : list tensor) (k : nat) (M : tensor) (wk : R) (bn h w : nat)
      (Hp Wp : positive) :
  CombineSaliencyMaps.output_size g = [Z.pos Hp; Z.pos Wp] ->
  CombineSaliencyMaps.resize_mode g = "bilinear"%string ->
  nth_error smaps k = Some M ->
  nth_error (CombineSaliencyMaps.weights g) k = Some (PyNum wk) ->
  size M = [bn; h; w] -> (0 < h)%nat -> (0 < w)%nat ->
  size cm = [bn; 1%nat; Pos.to_nat Hp; Pos.to_nat Wp] ->
  exists cm' R,
    CombineSaliencyMaps.step g smaps (cm, ww) k = Ok (cm', ww ++ [R]) /\
    size cm' = [bn; 1%nat; Pos.to_nat Hp; Pos.to_nat Wp] /\
    size R = [bn; 1%nat; Pos.to_nat Hp; Pos.to_nat Wp] /\
    forall b i j, (b < bn)%nat -> (i < Pos.to_nat Hp)%nat -> (j < Pos.to_nat Wp)%nat ->
      data R [b; O; i; j] =
        layer_value (CombineSaliencyMaps.magnitude g)
                    (resample M (Pos.to_nat Hp) (Pos.to_nat Wp) b i j) /\
      data cm' [b; O; i; j] =
        fadd (data cm [b; O; i; j]) (fmul (data R [b; O; i; j]) (Some wk)).
Proof.
  intros Hos Hmode HM Hwk Hsz Hh Hw Hcm.
  destruct (resize_map M bn h w Hp Wp Hsz Hh Hw) as (M4 & R0 & Hre & Hint & HR0 & HdR0).
  unfold CombineSaliencyMaps.step.
  rewrite (getitem_nth _ _ _ HM). cbn [bind]. rewrite Hsz.
  cbn [getitem nth_error bind]. rewrite Hre. cbn [bind].
  rewrite Hos, Hmode, Hint. cbn [bind].
  set (R := if CombineSaliencyMaps.magnitude g then tzip fmul R0 R0 else R0).
  assert (HRe : (if CombineSaliencyMaps.magnitude g then tbin fmul R0 R0 else Ok R0)
                = Ok R).
  { unfold R. destruct (CombineSaliencyMaps.magnitude g); [|reflexivity].
    now apply tbin_tzip. }
  assert (HRs : size R = [bn; 1%nat; Pos.to_nat Hp; Pos.to_nat Wp]).
  { unfold R. destruct (CombineSaliencyMaps.magnitude g); [|exact HR0].
    cbn [tzip size]. exact HR0. }
  rewrite HRe. cbn [bind]. rewrite (getitem_nth _ _ _ Hwk). cbn [bind tmul_py].
  rewrite tbin__tzip by (cbn [tmap size]; now rewrite HRs, Hcm). cbn [bind].
  eexists. exists R. split; [reflexivity|].
  split; [cbn [tzip size]; exact Hcm|]. split; [exact HRs|].
  intros b i j Hb Hi Hj.
  assert (Hin : in_range [b; O; i; j] [bn; 1%nat; Pos.to_nat Hp; Pos.to_nat Wp])
    by (apply in_range4; assumption || lia).
  split.
  - unfold R, layer_value. destruct (CombineSaliencyMaps.magnitude g).
    + rewrite tzip_data by (now rewrite HR0). now rewrite (HdR0 b i j Hi Hj).
    + now apply HdR0.
  - rewrite tzip_data by (now rewrite Hcm). reflexivity.
Qed.

Lemma CombineSaliencyMaps_loop
      (g : CombineSaliencyMaps.t) (smaps : list tensor) (ws : list R) (bn : nat)
      (Hp Wp : positive) :
  CombineSaliencyMaps.output_size g = [Z.pos Hp; Z.pos Wp] ->
  CombineSaliencyMaps.resize_mode g = "bilinear"%string ->
  CombineSaliencyMaps.weights g = map PyNum ws ->
  forall (post pre : list tensor) (postw prew : list R) (cm : tensor) (ww : list tensor),
    smaps = pre ++ post -> ws = prew ++ postw ->
    length pre = length prew -> length post = length postw ->
    batch_maps bn post ->
    size cm = [bn; 1%nat; Pos.to_nat Hp; Pos.to_nat Wp] ->
    exists cm' Rs,
      fold_left (fun st i => st <- st ;; CombineSaliencyMaps.step g smaps st i)
                (seq (length pre) (length post)) (Ok (cm, ww)) = Ok (cm', ww ++ Rs) /\
      size cm' = [bn; 1%nat; Pos.to_nat Hp; Pos.to_nat Wp] /\
      Forall2 (fun M R =>
                 size R = [bn; 1%nat; Pos.to_nat Hp; Pos.to_nat Wp] /\
                 forall b i j, (b < bn)%nat -> (i < Pos.to_nat Hp)%nat ->
                               (j < Pos.to_nat Wp)%nat ->
                   data R [b; O; i; j] =
                     layer_value (CombineSaliencyMaps.magnitude g)
                                 (resample M (Pos.to_nat Hp) (Pos.to_nat Wp) b i j))
              post Rs /\
      forall b i j, (b < bn)%nat -> (i < Pos.to_nat Hp)%nat -> (j < Pos.to_nat Wp)%nat ->
        data cm' [b; O; i; j] =
          fold_left fadd
                    (weighted_layers (CombineSaliencyMaps.magnitude g)
                                     (Pos.to_nat Hp) (Pos.to_nat Wp) b i j post postw)
                    (data cm [b; O; i; j]).
Proof.
  intros Hos Hmode Hws.
  induction post as [|M post IH]; intros pre postw prew cm ww Hsm Hw Hl1 Hl2 Hb Hcm.
  - exists cm, []. rewrite app_nil_r. cbn [length seq fold_left].
    split; [reflexivity|]. split; [exact Hcm|]. split; [constructor|].
    intros. reflexivity.
  - destruct postw as [|wk postw]; [discriminate|].
    inversion Hb as [|? ? (h & w & Hsz & Hh & Hw') Hb']; subst.
    assert (HM : nth_error (pre ++ M :: post) (length pre) = Some M).
    { rewrite nth_error_app2 by lia. now rewrite Nat.sub_diag. }
    assert (Hwk : nth_error (CombineSaliencyMaps.weights g) (length pre)
                  = Some (PyNum wk)).
    { rewrite Hws, map_app, nth_error_app2 by (rewrite length_map; lia).
      rewrite length_map, Hl1, Nat.sub_diag. reflexivity. }
    destruct (CombineSaliencyMaps_step_Ok g (pre ++ M :: post) cm ww (length pre) M wk
                bn h w Hp Wp Hos Hmode HM Hwk Hsz Hh Hw' Hcm)
      as (cm1 & R & Hstep & Hcm1 & HR & Hd).
    destruct (IH (pre ++ [M]) postw (prew ++ [wk]) cm1 (ww ++ [R]))
      as (cm' & Rs & Hfold & Hcm' & HF & Hdata).
    { now rewrite <- app_assoc. }
    { now rewrite <- app_assoc. }
    { rewrite !length_app. cbn [length]. lia. }
    { cbn [length] in Hl2. lia. }
    { exact Hb'. }
    { exact Hcm1. }
    exists cm', (R :: Rs).
    cbn [length seq fold_left bind]. rewrite Hstep.
    rewrite length_app in Hfold. cbn [length] in Hfold.
    rewrite Nat.add_1_r in Hfold. rewrite Hfold, <- app_assoc.
    split; [reflexivity|]. split; [exact Hcm'|]. split.
    + constructor; [|exact HF]. split; [exact HR|].
      intros b i j Hb0 Hi Hj. now apply Hd.
    + intros b i j Hb0 Hi Hj. rewrite (Hdata b i j Hb0 Hi Hj).
      destruct (Hd b i j Hb0 Hi Hj) as [HdR Hdc]. rewrite Hdc, HdR.
      reflexivity.
Qed.

Lemma divmod_lin (a r n : nat) :
  (r < n)%nat -> ((a * n + r) / n = a)%nat /\ ((a * n + r) mod n = r)%nat.
Proof.
  intros Hr. split.
  - rewrite Nat.div_add_l by lia. rewrite (Nat.div_small _ _ Hr). lia.
  - rewrite Nat.add_comm, Nat.Div0.mod_add. now apply Nat.mod_small.
Qed.

Lemma unravel_stack (B L H W b l h w : nat) :
  (l < L)%nat -> (h < H)%nat -> (w < W)%nat ->
  unravel [B; L; 1%nat; H; W] (ravel [B; L; H; W] [b; l; h; w] 0) = [b; l; O; h; w].
Proof.
  intros Hl Hh Hw. cbn [ravel unravel prod fold_right].
  rewrite !Nat.mul_1_r, !Nat.mul_1_l, Nat.mul_0_l, Nat.add_0_l, Nat.div_1_r.
  assert (H2 : (h * W + w < H * W)%nat) by nia.
  assert (H1 : (l * (H * W) + (h * W + w) < L * (H * W))%nat) by nia.
  replace (((b * L + l) * H + h) * W + w)%nat
    with (b * (L * (H * W)) + (l * (H * W) + (h * W + w)))%nat by ring.
  destruct (divmod_lin b _ _ H1) as [E1 E2]. rewrite E1, E2.
  destruct (divmod_lin l _ _ H2) as [E3 E4]. rewrite E3, E4.
  rewrite (Nat.div_small _ _ H2), (Nat.mod_small _ _ H2).
  destruct (divmod_lin h _ _ Hw) as [E5 E6]. rewrite E5, E6.
  reflexivity.
Qed.

Lemma forallb_size_eqb (s : list nat) (Rs : list tensor) :
  Forall (fun R => size R = s) Rs ->
  forallb (fun t => size_eqb (size t) s) Rs = true.
Proof.
  induction 1 as [|R Rs HR _ IH]; [reflexivity|].
  cbn [forallb]. now rewrite HR, size_eqb_refl, IH.
Qed.

(** [forward] of a combiner with the weights [ws] and the weight sum
    [wsum], on maps of one batch. *)
Lemma CombineSaliencyMaps_forward_value
      (g : CombineSaliencyMaps.t) (smaps : list tensor) (ws : list R) (wsum : R)
      (bn : nat) (Hp Wp : positive) :
  CombineSaliencyMaps.output_size g = [Z.pos Hp; Z.pos Wp] ->
  CombineSaliencyMaps.resize_mode g = "bilinear"%string ->
  CombineSaliencyMaps.weights g = map PyNum ws ->
  CombineSaliencyMaps.weight_sum g = PyNum wsum ->
  CombineSaliencyMaps.map_num g = Z.of_nat (length smaps) ->
  smaps <> [] -> length ws = length smaps ->
  batch_maps bn smaps ->
  exists cm ww,
    CombineSaliencyMaps.forward g smaps = Ok (cm, ww) /\
    size cm = [bn; Pos.to_nat Hp; Pos.to_nat Wp] /\
    size ww = [bn; length smaps; Pos.to_nat Hp; Pos.to_nat Wp] /\
    forall b i j, (b < bn)%nat -> (i < Pos.to_nat Hp)%nat -> (j < Pos.to_nat Wp)%nat ->
      data cm [b; i; j] =
        fdiv (fsum (weighted_layers (CombineSaliencyMaps.magnitude g)
                                    (Pos.to_nat Hp) (Pos.to_nat Wp) b i j smaps ws))
             (Some wsum) /\
      forall l M, nth_error smaps l = Some M ->
        data ww [b; l; i; j] =
          layer_value (CombineSaliencyMaps.magnitude g)
                      (resample M (Pos.to_nat Hp) (Pos.to_nat Wp) b i j).
Proof.
  intros Hos Hmode Hws Hwsum Hmn Hne Hlen Hb.
  set (H := Pos.to_nat Hp) in *. set (W := Pos.to_nat Wp) in *.
  destruct smaps as [|M0 smaps']; [congruence|].
  set (smaps := M0 :: smaps') in *.
  assert (HM0 : exists h w, size M0 = [bn; h; w]).
  { inversion Hb as [|? ? (h & w & Hsz & _) _]; subst. now exists h, w. }
  destruct HM0 as (h0 & w0 & HM0).
  destruct (CombineSaliencyMaps_loop g smaps ws bn Hp Wp Hos Hmode Hws
              smaps [] ws [] (zeros [bn; 1%nat; H; W]) [])
    as (cm' & Rs & Hfold & Hcm' & HF & Hdata); try reflexivity.
  { now rewrite Hlen. }
  { exact Hb. }
  cbn [length app] in Hfold. fold H in Hcm', HF, Hdata. fold W in Hcm', HF, Hdata.
  unfold CombineSaliencyMaps.forward.
  rewrite Hmn, Z.eqb_refl. cbn [assert bind]. unfold smaps at 1.
  cbn [getitem nth_error bind]. unfold rank. rewrite HM0.
  cbn [length Nat.eqb assert bind nth]. rewrite Hos. cbn [nth Z.to_nat].
  fold H. fold W. fold smaps.
  change (length smaps) with (S (length smaps')) in Hfold |- *.
  rewrite Hfold. cbn [bind]. rewrite Hwsum. cbn [tdiv_py bind].
  unfold reshape at 1. cbn [tmap size]. rewrite Hcm', <- prod_unsqueeze, Nat.eqb_refl.
  cbn [bind].
  assert (HRs : Forall (fun R => size R = [bn; 1%nat; H; W]) Rs).
  { clear -HF. induction HF as [|M R ms rs [HR _] _ IH]; constructor; assumption. }
  assert (HlenR : length Rs = S (length smaps')).
  { symmetry. apply (Forall2_length HF). }
  destruct Rs as [|R0 Rs']; [discriminate|].
  assert (HR0 : size R0 = [bn; 1%nat; H; W]) by (inversion HRs; assumption).
  unfold stack_dim1. rewrite HR0, (forallb_size_eqb _ _ HRs).
  cbn [bind]. unfold reshape. cbn [size]. rewrite Nat2Z.id, HlenR.
  replace (prod [bn; S (length smaps'); H; W]
           =? prod [bn; S (length smaps'); 1%nat; H; W])%nat with true
    by (symmetry; apply Nat.eqb_eq; cbn [prod fold_right]; ring).
  cbn [bind].
  eexists. eexists. split; [reflexivity|].
  split; [reflexivity|]. split; [reflexivity|].
  intros b i j Hb0 Hi Hj. cbn [data tmap]. split.
  - rewrite (unravel_squeeze bn H W b i j Hi Hj).
    rewrite (Hdata b i j Hb0 Hi Hj). cbn [zeros data].
    now rewrite fold_left_fadd, fadd_0_l.
  - intros l M HlM.
    assert (Hl : (l < S (length smaps'))%nat).
    { change (S (length smaps')) with (length smaps). apply nth_error_Some. congruence. }
    rewrite (unravel_stack bn (S (length smaps')) H W b l i j Hl Hi Hj).
    assert (HRl : exists R, nth_error (R0 :: Rs') l = Some R /\
                            data R [b; O; i; j] =
                            layer_value (CombineSaliencyMaps.magnitude g)
                                        (resample M H W b i j)).
    { clear -HF HlM Hb0 Hi Hj. revert l HlM.
      induction HF as [|M' R ms rs [_ HR] _ IH]; intros l HlM.
      - destruct l; discriminate.
      - destruct l as [|l]; cbn [nth_error] in *.
        + injection HlM as <-. exists R. split; [reflexivity|]. now apply HR.
        + now apply IH. }
    destruct HRl as (R & HnR & HdR). rewrite HnR. exact HdR.
Qed.

Lemma CombineSaliencyMaps_init_weights
      (Hp Wp : positive) (L : nat) (weights : pyval) (mode : string) (mag : bool)
      (g : CombineSaliencyMaps.t) :
  CombineSaliencyMaps.init [Z.pos Hp; Z.pos Wp] (Z.of_nat L) weights mode mag = Ok g ->
  L <> O /\
  CombineSaliencyMaps.output_size g = [Z.pos Hp; Z.pos Wp] /\
  CombineSaliencyMaps.resize_mode g = mode /\
  CombineSaliencyMaps.magnitude g = mag /\
  CombineSaliencyMaps.map_num g = Z.of_nat L /\
  CombineSaliencyMaps.weights g = map PyNum (weight_list weights L) /\
  CombineSaliencyMaps.weight_sum g = PyNum (rsum (weight_list weights L)) /\
  length (weight_list weights L) = L.
Proof.
  rewrite CombineSaliencyMaps_init_value. unfold init_outcome, valid_geometry.
  cbn [length Nat.eqb nth andb]. change (0 <? Z.pos Hp)%Z with true.
  change (0 <? Z.pos Wp)%Z with true. cbn [andb].
  destruct (Z.ltb_spec 0 (Z.of_nat L)) as [HL|HL]; [|discriminate].
  destruct weights as [|w|l].
  - intros Hg. injection Hg as <-. cbn [weight_list].
    rewrite Nat2Z.id, map_repeat, rsum_repeat, Rmult_1_r, repeat_length.
    repeat split; try reflexivity. lia.
  - discriminate.
  - destruct (length l =? 1)%nat; [discriminate|].
    destruct (Z.eqb_spec (Z.of_nat (length l)) (Z.of_nat L)) as [E|E]; [|discriminate].
    intros Hg. injection Hg as <-. cbn [weight_list].
    repeat split; try reflexivity; lia.
Qed.

(** Property X11.  The map combiner computes a weighted mean.  For a
    combiner built by its constructor for bilinear resizing with weights
    of moderate size (the default weights, all 1, are), called on as many
    maps of one batch as it was built for, with entries between 0 and 1
    (the range of [Normalize2D]), every entry of the combined map is the
    sum over the maps of weight times resized map (squared under
    [magnitude]), divided by the sum of the weights, and layer [l] of the
    stacked result is the resized map [l] (squared under [magnitude]).
    The maps may have different heights and widths. *)
Theorem CombineSaliencyMaps_forward_weighted_mean
        (Hp Wp : positive) (weights : pyval) (mag : bool)
        (smaps : list tensor) (bn : nat) (g : CombineSaliencyMaps.t) :
  CombineSaliencyMaps.init [Z.pos Hp; Z.pos Wp] (Z.of_nat (length smaps)) weights
                           "bilinear" mag = Ok g ->
  batch_maps bn smaps ->
  Forall unit_range smaps ->
  Forall moderate (weight_list weights (length smaps)) ->
  let H := Pos.to_nat Hp in
  let W := Pos.to_nat Wp in
  let ws := weight_list weights (length smaps) in
  exists cm ww,
    CombineSaliencyMaps.forward g smaps = Ok (cm, ww) /\
    size cm = [bn; H; W] /\
    size ww = [bn; length smaps; H; W] /\
    forall b i j, (b < bn)%nat -> (i < H)%nat -> (j < W)%nat ->
      data cm [b; i; j] =
        fdiv (fsum (weighted_layers mag H W b i j smaps ws)) (Some (rsum ws)) /\
      forall l M, nth_error smaps l = Some M ->
        data ww [b; l; i; j] = layer_value mag (resample M H W b i j).
Proof.
  intros Hinit Hb _ _ H W ws.
  destruct (CombineSaliencyMaps_init_weights _ _ _ _ _ _ _ Hinit)
    as (HL & Hos & Hmode & Hmag & Hmn & Hws & Hsum & Hlen).
  rewrite <- Hmag.
  apply (CombineSaliencyMaps_forward_value g smaps ws (rsum ws) bn Hp Wp);
    try assumption.
  intros ->. now apply HL.
Qed.

Lemma unit_range_x_ones : unit_range x_ones.
Proof. intros idx _. exists 1. split; [reflexivity|lra]. Qed.

Lemma unit_range_x_unit_pair : unit_range x_unit_pair.
Proof.
  intros idx Hin. unfold in_range, x_unit_pair in *. cbn [size data] in *.
  inversion Hin as [|b ? idx1 ? _ H1]; subst.
  inversion H1 as [|h ? idx2 ? _ H2]; subst.
  inversion H2 as [|w ? idx3 ? _ H3]; subst.
  inversion H3; subst.
  destruct w as [|w]; eexists; (split; [reflexivity|cbn [pair_values]; lra]).
Qed.

Lemma CombineSaliencyMaps_forward_weighted_mean_witness :
  exists cm ww,
    CombineSaliencyMaps.forward
      (CombineSaliencyMaps.mk [PyNum 1; PyNum 3] (PyNum (rsum [1; 3])) 2
                              [2%Z; 2%Z] "bilinear" true)
      [x_ones; x_unit_pair] = Ok (cm, ww) /\
    size cm = [1; 2; 2]%nat /\
    size ww = [1; 2; 2; 2]%nat /\
    forall b i j, (b < 1)%nat -> (i < 2)%nat -> (j < 2)%nat ->
      data cm [b; i; j] =
        fdiv (fsum (weighted_layers true 2 2 b i j [x_ones; x_unit_pair] [1; 3]))
             (Some (rsum [1; 3])) /\
      forall l M, nth_error [x_ones; x_unit_pair] l = Some M ->
        data ww [b; l; i; j] = layer_value true (resample M 2 2 b i j).
Proof.
  apply (CombineSaliencyMaps_forward_weighted_mean
           2 2 (PyList [1; 3]) true [x_ones; x_unit_pair] 1).
  - rewrite CombineSaliencyMaps_init_value. reflexivity.
  - repeat constructor.
    + exists 2%nat, 2%nat. repeat split; lia.
    + exists 1%nat, 2%nat. repeat split; lia.
  - repeat constructor; [apply unit_range_x_ones|apply unit_range_x_unit_pair].
  - repeat constructor; unfold moderate; lra.
Defined.

(** Property X13.  The constructor does not check the sign of the weights
    of a list: the two weights [w] and [-w], whose sum is zero, are
    accepted, and every entry of the combined map is then non-finite (a
    division by zero). *)
Theorem CombineSaliencyMaps_zero_weight_sum
        (Hp Wp : positive) (w : R) (mag : bool) (M1 M2 : tensor) (bn : nat) :
  batch_maps bn [M1; M2] ->
  exists g cm ww,
    CombineSaliencyMaps.init [Z.pos Hp; Z.pos Wp] 2 (PyList [w; - w])
                             "bilinear" mag = Ok g /\
    CombineSaliencyMaps.forward g [M1; M2] = Ok (cm, ww) /\
    forall b i j, (b < bn)%nat -> (i < Pos.to_nat Hp)%nat -> (j < Pos.to_nat Wp)%nat ->
      data cm [b; i; j] = None.
Proof.
  intros Hb.
  assert (Hinit : CombineSaliencyMaps.init [Z.pos Hp; Z.pos Wp] 2 (PyList [w; - w])
                    "bilinear" mag
                  = Ok (CombineSaliencyMaps.mk (map PyNum [w; - w]) (PyNum (rsum [w; - w]))
                          2 [Z.pos Hp; Z.pos Wp] "bilinear" mag)).
  { rewrite CombineSaliencyMaps_init_value. reflexivity. }
  eexists. rewrite Hinit.
  destruct (CombineSaliencyMaps_forward_value
              (CombineSaliencyMaps.mk (map PyNum [w; - w]) (PyNum (rsum [w; - w]))
                 2 [Z.pos Hp; Z.pos Wp] "bilinear" mag)
              [M1; M2] [w; - w] (rsum [w; - w]) bn Hp Wp)
    as (cm & ww & Hfw & _ & _ & Hd); try reflexivity; try assumption;
    try discriminate.
  exists cm, ww. split; [reflexivity|]. split; [exact Hfw|].
  intros b i j Hb0 Hi Hj. destruct (Hd b i j Hb0 Hi Hj) as [-> _].
  replace (rsum [w; - w]) with 0 by (cbn [rsum fold_right]; ring).
  apply fdiv_zero.
Qed.

Lemma CombineSaliencyMaps_zero_weight_sum_witness :
  exists g cm ww,
    CombineSaliencyMaps.init [2%Z; 2%Z] 2 (PyList [1; - 1]) "bilinear" false = Ok g /\
    CombineSaliencyMaps.forward g [x_ones; x_ones] = Ok (cm, ww) /\
    forall b i j, (b < 1)%nat -> (i < 2)%nat -> (j < 2)%nat ->
      data cm [b; i; j] = None.
Proof.
  apply (CombineSaliencyMaps_zero_weight_sum 2 2 1 false x_ones x_ones 1).
  repeat constructor; exists 2%nat, 2%nat; repeat split; lia.
Defined.

(* ================================================================= *)
(** * Further properties of [misc.py] *)

Lemma py_index_negative (n i : nat) :
  (i < n)%nat -> py_index n (Z.of_nat i - Z.of_nat n) = Ok i.
Proof.
  intros Hi. unfold py_index.
  destruct (Z.leb_spec 0 (Z.of_nat i - Z.of_nat n)); [lia|]. cbn [andb].
  destruct (Z.leb_spec (- Z.of_nat n) (Z.of_nat i - Z.of_nat n)); [|lia].
  destruct (Z.ltb_spec (Z.of_nat i - Z.of_nat n) 0); [|lia].
  cbn [andb]. f_equal. lia.
Qed.

Lemma py_index_out (n : nat) (idx : Z) :
  (idx < - Z.of_nat n \/ Z.of_nat n <= idx)%Z -> py_index n idx = Raise IndexError.
Proof.
  intros H. unfold py_index.
  destruct (Z.leb_spec 0 idx); destruct (Z.ltb_spec idx (Z.of_nat n));
    destruct (Z.leb_spec (- Z.of_nat n) idx); destruct (Z.ltb_spec idx 0);
    cbn [andb]; try reflexivity; lia.
Qed.

(** Property X14.  [get] on an observer that stores a list of [n]
    tensors: a position from 0 to [n - 1] returns the tensor at that
    position, and so does the same position counted from the end
    (negative index); the position [n] itself and positions below [-n]
    raise [IndexError]; positions above [n] return [None]. *)
Theorem CaptureLayerData_get_bounds
        (s : CaptureLayerData.t) (l : list tensor) (idx : Z) :
  CaptureLayerData.data s = OList l ->
  let n := Z.of_nat (length l) in
  ((n < idx)%Z -> CaptureLayerData.get s idx = Ok ONone) /\
  (idx = n -> CaptureLayerData.get s idx = Raise IndexError) /\
  ((idx < - n)%Z -> CaptureLayerData.get s idx = Raise IndexError) /\
  (forall i x, nth_error l i = Some x ->
     CaptureLayerData.get s (Z.of_nat i) = Ok (OTensor x) /\
     CaptureLayerData.get s (Z.of_nat i - n) = Ok (OTensor x)).
Proof.
  intros E n. unfold CaptureLayerData.get. rewrite E.
  cbn [obj_len obj_getitem bind]. fold n.
  split; [|split; [|split]].
  - intros H. destruct (Z.leb_spec idx n); [lia|reflexivity].
  - intros ->. rewrite Z.leb_refl. unfold n.
    rewrite py_index_out by lia. reflexivity.
  - intros H. destruct (Z.leb_spec idx n); [|lia].
    unfold n in *. rewrite py_index_out by lia. reflexivity.
  - intros i x Hx.
    assert (Hi : (i < length l)%nat) by (apply nth_error_Some; congruence).
    split.
    + destruct (Z.leb_spec (Z.of_nat i) n); [|unfold n in *; lia].
      rewrite (py_index_nat _ i Hi). cbn [bind]. unfold getitem. now rewrite Hx.
    + destruct (Z.leb_spec (Z.of_nat i - n) n); [|unfold n in *; lia].
      unfold n. rewrite (py_index_negative _ i Hi). cbn [bind].
      unfold getitem. now rewrite Hx.
Qed.

Lemma CaptureLayerData_get_bounds_witness :
  let s := CaptureLayerData.mk (OList [x_ones; x_pair]) detach None in
  ((2 < 2)%Z -> CaptureLayerData.get s 2 = Ok ONone) /\
  (2%Z = 2%Z -> CaptureLayerData.get s 2 = Raise IndexError) /\
  ((2 < - 2)%Z -> CaptureLayerData.get s 2 = Raise IndexError) /\
  (forall i x, nth_error [x_ones; x_pair] i = Some x ->
     CaptureLayerData.get s (Z.of_nat i) = Ok (OTensor x) /\
     CaptureLayerData.get s (Z.of_nat i - 2) = Ok (OTensor x)).
Proof.
  apply (CaptureLayerData_get_bounds
           (CaptureLayerData.mk (OList [x_ones; x_pair]) detach None)
           [x_ones; x_pair] 2).
  reflexivity.
Defined.

Lemma abin_same (im : image) (op : fl -> fl -> fl) (a b : tensor) :
  size b = size a -> abin im op a b = Ok (tzip op a b).
Proof. intros H. unfold abin. now rewrite (tbin_tzip op a b H). Qed.

Lemma same_type_cases (im1 im2 : image) :
  same_type im1 im2 = true ->
  is_array im1 = true /\ is_array im2 = true /\
  forall t, like im1 t = like im2 t.
Proof. destruct im1, im2; try discriminate; intros _; repeat split. Qed.

(** Property X15.  [AlphaBlend] of two arrays of the same library and
    size, with a float [alpha] between 0 and 1: where the two entries are
    finite and not of opposite signs, the entry of the result is
    [alpha * im1 + (1 - alpha) * im2].  An [alpha] that is an integer
    (such as [1]) and a numpy array blended with a torch tensor are
    rejected with [AssertionError]. *)
Theorem AlphaBlend_convex_combination (im1 im2 : image) (alpha : R) :
  same_type im1 im2 = true ->
  size (values im2) = size (values im1) ->
  0 <= alpha <= 1 ->
  (exists out,
     AlphaBlend im1 im2 (PFloat alpha) = Ok (like im1 out) /\
     size out = size (values im1) /\
     forall idx x y, in_range idx (size (values im1)) ->
       data (values im1) idx = Some x -> data (values im2) idx = Some y ->
       0 <= x * y ->
       data out idx = Some (alpha * x + (1 - alpha) * y)) /\
  (forall z, AlphaBlend im1 im2 (PInt z) = Raise AssertionError) /\
  (forall a t n, AlphaBlend (Numpy a) (Torch t) n = Raise AssertionError /\
                 AlphaBlend (Torch t) (Numpy a) n = Raise AssertionError).
Proof.
  intros Hty Hsz _.
  destruct (same_type_cases im1 im2 Hty) as (A1 & A2 & _).
  split; [|split].
  - unfold AlphaBlend. rewrite A1, A2, Hty. cbn [assert bind is_float].
    rewrite abin_same by (cbn [tmap size]; exact Hsz). cbn [bind].
    eexists. split; [reflexivity|]. split; [reflexivity|].
    intros idx x y Hin Hx Hy _.
    cbn [tmap data size]. rewrite tzip_data by exact Hin.
    cbn [tmap data]. rewrite Hx, Hy. cbn [fmul fadd flift2].
    replace (alpha + 1 * (1 - alpha)) with 1 by ring.
    rewrite fdiv_Some by lra. f_equal. field.
  - intros z. unfold AlphaBlend. rewrite A1, A2, Hty. reflexivity.
  - intros a t n. split; reflexivity.
Qed.

Lemma AlphaBlend_convex_combination_witness :
  (exists out,
     AlphaBlend (Torch x_ones) (Torch x_ones) (PFloat 0.75) = Ok (Torch out) /\
     size out = [1; 2; 2]%nat /\
     forall idx x y, in_range idx [1; 2; 2]%nat ->
       data x_ones idx = Some x -> data x_ones idx = Some y ->
       0 <= x * y ->
       data out idx = Some (0.75 * x + (1 - 0.75) * y)) /\
  (forall z, AlphaBlend (Torch x_ones) (Torch x_ones) (PInt z) = Raise AssertionError) /\
  (forall a t n, AlphaBlend (Numpy a) (Torch t) n = Raise AssertionError /\
                 AlphaBlend (Torch t) (Numpy a) n = Raise AssertionError).
Proof.
  apply (AlphaBlend_convex_combination (Torch x_ones) (Torch x_ones) 0.75).
  - reflexivity.
  - reflexivity.
  - lra.
Defined.

(** Property X16.  [AlphaMask] of an image and a mask of the same library
    and size, with a float [alpha] between 0 and 1, where the image is
    finite and the mask lies between 0 and 1.  With the default
    [alpha = 1.0] the result is [im * m]; where the mask is 1 it is the
    image whatever [alpha] is; where the mask is 0 and [alpha = 0.0] it is
    non-finite (a division of zero by zero). *)
Theorem AlphaMask_value (im1 mask : image) (alpha : R) :
  same_type im1 mask = true ->
  size (values mask) = size (values im1) ->
  0 <= alpha <= 1 ->
  exists out,
    AlphaMask im1 mask (PFloat alpha) = Ok (like im1 out) /\
    size out = size (values im1) /\
    forall idx x m, in_range idx (size (values im1)) ->
      data (values im1) idx = Some x -> data (values mask) idx = Some m ->
      0 <= m <= 1 ->
      (alpha = 1 -> data out idx = Some (x * m)) /\
      (m = 1 -> data out idx = Some x) /\
      (m = 0 -> alpha = 0 -> data out idx = None).
Proof.
  intros Hty Hsz _.
  destruct (same_type_cases im1 mask Hty) as (A1 & A2 & _).
  unfold AlphaMask. rewrite A1, A2, Hty. cbn [assert bind is_float].
  repeat (rewrite abin_same by (cbn [tmap tzip zeros size]; congruence);
          cbn [bind]).
  eexists. split; [reflexivity|]. split; [reflexivity|].
  intros idx x m Hin Hx Hm _.
  assert (Hin' : in_range idx (size (values mask))) by now rewrite Hsz.
  assert (Hval : forall out,
             out = fdiv (Some (x * m)) (Some (m + alpha * (1 - m))) ->
             (alpha = 1 -> out = Some (x * m)) /\
             (m = 1 -> out = Some x) /\
             (m = 0 -> alpha = 0 -> out = None)).
  { intros out ->. repeat split.
    - intros ->. rewrite fdiv_Some by lra. f_equal. field; lra.
    - intros ->. rewrite fdiv_Some by lra. f_equal. field; lra.
    - intros -> ->. replace (0 + 0 * (1 - 0)) with 0 by ring. apply fdiv_zero. }
  apply Hval.
  repeat (rewrite tzip_data by (cbn [tzip tmap zeros size]; assumption)).
  cbn [tmap zeros data]. rewrite Hx, Hm. cbn [fmul fadd fsub flift2].
  do 2 f_equal. ring.
Qed.

Lemma AlphaMask_value_witness :
  exists out,
    AlphaMask (Torch x_ones) (Torch x_ones) (PFloat 1) = Ok (Torch out) /\
    size out = [1; 2; 2]%nat /\
    forall idx x m, in_range idx [1; 2; 2]%nat ->
      data x_ones idx = Some x -> data x_ones idx = Some m ->
      0 <= m <= 1 ->
      (1 = 1 -> data out idx = Some (x * m)) /\
      (m = 1 -> data out idx = Some x) /\
      (m = 0 -> 1 = 0 -> data out idx = None).
Proof.
  apply (AlphaMask_value (Torch x_ones) (Torch x_ones) 1).
  - reflexivity.
  - reflexivity.
  - lra.
Defined.

Lemma unravel_drop_batch (H W C h w c : nat) :
  (h < H)%nat -> (w < W)%nat -> (c < C)%nat ->
  unravel [1%nat; H; W; C] (ravel [H; W; C] [h; w; c] 0) = [O; h; w; c].
Proof.
  intros Hh Hw Hc. cbn [ravel unravel prod fold_right].
  rewrite !Nat.mul_1_r, Nat.mul_0_l, Nat.add_0_l, Nat.div_1_r.
  assert (H2 : (w * C + c < W * C)%nat) by nia.
  assert (H1 : (h * (W * C) + (w * C + c) < H * (W * C))%nat) by nia.
  replace ((h * W + w) * C + c)%nat with (h * (W * C) + (w * C + c))%nat by ring.
  rewrite (Nat.div_small _ _ H1), (Nat.mod_small _ _ H1).
  destruct (divmod_lin h _ _ H2) as [E1 E2]. rewrite E1, E2.
  destruct (divmod_lin w _ _ Hc) as [E3 E4]. rewrite E3, E4.
  reflexivity.
Qed.

(** Property X17.  [TensorToNumpyImages] moves the channel axis last: a
    [C x H x W] tensor, or a [1 x C x H x W] batch of one image, becomes
    an [H x W x C] array whose entry [(h, w, c)] is the entry of channel
    [c] at [(h, w)].  A batch of another length, and a tensor with neither
    three nor four axes, raise [AssertionError]. *)
Theorem TensorToNumpyImages_channels_last (t : tensor) (B C H W : nat) :
  (size t = [C; H; W] ->
   exists out,
     TensorToNumpyImages (OTensor t) = Ok out /\ size out = [H; W; C] /\
     forall h w c, data out [h; w; c] = data t [c; h; w]) /\
  (size t = [1%nat; C; H; W] ->
   exists out,
     TensorToNumpyImages (OTensor t) = Ok out /\ size out = [H; W; C] /\
     forall h w c, (h < H)%nat -> (w < W)%nat -> (c < C)%nat ->
                   data out [h; w; c] = data t [O; c; h; w]) /\
  (size t = [B; C; H; W] -> B <> 1%nat ->
   TensorToNumpyImages (OTensor t) = Raise AssertionError) /\
  (rank t <> 3%nat -> rank t <> 4%nat ->
   TensorToNumpyImages (OTensor t) = Raise AssertionError).
Proof.
  split; [|split; [|split]].
  - intros Hs. unfold TensorToNumpyImages, rank. cbn [is_tensor bind]. rewrite Hs.
    cbn [length Nat.eqb orb assert bind].
    eexists. split; [reflexivity|]. unfold transpose. rewrite Hs.
    split; reflexivity.
  - intros Hs. unfold TensorToNumpyImages, rank. cbn [is_tensor bind]. rewrite Hs.
    cbn [length Nat.eqb orb assert bind nth].
    unfold transpose. rewrite Hs. cbn [map nth size length seq position Nat.eqb].
    unfold np_reshape, reshape. cbn [size].
    replace (prod [H; W; C] =? prod [1%nat; H; W; C])%nat with true
      by (symmetry; apply Nat.eqb_eq; cbn [prod fold_right]; ring).
    eexists. split; [reflexivity|]. split; [reflexivity|].
    intros h w c Hh Hw Hc. cbn [data].
    now rewrite (unravel_drop_batch H W C h w c Hh Hw Hc).
  - intros Hs HB. unfold TensorToNumpyImages, rank. cbn [is_tensor bind]. rewrite Hs.
    cbn [length Nat.eqb orb assert bind nth].
    destruct (Nat.eqb_spec B 1); [contradiction|reflexivity].
  - intros H3 H4. unfold TensorToNumpyImages. cbn [is_tensor bind].
    destruct (Nat.eqb_spec (rank t) 3); [contradiction|].
    destruct (Nat.eqb_spec (rank t) 4); [contradiction|]. reflexivity.
Qed.

Lemma TensorToNumpyImages_channels_last_witness :
  exists out,
    TensorToNumpyImages (OTensor x_rgb) = Ok out /\ size out = [1; 2; 3]%nat /\
    forall h w c, (h < 1)%nat -> (w < 2)%nat -> (c < 3)%nat ->
                  data out [h; w; c] = data x_rgb [O; c; h; w].
Proof.
  apply (TensorToNumpyImages_channels_last x_rgb 1 3 1 2).
  reflexivity.
Defined.

Lemma unravel_flat4 (B C H W b c k : nat) :
  (c < C)%nat -> (k < H * W)%nat ->
  unravel [B; C; H; W] (ravel [B; C; (H * W)%nat] [b; c; k] 0) =
  [b; c; (k / W)%nat; (k mod W)%nat].
Proof.
  intros Hc Hk. cbn [ravel unravel prod fold_right].
  rewrite !Nat.mul_1_r, Nat.mul_0_l, Nat.add_0_l, Nat.div_1_r.
  assert (HW : W <> O) by (intros ->; lia).
  assert (H1 : (c * (H * W) + k < C * (H * W))%nat) by nia.
  replace ((b * C + c) * (H * W) + k)%nat
    with (b * (C * (H * W)) + (c * (H * W) + k))%nat by ring.
  destruct (divmod_lin b _ _ H1) as [E1 E2]. rewrite E1, E2.
  destruct (divmod_lin c _ _ Hk) as [E3 E4]. rewrite E3, E4.
  reflexivity.
Qed.

Lemma unravel_unflat4 (B C H W b c h w : nat) :
  (c < C)%nat -> (h < H)%nat -> (w < W)%nat ->
  unravel [B; C; (H * W)%nat] (ravel [B; C; H; W] [b; c; h; w] 0) =
  [b; c; (h * W + w)%nat].
Proof.
  intros Hc Hh Hw. cbn [ravel unravel prod fold_right].
  rewrite !Nat.mul_1_r, Nat.mul_0_l, Nat.add_0_l, Nat.div_1_r.
  assert (Hk : (h * W + w < H * W)%nat) by nia.
  assert (H1 : (c * (H * W) + (h * W + w) < C * (H * W))%nat) by nia.
  replace (((b * C + c) * H + h) * W + w)%nat
    with (b * (C * (H * W)) + (c * (H * W) + (h * W + w)))%nat by ring.
  destruct (divmod_lin b _ _ H1) as [E1 E2]. rewrite E1, E2.
  destruct (divmod_lin c _ _ Hk) as [E3 E4]. rewrite E3, E4.
  reflexivity.
Qed.

(** Broadcasting a [B x C x N] tensor against the [1 x 3 x 1] constants. *)
Lemma broadcast_shapes_channels (B C N : nat) :
  broadcast_shapes [B; C; N] [1; 3; 1]%nat =
  if ((C =? 3) || (C =? 1))%nat then Some [B; 3%nat; N] else None.
Proof.
  unfold broadcast_shapes. cbn [rev app bshape_rev].
  destruct (Nat.eqb_spec B 1) as [->|HB];
    destruct (Nat.eqb_spec C 3) as [->|HC3]; cbn [orb Nat.eqb];
    try destruct (Nat.eqb_spec C 1) as [->|HC1]; cbn [Nat.eqb];
    destruct (Nat.eqb_spec N 1) as [->|HN]; reflexivity.
Qed.

Lemma DeNormalize_init_Ok (m s : list R) (self : DeNormalize.t) :
  DeNormalize.init (PyList m) (PyList s) = Ok self ->
  length m = 3%nat /\ length s = 3%nat /\
  size (DeNormalize.mean self) = [1; 3; 1]%nat /\
  size (DeNormalize.std self) = [1; 3; 1]%nat /\
  forall c, (c < 3)%nat ->
    data (DeNormalize.mean self) [O; c; O] = nth_error m c /\
    data (DeNormalize.std self) [O; c; O] = nth_error s c.
Proof.
  unfold DeNormalize.init.
  destruct (Nat.eqb_spec (length m) 3) as [Hm|Hm]; [|discriminate].
  destruct (Nat.eqb_spec (length s) 3) as [Hs|Hs]; [|discriminate].
  cbn [assert bind]. unfold reshape. cbn [DeNormalize.tensor_of_list size].
  rewrite Hm, Hs. cbn [prod fold_right Nat.mul Nat.eqb Nat.add bind].
  intros E. injection E as <-. cbn [DeNormalize.mean DeNormalize.std size data].
  repeat split; try reflexivity.
  - destruct c as [|[|[|c]]]; try lia; reflexivity.
  - destruct c as [|[|[|c]]]; try lia; reflexivity.
Qed.

(** Property X18.  [DeNormalize(mean, std)] works channel by channel.  On a
    [B x 3 x H x W] tensor it returns a tensor of the same size whose
    entry in channel [c] is the input entry times [std[c]] plus
    [mean[c]] (stated where this product and [mean[c]] are not of
    opposite signs, so that the sum does not cancel). *)
Theorem DeNormalize_call_channelwise
        (m s : list R) (self : DeNormalize.t) (x : tensor) (B H W : nat) :
  DeNormalize.init (PyList m) (PyList s) = Ok self ->
  size x = [B; 3%nat; H; W] ->
  exists out,
    DeNormalize.call self (OTensor x) = Ok out /\
    size out = [B; 3%nat; H; W] /\
    forall b c h w v mc sc,
      (b < B)%nat -> (h < H)%nat -> (w < W)%nat ->
      nth_error m c = Some mc -> nth_error s c = Some sc ->
      data x [b; c; h; w] = Some v ->
      0 <= (v * sc) * mc ->
      data out [b; c; h; w] = Some (v * sc + mc).
Proof.
  intros Hinit Hsz.
  destruct (DeNormalize_init_Ok m s self Hinit) as (Hm & Hs & Hms & Hss & Hd).
  unfold DeNormalize.call, rank. cbn [is_tensor bind]. rewrite Hsz.
  cbn [length Nat.eqb assert bind nth].
  unfold reshape at 1. rewrite Hsz.
  replace (prod [B; 3%nat; (H * W)%nat] =? prod [B; 3%nat; H; W])%nat with true
    by (symmetry; apply Nat.eqb_eq; cbn [prod fold_right]; ring).
  cbn [bind]. unfold tbin at 1. cbn [size]. rewrite Hss, broadcast_shapes_channels.
  cbn [Nat.eqb orb bind]. unfold tbin. cbn [size]. rewrite Hms, broadcast_shapes_channels.
  cbn [Nat.eqb orb bind]. unfold reshape. cbn [size].
  replace (prod [B; 3%nat; H; W] =? prod [B; 3%nat; (H * W)%nat])%nat with true
    by (symmetry; apply Nat.eqb_eq; cbn [prod fold_right]; ring).
  eexists. split; [reflexivity|]. split; [reflexivity|].
  intros b c h w v mc sc Hb Hh Hw Hmc Hsc Hv _.
  assert (Hc : (c < 3)%nat).
  { rewrite <- Hm. apply nth_error_Some. congruence. }
  assert (Hk : (h * W + w < H * W)%nat) by nia.
  cbn [data].
  rewrite (unravel_unflat4 B 3 H W b c h w Hc Hh Hw).
  assert (Hin : in_range [b; c; (h * W + w)%nat] [B; 3%nat; (H * W)%nat]).
  { unfold in_range. repeat (apply Forall2_cons; [assumption|]). apply Forall2_nil. }
  rewrite !(bidx_in_range _ _ Hin).
  assert (Hb1 : bidx [1; 3; 1]%nat [b; c; (h * W + w)%nat] = [O; c; O]) by reflexivity.
  rewrite Hb1.
  rewrite (unravel_flat4 B 3 H W b c (h * W + w) Hc Hk).
  destruct (divmod_lin h w W Hw) as [E1 E2]. rewrite E1, E2.
  destruct (Hd c Hc) as [Hdm Hds]. rewrite Hdm, Hds, Hmc, Hsc, Hv.
  reflexivity.
Qed.

Lemma DeNormalize_call_channelwise_witness :
  exists out,
    DeNormalize.call
      (DeNormalize.mk (mkT [1; 3; 1]%nat
                           (fun idx => data (DeNormalize.tensor_of_list [1; 2; 3])
                                            (unravel [3%nat] (ravel [1; 3; 1]%nat idx 0))))
                      (mkT [1; 3; 1]%nat
                           (fun idx => data (DeNormalize.tensor_of_list [2; 2; 2])
                                            (unravel [3%nat] (ravel [1; 3; 1]%nat idx 0)))))
      (OTensor x_rgb) = Ok out /\
    size out = [1; 3; 1; 2]%nat /\
    forall b c h w v mc sc,
      (b < 1)%nat -> (h < 1)%nat -> (w < 2)%nat ->
      nth_error [1; 2; 3] c = Some mc -> nth_error [2; 2; 2] c = Some sc ->
      data x_rgb [b; c; h; w] = Some v ->
      0 <= (v * sc) * mc ->
      data out [b; c; h; w] = Some (v * sc + mc).
Proof.
  apply (DeNormalize_call_channelwise [1; 2; 3] [2; 2; 2] _ x_rgb 1 1 2).
  - reflexivity.
  - reflexivity.
Defined.

(** Property X19.  [DeNormalize] only handles three-channel images: its
    constructor raises [AssertionError] unless both lists have exactly
    three entries, and a call on a non-empty [B x C x H x W] tensor with
    [C <> 3] raises [RuntimeError], also for a single-channel image
    (which is broadcast to three channels and then cannot be reshaped
    back). *)
Theorem DeNormalize_three_channels_only
        (m s : list R) (self : DeNormalize.t) (x : tensor) (B C H W : nat) :
  DeNormalize.init (PyList m) (PyList s) = Ok self ->
  size x = [B; C; H; W] -> C <> 3%nat ->
  (0 < B)%nat -> (0 < H)%nat -> (0 < W)%nat ->
  DeNormalize.call self (OTensor x) = Raise RuntimeError /\
  (forall m' s', length m' <> 3%nat \/ length s' <> 3%nat ->
                 DeNormalize.init (PyList m') (PyList s') = Raise AssertionError).
Proof.
  intros Hinit Hsz HC HB HH HW.
  destruct (DeNormalize_init_Ok m s self Hinit) as (Hm & Hs & Hms & Hss & Hd).
  split.
  - unfold DeNormalize.call, rank. cbn [is_tensor bind]. rewrite Hsz.
    cbn [length Nat.eqb assert bind nth].
    unfold reshape at 1. rewrite Hsz.
    replace (prod [B; C; (H * W)%nat] =? prod [B; C; H; W])%nat with true
      by (symmetry; apply Nat.eqb_eq; cbn [prod fold_right]; ring).
    cbn [bind]. unfold tbin at 1. cbn [size]. rewrite Hss, broadcast_shapes_channels.
    destruct (Nat.eqb_spec C 3) as [|_]; [contradiction|].
    destruct (Nat.eqb_spec C 1) as [->|HC1]; cbn [orb bind]; [|reflexivity].
    unfold tbin. cbn [size]. rewrite Hms, broadcast_shapes_channels.
    cbn [Nat.eqb orb bind]. unfold reshape. cbn [size].
    destruct (Nat.eqb_spec (prod [B; 1%nat; H; W]) (prod [B; 3%nat; (H * W)%nat]))
      as [E|E]; [|reflexivity].
    exfalso. cbn [prod fold_right] in E. nia.
  - intros m' s' Hlen. unfold DeNormalize.init.
    destruct (Nat.eqb_spec (length m') 3) as [Hm'|Hm']; [|reflexivity].
    destruct (Nat.eqb_spec (length s') 3) as [Hs'|Hs']; [|reflexivity].
    destruct Hlen; contradiction.
Qed.

Lemma DeNormalize_three_channels_only_witness :
  DeNormalize.call
    (DeNormalize.mk (mkT [1; 3; 1]%nat
                         (fun idx => data (DeNormalize.tensor_of_list [1; 2; 3])
                                          (unravel [3%nat] (ravel [1; 3; 1]%nat idx 0))))
                    (mkT [1; 3; 1]%nat
                         (fun idx => data (DeNormalize.tensor_of_list [2; 2; 2])
                                          (unravel [3%nat] (ravel [1; 3; 1]%nat idx 0)))))
    (OTensor x_gray) = Raise RuntimeError /\
  (forall m' s', length m' <> 3%nat \/ length s' <> 3%nat ->
                 DeNormalize.init (PyList m') (PyList s') = Raise AssertionError).
Proof.
  apply (DeNormalize_three_channels_only [1; 2; 3] [2; 2; 2] _ x_gray 1 1 1 2).
  - reflexivity.
  - reflexivity.
  - lia.
  - lia.
  - lia.
  - lia.
Defined.

(* ----------------------------------------------------------------- *)
(** ** [AttenuateBorders] *)

Lemma selects_At_0 (d k : nat) : selects d (At 0) k = (k =? 0)%nat.
Proof.
  cbn [selects Z.ltb Z.compare].
  destruct (Z.eqb_spec (Z.of_nat k) 0); destruct (Nat.eqb_spec k 0); try reflexivity; lia.
Qed.

Lemma selects_At_1 (d k : nat) : selects d (At 1) k = (k =? 1)%nat.
Proof.
  cbn [selects Z.ltb Z.compare].
  destruct (Z.eqb_spec (Z.of_nat k) 1); destruct (Nat.eqb_spec k 1); try reflexivity; lia.
Qed.

Lemma selects_At_m1 (d k : nat) :
  (1 <= d)%nat -> selects d (At (-1)) k = (k =? d - 1)%nat.
Proof.
  intros Hd. cbn [selects Z.ltb Z.compare].
  destruct (Z.eqb_spec (Z.of_nat k) (-1 + Z.of_nat d));
    destruct (Nat.eqb_spec k (d - 1)); try reflexivity; lia.
Qed.

Lemma selects_At_m2 (d k : nat) :
  (2 <= d)%nat -> selects d (At (-2)) k = (k =? d - 2)%nat.
Proof.
  intros Hd. cbn [selects Z.ltb Z.compare].
  destruct (Z.eqb_spec (Z.of_nat k) (-2 + Z.of_nat d));
    destruct (Nat.eqb_spec k (d - 2)); try reflexivity; lia.
Qed.

Lemma selects_Range (d k : nat) :
  (2 <= d)%nat ->
  selects d (Range 1 (-2)) k = ((1 <=? k) && (k <? d - 2))%nat.
Proof.
  intros Hd. cbn [selects]. unfold bound. cbn [Z.ltb Z.compare].
  destruct (Z.leb_spec (Z.min 1 (Z.of_nat d)) (Z.of_nat k));
    destruct (Z.ltb_spec (Z.of_nat k) (Z.max 0 (-2 + Z.of_nat d)));
    destruct (Nat.leb_spec 1 k); destruct (Nat.ltb_spec k (d - 2));
    try reflexivity; lia.
Qed.

Lemma apply_statements_size (l : list R) (ss : list (index * index * nat)) (x : tensor) :
  size (apply_statements l ss x) = size x.
Proof.
  revert x. induction ss as [|s ss IH]; intros x; [reflexivity|].
  unfold apply_statements in *. cbn [fold_left]. now rewrite IH.
Qed.

Lemma region_ok_size (i1 i2 : index) (x y : tensor) :
  size x = size y -> region_ok i1 i2 x = region_ok i1 i2 y.
Proof. intros E. unfold region_ok. now rewrite E. Qed.

(** Assignments that all succeed replace the array at its reference. *)
Lemma AttenuateBorders_run_Ok (r : nat) (l : list R)
      (ss : list (index * index * nat)) (heap : list tensor) (x : tensor) :
  nth_error heap r = Some x ->
  Forall (fun s => region_ok (fst (fst s)) (snd (fst s)) x = Ok tt /\
                   (snd s < length l)%nat) ss ->
  AttenuateBorders.run r l ss heap = (Ok tt, upd r (apply_statements l ss x) heap).
Proof.
  intros Hx Hall. revert heap x Hx Hall.
  induction ss as [|[[i1 i2] k] ss IH]; intros heap x Hx Hall.
  - cbn [AttenuateBorders.run apply_statements fold_left].
    now rewrite (upd_id r x heap Hx).
  - inversion Hall as [|? ? [Hok Hk] Hall']; subst. cbn [fst snd] in Hok, Hk.
    cbn [AttenuateBorders.run]. unfold AttenuateBorders.exec.
    rewrite (getitem_nth _ _ _ Hx). cbn [bind]. rewrite Hok. cbn [bind].
    destruct (nth_error l k) as [a|] eqn:Ha; [|apply nth_error_None in Ha; lia].
    rewrite (getitem_nth _ _ _ Ha). cbn [bind].
    rewrite (IH (upd r (scale_region i1 i2 a x) heap) (scale_region i1 i2 a x)).
    + rewrite upd_upd. unfold apply_statements. cbn [fold_left fst snd].
      now rewrite (nth_error_nth _ _ 0 Ha).
    + eapply upd_same_Some; eassumption.
    + eapply Forall_impl; [|exact Hall']. intros s [H1 H2]. split; [|exact H2].
      rewrite <- H1. now apply region_ok_size.
Qed.

(** After assignments that succeed, one whose factor is missing from
    [ammount] raises [IndexError] and leaves what was already written. *)
Lemma AttenuateBorders_run_short (r : nat) (l : list R)
      (ss1 ss2 : list (index * index * nat)) (s : index * index * nat)
      (heap : list tensor) (x : tensor) :
  nth_error heap r = Some x ->
  Forall (fun s => region_ok (fst (fst s)) (snd (fst s)) x = Ok tt /\
                   (snd s < length l)%nat) ss1 ->
  region_ok (fst (fst s)) (snd (fst s)) x = Ok tt -> (length l <= snd s)%nat ->
  AttenuateBorders.run r l (ss1 ++ s :: ss2) heap =
  (Raise IndexError, upd r (apply_statements l ss1 x) heap).
Proof.
  intros Hx Hall Hs Hk. revert heap x Hx Hall Hs.
  induction ss1 as [|[[i1 i2] k] ss1 IH]; intros heap x Hx Hall Hs.
  - destruct s as [[i1 i2] k]. cbn [fst snd] in Hs, Hk.
    cbn [app AttenuateBorders.run apply_statements fold_left].
    unfold AttenuateBorders.exec.
    rewrite (getitem_nth _ _ _ Hx). cbn [bind]. rewrite Hs. cbn [bind].
    unfold getitem. destruct (nth_error l k) as [a|] eqn:Ha.
    + assert (k < length l)%nat by (apply nth_error_Some; congruence). lia.
    + cbn [bind]. now rewrite (upd_id r x heap Hx).
  - inversion Hall as [|? ? [Hok Hk'] Hall']; subst. cbn [fst snd] in Hok, Hk'.
    cbn [app AttenuateBorders.run]. unfold AttenuateBorders.exec.
    rewrite (getitem_nth _ _ _ Hx). cbn [bind]. rewrite Hok. cbn [bind].
    destruct (nth_error l k) as [a|] eqn:Ha; [|apply nth_error_None in Ha; lia].
    rewrite (getitem_nth _ _ _ Ha). cbn [bind].
    rewrite (IH (upd r (scale_region i1 i2 a x) heap) (scale_region i1 i2 a x)).
    + rewrite upd_upd. unfold apply_statements. cbn [fold_left fst snd].
      now rewrite (nth_error_nth _ _ 0 Ha).
    + eapply upd_same_Some; eassumption.
    + eapply Forall_impl; [|exact Hall']. intros s' [H1 H2]. split; [|exact H2].
      rewrite <- H1. now apply region_ok_size.
    + rewrite <- Hs. now apply region_ok_size.
Qed.

Lemma region_ok_all (x : tensor) (C H W : nat) (rest : list nat) :
  size x = C :: H :: W :: rest -> (2 <= H)%nat -> (2 <= W)%nat ->
  Forall (fun s => region_ok (fst (fst s)) (snd (fst s)) x = Ok tt)
         AttenuateBorders.statements.
Proof.
  intros Hs HH HW. unfold AttenuateBorders.statements.
  repeat constructor; cbn [fst snd]; unfold region_ok; rewrite Hs;
    cbn [index_ok andb];
    repeat match goal with
           | |- context [(?a <=? ?b)%Z] => destruct (Z.leb_spec a b); [|lia]
           | |- context [(?a <? ?b)%Z] => destruct (Z.ltb_spec a b); [|lia]
           end; reflexivity.
Qed.

Ltac split_nat_cases :=
  repeat match goal with
         | |- context [(?a =? ?b)%nat] =>
             destruct (Nat.eqb_spec a b); try (exfalso; lia)
         | |- context [(?a <=? ?b)%nat] =>
             destruct (Nat.leb_spec a b); try (exfalso; lia)
         | |- context [(?a <? ?b)%nat] =>
             destruct (Nat.ltb_spec a b); try (exfalso; lia)
         end.

Lemma apply_statements_data (a0 a1 : R) (more : list R) (x : tensor)
      (C H W : nat) (rest : list nat) (c h w : nat) (rr : list nat) (v : R) :
  size x = C :: H :: W :: rest -> (4 <= H)%nat -> (4 <= W)%nat ->
  (h < H)%nat -> (w < W)%nat ->
  data x (c :: h :: w :: rr) = Some v ->
  data (apply_statements (a0 :: a1 :: more) AttenuateBorders.statements x)
       (c :: h :: w :: rr) = Some (v * attenuation a0 a1 H W h w).
Proof.
  intros Hs HH HW Hh Hw Hv.
  unfold apply_statements, AttenuateBorders.statements.
  cbn [fold_left fst snd nth scale_region data size]. rewrite Hs. cbn [nth].
  rewrite !selects_At_0, !selects_At_1, !selects_At_m1, !selects_At_m2,
    !selects_Range by lia.
  cbn [selects andb]. rewrite !andb_true_r. rewrite Hv.
  unfold attenuation. cbv zeta.
  split_nat_cases; cbn [andb orb fmul flift2]; f_equal; ring.
Qed.

(** Property X20.  [AttenuateBorders] works in place: on an image of
    height and width at least 4 and with two factors or more it returns
    the reference it was given, writes into the caller's array and leaves
    every other array alone.  Every finite pixel ends up multiplied by a
    factor that depends on where it lies: [a0] on the outer border ([a0]
    twice in the corners), [a1] on the ring next to it, 1 inside.  The
    ring is not treated symmetrically: its corner at [(1, 1)] is
    multiplied by [a1] twice and its corner at [(H - 2, W - 2)] is not
    attenuated at all. *)
Theorem AttenuateBorders_in_place
        (r : nat) (heap : list tensor) (x : tensor) (C H W : nat) (rest : list nat)
        (a0 a1 : R) (more : list R) :
  nth_error heap r = Some x ->
  size x = C :: H :: W :: rest -> (4 <= H)%nat -> (4 <= W)%nat ->
  exists x',
    AttenuateBorders.call r (PyList (a0 :: a1 :: more)) heap = (Ok r, upd r x' heap) /\
    size x' = size x /\
    (forall c h w rr v, (h < H)%nat -> (w < W)%nat ->
       data x (c :: h :: w :: rr) = Some v ->
       data x' (c :: h :: w :: rr) = Some (v * attenuation a0 a1 H W h w)) /\
    attenuation a0 a1 H W 1 1 = a1 * a1 /\
    attenuation a0 a1 H W (H - 2) (W - 2) = 1 /\
    (forall h w, (2 <= h < H - 2)%nat -> (2 <= w < W - 2)%nat ->
                 attenuation a0 a1 H W h w = 1).
Proof.
  intros Hx Hs HH HW.
  exists (apply_statements (a0 :: a1 :: more) AttenuateBorders.statements x).
  split; [|split; [|split; [|split; [|split]]]].
  - unfold AttenuateBorders.call.
    rewrite (AttenuateBorders_run_Ok r (a0 :: a1 :: more) AttenuateBorders.statements
               heap x Hx); [reflexivity|].
    pose proof (region_ok_all x C H W rest Hs ltac:(lia) ltac:(lia)) as Hok.
    assert (Hk : Forall (fun s : index * index * nat =>
                           (snd s < length (a0 :: a1 :: more))%nat)
                        AttenuateBorders.statements).
    { unfold AttenuateBorders.statements.
      repeat (apply Forall_cons; [cbn [snd length]; lia|]). apply Forall_nil. }
    rewrite Forall_forall in Hok, Hk |- *. intros s Hin. split; auto.
  - apply apply_statements_size.
  - intros c h w rr v Hh Hw Hv.
    now apply (apply_statements_data a0 a1 more x C H W rest).
  - unfold attenuation. cbv zeta. split_nat_cases; reflexivity.
  - unfold attenuation. cbv zeta. split_nat_cases; reflexivity.
  - intros h w Hh Hw. unfold attenuation. cbv zeta. split_nat_cases; reflexivity.
Qed.

Lemma AttenuateBorders_in_place_witness :
  exists x',
    AttenuateBorders.call 0 (PyList [0.333; 0.666]) [x_square] =
      (Ok O, upd 0 x' [x_square]) /\
    size x' = size x_square /\
    (forall c h w rr v, (h < 5)%nat -> (w < 5)%nat ->
       data x_square (c :: h :: w :: rr) = Some v ->
       data x' (c :: h :: w :: rr) = Some (v * attenuation 0.333 0.666 5 5 h w)) /\
    attenuation 0.333 0.666 5 5 1 1 = 0.666 * 0.666 /\
    attenuation 0.333 0.666 5 5 (5 - 2) (5 - 2) = 1 /\
    (forall h w, (2 <= h < 5 - 2)%nat -> (2 <= w < 5 - 2)%nat ->
                 attenuation 0.333 0.666 5 5 h w = 1).
Proof.
  apply (AttenuateBorders_in_place 0 [x_square] x_square 1 5 5 [] 0.333 0.666 []).
  - reflexivity.
  - reflexivity.
  - lia.
  - lia.
Defined.

Lemma border_statements_data (a0 : R) (x : tensor)
      (C H W : nat) (rest : list nat) (c h w : nat) (rr : list nat) (v : R) :
  size x = C :: H :: W :: rest -> (2 <= H)%nat -> (2 <= W)%nat ->
  (h < H)%nat -> (w < W)%nat ->
  data x (c :: h :: w :: rr) = Some v ->
  data (apply_statements [a0] (firstn 4 AttenuateBorders.statements) x)
       (c :: h :: w :: rr) = Some (v * border_attenuation a0 H W h w).
Proof.
  intros Hs HH HW Hh Hw Hv.
  unfold apply_statements, AttenuateBorders.statements.
  cbn [firstn fold_left fst snd nth scale_region data size]. rewrite Hs. cbn [nth].
  rewrite !selects_At_0, !selects_At_m1 by lia.
  cbn [selects andb]. rewrite !andb_true_r. rewrite Hv.
  unfold border_attenuation. cbv zeta.
  split_nat_cases; cbn [andb orb fmul flift2]; f_equal; ring.
Qed.

(** Property X21.  [AttenuateBorders] is not atomic.  Called with a
    single factor it raises [IndexError] when it reaches the ring, after
    the outer border of the caller's array has already been attenuated:
    the array is left with its border pixels multiplied by the factor (in
    the corners twice) and the other pixels unchanged.  An [ammount] that
    is not a list raises [AssertionError] and leaves the array alone. *)
Theorem AttenuateBorders_single_factor
        (r : nat) (heap : list tensor) (x : tensor) (C H W : nat) (rest : list nat)
        (a0 : R) :
  nth_error heap r = Some x ->
  size x = C :: H :: W :: rest -> (2 <= H)%nat -> (2 <= W)%nat ->
  (exists x',
     AttenuateBorders.call r (PyList [a0]) heap = (Raise IndexError, upd r x' heap) /\
     size x' = size x /\
     forall c h w rr v, (h < H)%nat -> (w < W)%nat ->
       data x (c :: h :: w :: rr) = Some v ->
       data x' (c :: h :: w :: rr) = Some (v * border_attenuation a0 H W h w)) /\
  AttenuateBorders.call r (PyNum a0) heap = (Raise AssertionError, heap) /\
  AttenuateBorders.call r PyNone heap = (Raise AssertionError, heap).
Proof.
  intros Hx Hs HH HW. split; [|split; reflexivity].
  exists (apply_statements [a0] (firstn 4 AttenuateBorders.statements) x).
  split; [|split].
  - unfold AttenuateBorders.call.
    change AttenuateBorders.statements
      with (firstn 4 AttenuateBorders.statements
              ++ (At 1, Range 1 (-2), 1%nat) :: skipn 5 AttenuateBorders.statements).
    rewrite (AttenuateBorders_run_short r [a0] _ _ _ heap x Hx); [reflexivity| | |].
    + pose proof (region_ok_all x C H W rest Hs HH HW) as Hok.
      rewrite Forall_forall in Hok.
      unfold AttenuateBorders.statements at 1. cbn [firstn].
      repeat (apply Forall_cons;
              [split; [apply Hok; unfold AttenuateBorders.statements; cbn [In]; tauto
                      |cbn [snd length]; lia]|]).
      apply Forall_nil.
    + pose proof (region_ok_all x C H W rest Hs HH HW) as Hok.
      rewrite Forall_forall in Hok. apply (Hok (At 1, Range 1 (-2), 1%nat)).
      unfold AttenuateBorders.statements. cbn [In]. tauto.
    + cbn [snd length]. lia.
  - apply apply_statements_size.
  - intros c h w rr v Hh Hw Hv.
    now apply (border_statements_data a0 x C H W rest).
Qed.

Lemma AttenuateBorders_single_factor_witness :
  (exists x',
     AttenuateBorders.call 0 (PyList [0.5]) [x_square] =
       (Raise IndexError, upd 0 x' [x_square]) /\
     size x' = size x_square /\
     forall c h w rr v, (h < 5)%nat -> (w < 5)%nat ->
       data x_square (c :: h :: w :: rr) = Some v ->
       data x' (c :: h :: w :: rr) = Some (v * border_attenuation 0.5 5 5 h w)) /\
  AttenuateBorders.call 0 (PyNum 0.5) [x_square] = (Raise AssertionError, [x_square]) /\
  AttenuateBorders.call 0 PyNone [x_square] = (Raise AssertionError, [x_square]).
Proof.
  apply (AttenuateBorders_single_factor 0 [x_square] x_square 1 5 5 [] 0.5).
  - reflexivity.
  - reflexivity.
  - lia.
  - lia.
Defined.

(* ================================================================= *)
(** * Further properties of [SmoothGrad] *)

Section AggregatorEdges.

Import SmoothGrad.

Variable E : Type.
Variable normal : fl -> list nat -> E -> result tensor * E.
Variable model : tensor -> E -> result unit * (list (list event) * E).

Local Abbreviation iteration := (SmoothGrad.iteration E normal model).
Local Abbreviation body := (SmoothGrad.body E normal model).
Local Abbreviation call := (SmoothGrad.call E normal model).
Local Abbreviation state := (SmoothGrad.state E).

(** Property X23.  The argument checks of [__call__]: an input tensor with
    fewer than four axes raises [IndexError], and an input with four axes
    or more but an empty list of observers raises [AssertionError] (the map
    combiner refuses to be built for zero maps).  In both cases the network
    is not run and nothing is changed. *)
Theorem SmoothGrad_call_argument_checks
        (self : SmoothGrad.t) (r : nat) (weights : pyval) (debug : bool)
        (st : state) (x : tensor) :
  nth_error (heap st) r = Some x ->
  ((rank x < 4)%nat -> call self r weights debug st = (Raise IndexError, st)) /\
  ((4 <= rank x)%nat -> hooks st = [] ->
   call self r weights debug st = (Raise AssertionError, st)).
Proof.
  intros Hx. unfold rank. split.
  - intros Hr. unfold SmoothGrad.call, mbind, load, lift.
    rewrite (getitem_nth _ _ _ Hx).
    destruct (size x) as [|s0 [|s1 [|s2 [|s3 rest]]]]; cbn [length] in Hr;
      cbn [getitem nth_error]; try reflexivity; lia.
  - intros Hr Hh. unfold SmoothGrad.call, mbind, load, lift, get_hooks.
    rewrite (getitem_nth _ _ _ Hx).
    destruct (size x) as [|s0 [|s1 [|s2 [|s3 rest]]]]; cbn [length] in Hr;
      try lia.
    cbn [getitem nth_error]. rewrite Hh. cbn [length Z.of_nat].
    rewrite CombineSaliencyMaps_init_value. unfold init_outcome, valid_geometry.
    change (0 <? 0)%Z with false. rewrite andb_false_r. reflexivity.
Qed.

Lemma to_nat_nonpos (z : Z) : (z <= 0)%Z -> Z.to_nat z = O.
Proof. intros H. destruct z; try reflexivity. lia. Qed.

(** Property X24.  With [iters <= 0] the loop body never runs: the network
    is not called and the observers are left as they were.  Debug mode
    then returns three empty lists.  The normal mode returns the two zero
    tensors divided by [iters]: every entry is non-finite for [iters = 0]
    (a division of zero by zero) and zero for a negative [iters]. *)
Theorem SmoothGrad_call_no_iterations
        (self : SmoothGrad.t) (r : nat) (weights : pyval) (st : state)
        (x : tensor) (H W : nat) (g : CombineSaliencyMaps.t) (sd : fl) :
  prelude self r weights st x H W g sd ->
  (iters self <= 0)%Z ->
  call self r weights true st = (Ok (Debug [] [], []), st) /\
  exists a1 a2,
    call self r weights false st =
      (Ok (Sums (length (heap st)) (S (length (heap st))), []),
       mkState (heap st ++ [a1; a2]) (hooks st) (ext st)) /\
    size a1 = [1%nat; H; W] /\
    size a2 = [1%nat; length (hooks st); H; W] /\
    forall idx,
      data a1 idx = (if (iters self =? 0)%Z then None else Some 0) /\
      data a2 idx = (if (iters self =? 0)%Z then None else Some 0).
Proof.
  intros Hpre Hit.
  rewrite !(call_after_prelude E normal model _ _ _ _ _ _ _ _ _ _ Hpre).
  unfold after_prelude. rewrite (to_nat_nonpos _ Hit). cbn [repeatM].
  split.
  - unfold mbind, ret. destruct st. reflexivity.
  - unfold mbind at 1. unfold mbind at 1, alloc at 1.
    unfold mbind at 1, alloc at 1. unfold ret at 1. cbn [heap hooks ext].
    unfold mbind at 1, ret at 1.
    set (z1 := zeros [1%nat; H; W]).
    set (z2 := zeros [1%nat; length (hooks st); H; W]).
    replace (length (heap st ++ [z1])) with (S (length (heap st)))
      by (rewrite length_app; cbn [length]; lia).
    assert (Hh : (heap st ++ [z1]) ++ [z2] = heap st ++ [z1; z2])
      by now rewrite <- app_assoc.
    rewrite Hh.
    unfold mbind at 1.
    rewrite (idiv_Ok E (length (heap st)) _ z1)
      by (cbn [heap]; rewrite nth_error_app2 by lia; now rewrite Nat.sub_diag).
    unfold mbind at 1. cbn [heap hooks ext].
    rewrite (idiv_Ok E (S (length (heap st))) _ z2).
    2:{ cbn [heap]. rewrite upd_other by lia.
        rewrite nth_error_app2 by lia.
        replace (S (length (heap st)) - length (heap st))%nat with 1%nat by lia.
        reflexivity. }
    unfold ret. cbn [heap hooks ext]. rewrite upd_tail2.
    eexists. eexists. split; [reflexivity|].
    split; [reflexivity|]. split; [reflexivity|].
    intros idx. cbn [tmap data z1 z2 zeros].
    destruct (Z.eqb_spec (iters self) 0) as [->|Hnz].
    + rewrite fdiv_zero. split; reflexivity.
    + rewrite fdiv_Some by (apply not_0_IZR; exact Hnz).
      unfold Rdiv. rewrite Rmult_0_l. split; reflexivity.
Qed.

End AggregatorEdges.

Lemma SmoothGrad_call_argument_checks_witness :
  ((rank x_zero < 4)%nat ->
   SmoothGrad.call unit zero_noise ramp_model (SmoothGrad.init 15 true 0.15 false)
                   0 PyNone false (SmoothGrad.mkState [x_zero] [] tt)
   = (Raise IndexError, SmoothGrad.mkState [x_zero] [] tt)) /\
  ((4 <= rank x_zero)%nat -> @nil hook = [] ->
   SmoothGrad.call unit zero_noise ramp_model (SmoothGrad.init 15 true 0.15 false)
                   0 PyNone false (SmoothGrad.mkState [x_zero] [] tt)
   = (Raise AssertionError, SmoothGrad.mkState [x_zero] [] tt)).
Proof.
  apply (SmoothGrad_call_argument_checks
           unit zero_noise ramp_model (SmoothGrad.init 15 true 0.15 false)
           0 PyNone false (SmoothGrad.mkState [x_zero] [] tt) x_zero).
  reflexivity.
Defined.

Lemma SmoothGrad_call_no_iterations_witness :
  SmoothGrad.call unit zero_noise ramp_model (SmoothGrad.init 0 true 0.15 false)
                  0 PyNone true ramp_state
  = (Ok (SmoothGrad.Debug [] [], []), ramp_state) /\
  exists a1 a2,
    SmoothGrad.call unit zero_noise ramp_model (SmoothGrad.init 0 true 0.15 false)
                    0 PyNone false ramp_state =
      (Ok (SmoothGrad.Sums 1 2, []),
       SmoothGrad.mkState ([x_zero] ++ [a1; a2]) [ramp_hook] tt) /\
    size a1 = [1; 1; 3]%nat /\
    size a2 = [1; 1; 1; 3]%nat /\
    forall idx,
      data a1 idx = (if (0 =? 0)%Z then None else Some 0) /\
      data a2 idx = (if (0 =? 0)%Z then None else Some 0).
Proof.
  apply (SmoothGrad_call_no_iterations
           unit zero_noise ramp_model (SmoothGrad.init 0 true 0.15 false)
           0 PyNone ramp_state x_zero 1 3 (one_map_combiner 1 3) (Some 0)).
  - apply (ramp_prelude (SmoothGrad.init 0 true 0.15 false)). reflexivity.
  - cbn [SmoothGrad.iters SmoothGrad.init]. lia.
Defined.

Section AggregatorBatch.

Import SmoothGrad.

Variable E : Type.
Variable normal : fl -> list nat -> E -> result tensor * E.
Variable model : tensor -> E -> result unit * (list (list event) * E).

Local Abbreviation iteration := (SmoothGrad.iteration E normal model).
Local Abbreviation body := (SmoothGrad.body E normal model).
Local Abbreviation call := (SmoothGrad.call E normal model).
Local Abbreviation state := (SmoothGrad.state E).

Lemma tbin__lead_fails (op : fl -> fl -> fl) (a x : tensor) (d : nat) (tl : list nat) :
  size a = 1%nat :: tl -> size x = d :: tl -> d <> 1%nat ->
  tbin_ op a x = Raise RuntimeError.
Proof.
  intros Ha Hx Hd.
  destruct (tbin_ op a x) as [a'|e] eqn:Hb.
  - destruct (tbin__lead_inv _ _ _ _ _ _ Ha Hx Hb) as (-> & _). contradiction.
  - revert Hb. unfold tbin_, tbin.
    destruct (broadcast_shapes (size a) (size x)); cbn [bind].
    + destruct (size_eqb _ _); [discriminate|]. now intros [= <-].
    + now intros [= <-].
Qed.

Lemma iadd_lead_fails (r : nat) (a x : tensor) (d : nat) (tl : list nat) (st : state) :
  nth_error (heap st) r = Some a -> size a = 1%nat :: tl -> size x = d :: tl ->
  d <> 1%nat -> iadd r x st = (Raise RuntimeError, st).
Proof.
  intros Hr Ha Hx Hd. unfold iadd, mbind, load, lift.
  rewrite (getitem_nth _ _ _ Hr), (tbin__lead_fails fadd a x d tl Ha Hx Hd).
  reflexivity.
Qed.

(** Property X25.  The normal mode of [__call__] only works for a batch of
    one image.  Its accumulators have a leading axis of length 1, so when
    the first pass through the loop yields a combined map for a batch of
    another length, the in-place addition raises [RuntimeError]. *)
Theorem SmoothGrad_call_batch_of_one
        (self : SmoothGrad.t) (r : nat) (weights : pyval) (st : state)
        (x : tensor) (H W : nat) (g : CombineSaliencyMaps.t) (sd : fl)
        (c s t : tensor) (st1 : state) (bn : nat) :
  prelude self r weights st x H W g sd ->
  (0 < iters self)%Z ->
  iteration_steps E normal model self g r sd st c s t st1 ->
  size c = [bn; H; W] -> bn <> 1%nat ->
  exists st2, call self r weights false st = (Raise RuntimeError, st2).
Proof.
  intros Hpre Hit Hsteps Hc Hbn.
  rewrite (call_after_prelude E normal model _ _ _ _ _ _ _ _ _ _ Hpre).
  destruct Hpre as (Hx & _).
  assert (Hr : (r < length (heap st))%nat) by (apply nth_error_Some; congruence).
  unfold after_prelude.
  unfold mbind at 1. unfold mbind at 1, alloc at 1.
  unfold mbind at 1, alloc at 1. unfold ret at 1. cbn [heap hooks ext].
  set (z1 := zeros [1%nat; H; W]).
  set (z2 := zeros [1%nat; length (hooks st); H; W]).
  set (st0 := mkState ((heap st ++ [z1]) ++ [z2]) (hooks st) (ext st)).
  set (r1 := length (heap st)).
  destruct (Z.to_nat (iters self)) as [|n] eqn:Hn; [lia|].
  cbn [repeatM]. unfold mbind at 1. unfold mbind at 1.
  unfold SmoothGrad.body. unfold mbind at 1.
  assert (Hrr : nth_error (heap st0) r = nth_error (heap st) r).
  { unfold st0. cbn [heap]. rewrite <- app_assoc. now rewrite nth_error_app1. }
  pose proof (iteration_steps_related E normal model self g r sd st st0 c s t st1
                eq_refl eq_refl Hrr Hsteps) as Hsteps0.
  apply (iteration_Ok E normal model) in Hsteps0. rewrite Hsteps0.
  set (st0' := mkState (heap st0) (hooks st1) (ext st1)).
  assert (Hn1 : nth_error (heap st0') r1 = Some z1).
  { unfold st0', st0, r1. cbn [heap].
    rewrite nth_error_app1 by (rewrite length_app; simpl; lia).
    rewrite nth_error_app2 by lia. now rewrite Nat.sub_diag. }
  destruct (magnitude self).
  - unfold mbind at 1, lift at 1. rewrite (tbin_tzip fmul c c eq_refl).
    unfold mbind at 1.
    rewrite (iadd_lead_fails r1 z1 (tzip fmul c c) bn [H; W] st0' Hn1 eq_refl Hc Hbn).
    eexists. reflexivity.
  - unfold mbind at 1.
    rewrite (iadd_lead_fails r1 z1 c bn [H; W] st0' Hn1 eq_refl Hc Hbn).
    eexists. reflexivity.
Qed.

End AggregatorBatch.

(** A pass of the concrete network whose observed layer outputs a batch of
    two activations. *)
Lemma pair_run (self : SmoothGrad.t) :
  SmoothGrad.getSmap self = SMOEScaleMap.init false ->
  exists c s t st1,
    iteration_steps unit zero_noise pair_model self (one_map_combiner 1 3) 0 (Some 0)
                    ramp_state c s t st1 /\
    size c = [2; 1; 3]%nat.
Proof.
  intros Hs.
  destruct (SMOEScaleMap_forward_pixel (SMOEScaleMap.init false) act_pair 2 2 [1; 3]%nat
              eq_refl ltac:(discriminate)) as (th & Hth & Hthsz & _).
  destruct (Normalize2D_forward_pixel th 2 1 3 Hthsz) as (nm & Hnm & Hnmsz & _).
  destruct (CombineSaliencyMaps_forward_value (one_map_combiner 1 3) [nm] [1] (0 + 1)
              2 1 3 eq_refl eq_refl eq_refl eq_refl eq_refl)
    as (c & s & Hfw & Hc & _).
  { discriminate. }
  { reflexivity. }
  { constructor; [|constructor]. exists 1%nat, 3%nat. repeat split; [exact Hnmsz|lia|lia]. }
  exists c, s, (tzip fadd x_zero (zeros (size x_zero))).
  eexists.
  split; [|exact Hc].
  exists x_zero, (zeros (size x_zero)), tt, [[pair_event]], tt, [nm].
  repeat split; try reflexivity.
  - cbn [ramp_state SmoothGrad.hooks fire hd tl fold_left mapM].
    unfold SmoothGrad.score. rewrite Hs.
    change (CaptureLayerData.data (hook_state (hook_call ramp_hook pair_event)))
      with (OTensor act_pair).
    rewrite Hth. cbn [bind]. rewrite Hnm. reflexivity.
  - exact Hfw.
Qed.

Lemma SmoothGrad_call_batch_of_one_witness :
  exists st2,
    SmoothGrad.call unit zero_noise pair_model (SmoothGrad.init 1 true 0.15 false)
                    0 PyNone false ramp_state = (Raise RuntimeError, st2).
Proof.
  destruct (pair_run (SmoothGrad.init 1 true 0.15 false) eq_refl)
    as (c & s & t & st1 & Hsteps & Hc).
  apply (SmoothGrad_call_batch_of_one
           unit zero_noise pair_model (SmoothGrad.init 1 true 0.15 false)
           0 PyNone ramp_state x_zero 1 3 (one_map_combiner 1 3) (Some 0)
           c s t st1 2).
  - apply (ramp_prelude (SmoothGrad.init 1 true 0.15 false)). reflexivity.
  - cbn [SmoothGrad.iters SmoothGrad.init]. lia.
  - exact Hsteps.
  - exact Hc.
  - lia.
Defined.

(* ----------------------------------------------------------------- *)
(** ** Observers that hold no tensor *)

Lemma SMOEScaleMap_forward_outcomes (self : SMOEScaleMap.t) (x : pyobj) :
  (exists th, x = OTensor th /\ exists out, SMOEScaleMap.forward self x = Ok out) \/
  SMOEScaleMap.forward self x = Raise AssertionError.
Proof.
  destruct x as [|t|l]; try (right; reflexivity).
  destruct (2 <? rank t)%nat eqn:Hr.
  - destruct (rank_gt2_size t Hr) as (s0 & s1 & s2 & rest & Hs).
    destruct (SMOEScaleMap_forward_pixel self t s0 s1 (s2 :: rest) Hs ltac:(discriminate))
      as (th & H1 & _).
    left. exists t. split; [reflexivity|]. now exists th.
  - right. unfold SMOEScaleMap.forward. cbn [is_tensor bind]. now rewrite Hr.
Qed.

Lemma Normalize2D_forward_outcomes (x : tensor) :
  (exists out, Normalize2D.forward (OTensor x) = Ok out) \/
  Normalize2D.forward (OTensor x) = Raise AssertionError.
Proof.
  destruct (rank x =? 3)%nat eqn:Hr.
  - apply Nat.eqb_eq in Hr. unfold rank in Hr.
    destruct (size x) as [|s0 [|s1 [|s2 [|s3 rest]]]] eqn:Hs; try discriminate.
    destruct (Normalize2D_forward_pixel x s0 s1 s2 Hs) as (out & Hfw & _).
    left. now exists out.
  - right. unfold Normalize2D.forward. cbn [is_tensor bind]. now rewrite Hr.
Qed.

(** Scoring an observer returns a map or raises [AssertionError], and it
    raises when the observer holds no tensor. *)
Lemma score_outcomes (self : SmoothGrad.t) (h : hook) :
  ((exists nm, SmoothGrad.score self h = Ok nm) \/
   SmoothGrad.score self h = Raise AssertionError) /\
  ((forall a, CaptureLayerData.data (hook_state h) <> OTensor a) ->
   SmoothGrad.score self h = Raise AssertionError).
Proof.
  unfold SmoothGrad.score.
  destruct (SMOEScaleMap_forward_outcomes (SmoothGrad.getSmap self)
              (CaptureLayerData.data (hook_state h)))
    as [(th & Hd & out & Hout)| Herr].
  - rewrite Hout. cbn [bind]. split.
    + destruct (Normalize2D_forward_outcomes out) as [(nm & ->)| ->];
        [left; now exists nm|now right].
    + intros Hno. exfalso. apply (Hno th). exact Hd.
  - rewrite Herr. cbn [bind]. split; [now right|reflexivity].
Qed.

Lemma mapM_score_raises (self : SmoothGrad.t) (hs : list hook) (h : hook) :
  In h hs ->
  (forall a, CaptureLayerData.data (hook_state h) <> OTensor a) ->
  mapM (SmoothGrad.score self) hs = Raise AssertionError.
Proof.
  intros Hin Hno. induction hs as [|h0 hs IH]; [destruct Hin|].
  cbn [mapM].
  destruct (proj1 (score_outcomes self h0)) as [(nm & Hsc)|Hsc]; rewrite Hsc;
    [|reflexivity].
  cbn [bind]. destruct Hin as [->|Hin].
  - rewrite (proj2 (score_outcomes self h) Hno) in Hsc. discriminate.
  - rewrite (IH Hin). reflexivity.
Qed.

Section AggregatorObservers.

Import SmoothGrad.

Variable E : Type.
Variable normal : fl -> list nat -> E -> result tensor * E.
Variable model : tensor -> E -> result unit * (list (list event) * E).

Local Abbreviation iteration := (SmoothGrad.iteration E normal model).
Local Abbreviation body := (SmoothGrad.body E normal model).
Local Abbreviation call := (SmoothGrad.call E normal model).
Local Abbreviation state := (SmoothGrad.state E).

Lemma iteration_unscored (self : SmoothGrad.t) (g : CombineSaliencyMaps.t)
      (r : nat) (sd : fl) (st : state) (x noise t : tensor) (e1 e2 : E)
      (evs : list (list event)) (h : hook) :
  nth_error (heap st) r = Some x ->
  normal sd (size x) (ext st) = (Ok noise, e1) ->
  tbin fadd x noise = Ok t ->
  model t e1 = (Ok tt, (evs, e2)) ->
  In h (fire (hooks st) evs) ->
  (forall a, CaptureLayerData.data (hook_state h) <> OTensor a) ->
  iteration self g r sd st =
  (Raise AssertionError, mkState (heap st) (fire (hooks st) evs) e2).
Proof.
  intros Hx Hn Ht Hm Hin Hno.
  unfold SmoothGrad.iteration.
  unfold mbind at 1, load. rewrite (getitem_nth _ _ _ Hx).
  unfold mbind at 1, draw. rewrite Hn.
  unfold mbind at 1, lift at 1. rewrite Ht.
  unfold mbind at 1, run_model. cbn [heap hooks ext]. rewrite Hm.
  unfold mbind at 1, get_hooks. cbn [hooks].
  unfold mbind at 1, lift at 1.
  rewrite (mapM_score_raises self _ h Hin Hno). reflexivity.
Qed.

(** Property X26.  Every observer must hold a tensor after the forward
    pass.  When the first pass of the loop leaves an observer without a
    tensor - because its hook was never called on a matching device, or
    because it is an input-side observer, which stores a list -
    [__call__] raises [AssertionError], in debug mode as in the normal
    mode. *)
Theorem SmoothGrad_call_needs_captured_tensors
        (self : SmoothGrad.t) (r : nat) (weights : pyval) (debug : bool) (st : state)
        (x : tensor) (H W : nat) (g : CombineSaliencyMaps.t) (sd : fl)
        (noise t : tensor) (e1 e2 : E) (evs : list (list event)) (h : hook) :
  prelude self r weights st x H W g sd ->
  (0 < iters self)%Z ->
  normal sd (size x) (ext st) = (Ok noise, e1) ->
  tbin fadd x noise = Ok t ->
  model t e1 = (Ok tt, (evs, e2)) ->
  In h (fire (hooks st) evs) ->
  (forall a, CaptureLayerData.data (hook_state h) <> OTensor a) ->
  exists st2, call self r weights debug st = (Raise AssertionError, st2).
Proof.
  intros Hpre Hit Hn Ht Hm Hin Hno.
  rewrite (call_after_prelude E normal model _ _ _ _ _ _ _ _ _ _ Hpre).
  destruct Hpre as (Hx & _).
  assert (Hr : (r < length (heap st))%nat) by (apply nth_error_Some; congruence).
  unfold after_prelude.
  destruct (Z.to_nat (iters self)) as [|n] eqn:Hnat; [lia|].
  destruct debug.
  - unfold mbind at 1, ret at 1. cbn [repeatM]. unfold mbind at 1. unfold mbind at 1.
    unfold SmoothGrad.body. unfold mbind at 1.
    rewrite (iteration_unscored self g r sd st x noise t e1 e2 evs h Hx Hn Ht Hm Hin Hno).
    eexists. reflexivity.
  - unfold mbind at 1. unfold mbind at 1, alloc at 1.
    unfold mbind at 1, alloc at 1. unfold ret at 1. cbn [heap hooks ext].
    set (st0 := mkState _ (hooks st) (ext st)).
    assert (Hx0 : nth_error (heap st0) r = Some x).
    { unfold st0. cbn [heap]. rewrite <- app_assoc. now rewrite nth_error_app1. }
    cbn [repeatM]. unfold mbind at 1. unfold mbind at 1.
    unfold SmoothGrad.body. unfold mbind at 1.
    rewrite (iteration_unscored self g r sd st0 x noise t e1 e2 evs h Hx0 Hn Ht Hm Hin Hno).
    eexists. reflexivity.
Qed.

End AggregatorObservers.

Lemma input_side_prelude (self : SmoothGrad.t) :
  SmoothGrad.maps_magnitude self = false ->
  prelude self 0 PyNone input_side_state x_zero 1 3 (one_map_combiner 1 3) (Some 0).
Proof.
  intros Hm. unfold prelude. rewrite Hm.
  repeat split; try reflexivity.
  exists (Some 0), (Some 0). split; [exact tmax_x_zero|]. split; [exact tmin_x_zero|].
  cbn. f_equal. ring.
Qed.

Lemma SmoothGrad_call_needs_captured_tensors_witness :
  exists st2,
    SmoothGrad.call unit zero_noise ramp_model (SmoothGrad.init 15 true 0.15 false)
                    0 PyNone false input_side_state = (Raise AssertionError, st2).
Proof.
  apply (SmoothGrad_call_needs_captured_tensors
           unit zero_noise ramp_model (SmoothGrad.init 15 true 0.15 false)
           0 PyNone false input_side_state x_zero 1 3 (one_map_combiner 1 3) (Some 0)
           (zeros (size x_zero)) (tzip fadd x_zero (zeros (size x_zero))) tt tt
           [[ramp_event]] (hook_call (new_hook false None detach) ramp_event)).
  - apply (input_side_prelude (SmoothGrad.init 15 true 0.15 false)). reflexivity.
  - cbn [SmoothGrad.iters SmoothGrad.init]. lia.
  - reflexivity.
  - reflexivity.
  - reflexivity.
  - left. reflexivity.
  - intros a. discriminate.
Defined.

(* ================================================================= *)
(** * Locality *)

Lemma flat_sample_ext (x y : tensor) (s1 s2 b : nat) :
  (forall h w, (h < s1)%nat -> (w < s2)%nat -> data x [b; h; w] = data y [b; h; w]) ->
  flat_sample x s1 s2 b = flat_sample y s1 s2 b.
Proof.
  intros Heq. unfold flat_sample. apply map_ext_in. intros k Hk. apply in_seq in Hk.
  assert (s2 <> O) by (intros ->; lia).
  apply Heq.
  - apply Nat.Div0.div_lt_upper_bound. lia.
  - now apply Nat.mod_upper_bound.
Qed.

(** Property X27.  The maps are local.  The three scale maps work pixel by
    pixel: two inputs of the same size with the same channel values at a
    pixel get the same value there, whatever they hold elsewhere.
    [Normalize2D] works sample by sample: two inputs of the same size that
    agree on one sample of the batch get the same normalised sample, so a
    sample is never affected by the other samples of its batch. *)
Theorem maps_are_local
        (smoe : SMOEScaleMap.t) (tn : TruncNormalEntMap.t) (x y : tensor) :
  (forall s0 s1 rest b r,
     size x = s0 :: s1 :: rest -> size y = s0 :: s1 :: rest -> rest <> [] ->
     in_range (b :: r) (s0 :: rest) ->
     (forall c, (c < s1)%nat -> data x (b :: c :: r) = data y (b :: c :: r)) ->
     (exists ox oy, SMOEScaleMap.forward smoe (OTensor x) = Ok ox /\
                    SMOEScaleMap.forward smoe (OTensor y) = Ok oy /\
                    data ox (b :: r) = data oy (b :: r)) /\
     (exists ox oy, StdMap.forward (OTensor x) = Ok ox /\
                    StdMap.forward (OTensor y) = Ok oy /\
                    data ox (b :: r) = data oy (b :: r)) /\
     (exists ox oy, TruncNormalEntMap.forward tn (OTensor x) = Ok ox /\
                    TruncNormalEntMap.forward tn (OTensor y) = Ok oy /\
                    data ox (b :: r) = data oy (b :: r))) /\
  (forall s0 s1 s2 b,
     size x = [s0; s1; s2] -> size y = [s0; s1; s2] -> (b < s0)%nat ->
     (forall h w, (h < s1)%nat -> (w < s2)%nat -> data x [b; h; w] = data y [b; h; w]) ->
     exists ox oy, Normalize2D.forward (OTensor x) = Ok ox /\
                   Normalize2D.forward (OTensor y) = Ok oy /\
                   forall h w, (h < s1)%nat -> (w < s2)%nat ->
                               data ox [b; h; w] = data oy [b; h; w]).
Proof.
  split.
  - intros s0 s1 rest b r Hx Hy Hrest Hin Heq.
    assert (Hch : forall f : fl -> fl,
               map (fun c => f (data x (b :: c :: r))) (seq 0 s1) =
               map (fun c => f (data y (b :: c :: r))) (seq 0 s1)).
    { intros f. apply map_seq_ext. intros c Hc. rewrite Heq by lia. reflexivity. }
    split; [|split].
    + destruct (SMOEScaleMap_forward_pixel smoe x s0 s1 rest Hx Hrest) as (ox & Hox & _ & Hdx).
      destruct (SMOEScaleMap_forward_pixel smoe y s0 s1 rest Hy Hrest) as (oy & Hoy & _ & Hdy).
      exists ox, oy. split; [exact Hox|]. split; [exact Hoy|].
      rewrite (Hdx b r Hin), (Hdy b r Hin). f_equal. apply Hch.
    + destruct (StdMap_forward_pixel x s0 s1 rest Hx Hrest) as (ox & Hox & _ & Hdx).
      destruct (StdMap_forward_pixel y s0 s1 rest Hy Hrest) as (oy & Hoy & _ & Hdy).
      exists ox, oy. split; [exact Hox|]. split; [exact Hoy|].
      rewrite Hdx, Hdy. f_equal. apply (Hch (fun v => v)).
    + destruct (TruncNormalEntMap_forward_pixel tn x s0 s1 rest Hx Hrest)
        as (ox & Hox & _ & Hdx).
      destruct (TruncNormalEntMap_forward_pixel tn y s0 s1 rest Hy Hrest)
        as (oy & Hoy & _ & Hdy).
      exists ox, oy. split; [exact Hox|]. split; [exact Hoy|].
      rewrite (Hdx b r Hin), (Hdy b r Hin). f_equal. apply (Hch (fun v => v)).
  - intros s0 s1 s2 b Hx Hy Hb Heq.
    destruct (Normalize2D_forward_pixel x s0 s1 s2 Hx) as (ox & Hox & _ & Hdx).
    destruct (Normalize2D_forward_pixel y s0 s1 s2 Hy) as (oy & Hoy & _ & Hdy).
    exists ox, oy. split; [exact Hox|]. split; [exact Hoy|].
    intros h w Hh Hw.
    rewrite (Hdx b h w Hb Hh Hw), (Hdy b h w Hb Hh Hw).
    rewrite (flat_sample_ext x y s1 s2 b Heq), (Heq h w Hh Hw). reflexivity.
Qed.

(* ================================================================= *)
(** * Maps that already have the output size *)

Lemma resample_same (M : tensor) (bn H W b i j : nat) :
  size M = [bn; H; W] -> finite M ->
  (b < bn)%nat -> (i < H)%nat -> (j < W)%nat ->
  resample M H W b i j = data M [b; i; j].
Proof.
  intros Hsz Hfin Hb Hi Hj. unfold resample. rewrite Hsz. cbn [nth].
  rewrite (src_index_same H i Hi), (src_index_same W j Hj).
  set (i1 := if (i <? H - 1)%nat then S i else i).
  set (j1 := if (j <? W - 1)%nat then S j else j).
  assert (Hi1 : (i1 < H)%nat).
  { unfold i1. destruct (Nat.ltb_spec i (H - 1)); lia. }
  assert (Hj1 : (j1 < W)%nat).
  { unfold j1. destruct (Nat.ltb_spec j (W - 1)); lia. }
  assert (Hget : forall i' j', (i' < H)%nat -> (j' < W)%nat ->
                               exists r, data M [b; i'; j'] = Some r).
  { intros i' j' Hi' Hj'. apply Hfin. rewrite Hsz.
    unfold in_range. repeat (apply Forall2_cons; [assumption|]). apply Forall2_nil. }
  destruct (Hget i j Hi Hj) as (r00 & ->).
  destruct (Hget i j1 Hi Hj1) as (r01 & ->).
  destruct (Hget i1 j Hi1 Hj) as (r10 & ->).
  destruct (Hget i1 j1 Hi1 Hj1) as (r11 & ->).
  cbn [fadd fmul flift2]. f_equal. ring.
Qed.

(** Property X30.  Maps that already have the output size are not
    altered by the resizing step.  For finite maps of size
    [bn x H x W] combined at the output size [H x W], layer [l] of the
    stacked result is map [l] itself (squared under [magnitude]). *)
Theorem CombineSaliencyMaps_forward_same_size
        (Hp Wp : positive) (weights : pyval) (mag : bool)
        (smaps : list tensor) (bn : nat) (g : CombineSaliencyMaps.t) :
  CombineSaliencyMaps.init [Z.pos Hp; Z.pos Wp] (Z.of_nat (length smaps)) weights
                           "bilinear" mag = Ok g ->
  Forall (fun M => size M = [bn; Pos.to_nat Hp; Pos.to_nat Wp] /\ finite M) smaps ->
  exists cm ww,
    CombineSaliencyMaps.forward g smaps = Ok (cm, ww) /\
    size ww = [bn; length smaps; Pos.to_nat Hp; Pos.to_nat Wp] /\
    forall b i j l M,
      (b < bn)%nat -> (i < Pos.to_nat Hp)%nat -> (j < Pos.to_nat Wp)%nat ->
      nth_error smaps l = Some M ->
      data ww [b; l; i; j] = layer_value mag (data M [b; i; j]).
Proof.
  intros Hinit Hall.
  set (H := Pos.to_nat Hp) in *. set (W := Pos.to_nat Wp) in *.
  assert (HH : (0 < H)%nat) by apply Pos2Nat.is_pos.
  assert (HW : (0 < W)%nat) by apply Pos2Nat.is_pos.
  destruct (CombineSaliencyMaps_init_weights _ _ _ _ _ _ _ Hinit)
    as (HL & Hos & Hmode & Hmag & Hmn & Hws & Hsum & Hlen).
  assert (Hne : smaps <> []) by (intros ->; now apply HL).
  assert (Hb : batch_maps bn smaps).
  { unfold batch_maps. eapply Forall_impl; [|exact Hall].
    intros M [Hsz _]. exists H, W. repeat split; assumption. }
  destruct (CombineSaliencyMaps_forward_value g smaps _ _ bn Hp Wp
              Hos Hmode Hws Hsum Hmn Hne Hlen Hb)
    as (cm & ww & Hfw & _ & Hsw & Hd).
  fold H in Hd, Hsw. fold W in Hd, Hsw. rewrite Hmag in Hd.
  exists cm, ww. split; [exact Hfw|]. split; [exact Hsw|].
  intros b i j l M Hb0 Hi Hj HlM. destruct (Hd b i j Hb0 Hi Hj) as [_ Hww].
  rewrite (Hww l M HlM).
  rewrite Forall_forall in Hall.
  destruct (Hall M (nth_error_In _ _ HlM)) as [Hsz Hfin].
  now rewrite (resample_same M bn H W b i j Hsz Hfin).
Qed.

Lemma finite_x_ones : finite x_ones.
Proof. intros idx _. now exists 1. Qed.

Lemma CombineSaliencyMaps_forward_same_size_witness :
  exists cm ww,
    CombineSaliencyMaps.forward
      (CombineSaliencyMaps.mk [PyNum 1; PyNum 3] (PyNum (rsum [1; 3])) 2
                              [2%Z; 2%Z] "bilinear" true)
      [x_ones; x_ones] = Ok (cm, ww) /\
    size ww = [1; 2; 2; 2]%nat /\
    forall b i j l M,
      (b < 1)%nat -> (i < 2)%nat -> (j < 2)%nat ->
      nth_error [x_ones; x_ones] l = Some M ->
      data ww [b; l; i; j] = layer_value true (data M [b; i; j]).
Proof.
  apply (CombineSaliencyMaps_forward_same_size
           2 2 (PyList [1; 3]) true [x_ones; x_ones] 1).
  - rewrite CombineSaliencyMaps_init_value. reflexivity.
  - repeat constructor; apply finite_x_ones.
Defined.

(* ================================================================= *)
(** * Concrete instances *)

Lemma maps_are_local_witness :
  exists ox oy,
    Normalize2D.forward (OTensor x_batch_a) = Ok ox /\
    Normalize2D.forward (OTensor x_batch_b) = Ok oy /\
    forall h w, (h < 1)%nat -> (w < 2)%nat ->
                data ox [0%nat; h; w] = data oy [0%nat; h; w].
Proof.
  apply (proj2 (maps_are_local (SMOEScaleMap.init false) TruncNormalEntMap.init
                               x_batch_a x_batch_b) 2%nat 1%nat 2%nat 0%nat).
  - reflexivity.
  - reflexivity.
  - lia.
  - intros h w Hh Hw. reflexivity.
Defined.

